(** * QuantBot: the Finviz field-normalisation pipeline

    A shallow embedding of [scripts/collect_finviz_features.py]: the three
    scalar parsers ([parse_float], [parse_percent], [parse_high_low]), the
    field tables ([COMMON_FIELD_MAP], [HIGH_LOW_FIELDS]), the per-ticker row
    construction and the snapshot assembly of [collect_quote_features], and
    the ticker normalisation done by [main].

    Conventions of the embedding.
    - A Python [str] is a [string]; each character is read as the code point
      of the same number, and the case and white-space tables are those of
      the ASCII range (tickers and Finviz cells are ASCII text).
    - A Python [float] is an IEEE-754 binary64 value, a [spec_float] of the
      standard library; [float(text)] rounds the decimal it reads to the
      nearest binary64 value, ties to even.
    - An exception is a value of [exn]; code that may raise returns a
      [result]. [try ... except ValueError] is [try_except_ValueError].
    - [float()], [str()] of a float, [str.strip], [str.split], [str.upper],
      [pd.DataFrame] and [DataFrame.insert] are Python's and pandas', not the
      repository's; they are written out here as their documentation
      describes them, as far as the program uses them.
    - The quote source and the clock are the two effects of
      [collect_quote_features]; they are threaded through a state. *)

From Stdlib Require Import ZArith QArith Qround Qpower Lqa Lia Bool List Ascii String.
From Stdlib Require Import SpecFloat.
Import ListNotations.

Local Open Scope string_scope.
Local Open Scope Z_scope.

(** ** Exceptions *)

Module Py.

Inductive exn : Type :=
| ValueError
| IndexError
| SystemExit (msg : string)
| QuoteSourceError (msg : string).

Inductive result (A : Type) : Type :=
| Ok (a : A)
| Raise (e : exn).

Arguments Ok {A} a.
Arguments Raise {A} e.

Definition bind {A B : Type} (c : result A) (k : A -> result B) : result B :=
  match c with
  | Ok a => k a
  | Raise e => Raise e
  end.

Definition is_ValueError (e : exn) : bool :=
  match e with ValueError => true | _ => false end.

(** [try: c except ValueError: h] *)
Definition try_except_ValueError {A : Type} (c : result A) (h : result A) : result A :=
  match c with
  | Ok a => Ok a
  | Raise e => if is_ValueError e then h else Raise e
  end.

End Py.

Import Py.

Notation "x <- c ;; k" := (Py.bind c (fun x => k))
  (at level 61, c at next level, right associativity).

(** ** Python strings *)

Module Str.

(** [str.isspace] on one character of the ASCII range: TAB, LF, VT, FF, CR,
    the four separators FS, GS, RS, US, and the space. *)
Definition is_space (c : ascii) : bool :=
  let n := nat_of_ascii c in
  ((9 <=? n) && (n <=? 13) || (28 <=? n) && (n <=? 32))%nat.

Fixpoint lstrip (s : string) : string :=
  match s with
  | EmptyString => EmptyString
  | String c s' => if is_space c then lstrip s' else s
  end.

Fixpoint rstrip (s : string) : string :=
  match s with
  | EmptyString => EmptyString
  | String c s' =>
      match rstrip s' with
      | EmptyString => if is_space c then EmptyString else String c EmptyString
      | r => String c r
      end
  end.

(** [s.strip()] *)
Definition strip (s : string) : string := rstrip (lstrip s).

(** [s.replace(c, "")] for a one-character [c]. *)
Fixpoint remove_char (c : ascii) (s : string) : string :=
  match s with
  | EmptyString => EmptyString
  | String d s' => if Ascii.eqb d c then remove_char c s' else String d (remove_char c s')
  end.

(** [s.endswith(c)] for a one-character [c]. *)
Fixpoint endswith_char (c : ascii) (s : string) : bool :=
  match s with
  | EmptyString => false
  | String d EmptyString => Ascii.eqb d c
  | String _ s' => endswith_char c s'
  end.

(** [s[:-1]] *)
Fixpoint drop_last (s : string) : string :=
  match s with
  | EmptyString => EmptyString
  | String _ EmptyString => EmptyString
  | String d s' => String d (drop_last s')
  end.

(** [s.split()]: the maximal runs of non-space characters, in order.
    [cur] is the run being read, reversed. *)
Fixpoint split_ws_aux (cur : list ascii) (s : string) : list string :=
  match s with
  | EmptyString =>
      match cur with
      | [] => []
      | _ => [string_of_list_ascii (rev cur)]
      end
  | String c s' =>
      if is_space c then
        match cur with
        | [] => split_ws_aux [] s'
        | _ => string_of_list_ascii (rev cur) :: split_ws_aux [] s'
        end
      else split_ws_aux (c :: cur) s'
  end.

Definition split_ws (s : string) : list string := split_ws_aux [] s.

(** [s.split(c)] for a one-character separator: every separator cuts, so
    empty pieces are kept and the result is never empty. *)
Fixpoint split_on_aux (sep : ascii) (cur : list ascii) (s : string) : list string :=
  match s with
  | EmptyString => [string_of_list_ascii (rev cur)]
  | String c s' =>
      if Ascii.eqb c sep then string_of_list_ascii (rev cur) :: split_on_aux sep [] s'
      else split_on_aux sep (c :: cur) s'
  end.

Definition split_on (sep : ascii) (s : string) : list string := split_on_aux sep [] s.

Definition upper_char (c : ascii) : ascii :=
  let n := nat_of_ascii c in
  if ((97 <=? n) && (n <=? 122))%nat then ascii_of_nat (n - 32) else c.

Definition lower_char (c : ascii) : ascii :=
  let n := nat_of_ascii c in
  if ((65 <=? n) && (n <=? 90))%nat then ascii_of_nat (n + 32) else c.

(** [s.upper()] *)
Fixpoint upper (s : string) : string :=
  match s with
  | EmptyString => EmptyString
  | String c s' => String (upper_char c) (upper s')
  end.

Fixpoint lower (s : string) : string :=
  match s with
  | EmptyString => EmptyString
  | String c s' => String (lower_char c) (lower s')
  end.

(** Truthiness of a string: [bool(s)]. *)
Definition nonempty (s : string) : bool :=
  match s with EmptyString => false | _ => true end.

(** [s in l] for a collection of strings. *)
Definition mem (s : string) (l : list string) : bool :=
  existsb (String.eqb s) l.

(** What the text begins and ends with. *)
Definition starts_nonspace (s : string) : bool :=
  match s with
  | EmptyString => true
  | String c _ => negb (is_space c)
  end.

Fixpoint ends_nonspace (s : string) : bool :=
  match s with
  | EmptyString => true
  | String c EmptyString => negb (is_space c)
  | String _ s' => ends_nonspace s'
  end.

(** Text that [strip] leaves alone. *)
Definition trimmed (s : string) : bool := starts_nonspace s && ends_nonspace s.

Fixpoint no_space (s : string) : bool :=
  match s with
  | EmptyString => true
  | String c s' => negb (is_space c) && no_space s'
  end.

(** A piece of [split()]: not empty, no white space. *)
Definition token (s : string) : bool := nonempty s && no_space s.

Definition no_space_list (l : list ascii) : bool := forallb (fun c => negb (is_space c)) l.

End Str.

(** ** Python floats *)

Module Float.

(** A Python [float]: an IEEE-754 binary64 value. *)
Definition float : Type := spec_float.

(** Exponent of the least significant bit of a subnormal, and the largest
    exponent a 53-bit mantissa can carry. *)
Definition emin_lsb : Z := -1074.
Definition emax_lsb : Z := 971.

Definition pow2 (k : Z) : Q := (2 ^ k)%Q.
Definition pow10 (k : Z) : Q := (10 ^ k)%Q.

(** The integer [L] with [2^L <= x < 2^(L+1)], for a positive rational. *)
Definition floor_log2 (x : Q) : Z :=
  let L0 := Z.log2 (Qnum x) - Z.log2 (Zpos (Qden x)) in
  if Qle_bool (pow2 L0) x then L0 else L0 - 1.

(** The integer nearest to [y], ties to even. *)
Definition round_half_even (y : Q) : Z :=
  let q := Qfloor y in
  match (y - inject_Z q ?= 1 # 2)%Q with
  | Lt => q
  | Eq => if Z.even q then q else q + 1
  | Gt => q + 1
  end.

(** The binary64 value nearest to the positive rational [x], ties to even,
    with sign [s]: gradual underflow below [2^-1022], infinity from
    [2^1024 - 2^970] on. *)
Definition round_pos (s : bool) (x : Q) : float :=
  let e := Z.max emin_lsb (floor_log2 x - 52) in
  let m := round_half_even (x * pow2 (- e))%Q in
  if m =? 0 then S754_zero s
  else
    let m' := if m =? 2 ^ 53 then 2 ^ 52 else m in
    let e' := if m =? 2 ^ 53 then e + 1 else e in
    if emax_lsb <? e' then S754_infinity s
    else S754_finite s (Z.to_pos m') e'.

(** The binary64 value nearest to the rational [x >= 0], with sign [s]. *)
Definition round_Q (s : bool) (x : Q) : float :=
  let r := Qred x in
  if Qle_bool r 0 then S754_zero s else round_pos s r.

(** The rational [m * 10^e]. *)
Definition decimal_Q (m e : Z) : Q :=
  if 0 <=? e then inject_Z (m * 10 ^ e) else Qmake m (Z.to_pos (10 ^ (- e))).

(** What a float literal denotes. *)
Inductive literal : Type :=
| LInf (neg : bool)
| LNan
| LNum (neg : bool) (mant : Z) (exp10 : Z).

Definition of_literal (l : literal) : float :=
  match l with
  | LInf neg => S754_infinity neg
  | LNan => S754_nan
  | LNum neg m e => round_Q neg (decimal_Q m e)
  end.

Definition is_digit (c : ascii) : bool :=
  let n := nat_of_ascii c in ((48 <=? n) && (n <=? 57))%nat.

Definition digit_val (c : ascii) : Z := Z.of_nat (nat_of_ascii c) - 48.

(** The longest prefix of digits, and what follows it. *)
Fixpoint span_digits (s : list ascii) : list ascii * list ascii :=
  match s with
  | c :: s' =>
      if is_digit c then let (d, r) := span_digits s' in (c :: d, r)
      else ([], s)
  | [] => ([], [])
  end.

(** The number a digit string denotes, most significant digit first. *)
Definition digits_val (ds : list ascii) : Z :=
  fold_left (fun acc c => 10 * acc + digit_val c) ds 0.

Definition read_sign (s : list ascii) : bool * list ascii :=
  match s with
  | "-"%char :: r => (true, r)
  | "+"%char :: r => (false, r)
  | _ => (false, s)
  end.

(** The exponent part: nothing, or [e]/[E], an optional sign and at least
    one digit, up to the end of the text. *)
Definition read_exponent (s : list ascii) : option Z :=
  match s with
  | [] => Some 0
  | c :: r =>
      if (Ascii.eqb c "e" || Ascii.eqb c "E")%bool then
        let (neg, r1) := read_sign r in
        match span_digits r1 with
        | ((_ :: _) as ds, []) => Some (if neg then - digits_val ds else digits_val ds)
        | _ => None
        end
      else None
  end.

(** [digits [. digits] [exponent]] or [. digits [exponent]], unsigned. *)
Definition read_number (s : list ascii) : option (Z * Z) :=
  let (ip, r) := span_digits s in
  let '(fp, r') :=
    match r with
    | "."%char :: r1 => span_digits r1
    | _ => ([], r)
    end in
  match (ip ++ fp)%list with
  | [] => None
  | ds =>
      match read_exponent r' with
      | Some e => Some (digits_val ds, e - Z.of_nat (List.length fp))
      | None => None
      end
  end.

(** A whole literal: an optional sign, then [inf], [infinity] or [nan] in
    any casing, or a number. *)
Definition read_literal (s : list ascii) : option literal :=
  let (neg, r) := read_sign s in
  let low := Str.lower (string_of_list_ascii r) in
  if (String.eqb low "inf" || String.eqb low "infinity")%bool then Some (LInf neg)
  else if String.eqb low "nan" then Some LNan
  else
    match read_number r with
    | Some (m, e) => Some (LNum neg m e)
    | None => None
    end.

(** Digit-group underscores: each must stand between two digits. The
    result is the text without them, or [None] where one is misplaced.
    [prev] is the character before [s]. *)
Fixpoint drop_underscores (prev : option ascii) (s : list ascii) : option (list ascii) :=
  let prev_digit := match prev with Some p => is_digit p | None => false end in
  let prev_under := match prev with Some p => Ascii.eqb p "_" | None => false end in
  match s with
  | [] => if prev_under then None else Some []
  | c :: s' =>
      if Ascii.eqb c "_" then
        if prev_digit then drop_underscores (Some c) s' else None
      else if (prev_under && negb (is_digit c))%bool then None
      else
        match drop_underscores (Some c) s' with
        | Some r => Some (c :: r)
        | None => None
        end
  end.

(** [float(text)] on a string: white space around the literal is ignored;
    text that is no literal raises [ValueError]. *)
Definition of_string (text : string) : result float :=
  match drop_underscores None (list_ascii_of_string text) with
  | None => Raise ValueError
  | Some u =>
      match read_literal (list_ascii_of_string (Str.strip (string_of_list_ascii u))) with
      | Some l => Ok (of_literal l)
      | None => Raise ValueError
      end
  end.

(** Python's [==] on floats: a NaN equals nothing, the two zeros are equal. *)
Definition eqb (x y : float) : bool := SFeqb x y.

Definition is_nan (x : float) : bool :=
  match x with S754_nan => true | _ => false end.

(** The float a decimal literal of the program text denotes. *)
Definition lit (neg : bool) (m e : Z) : float := of_literal (LNum neg m e).

(** Same sign, mantissa and exponent. *)
Definition same (x y : float) : bool :=
  match x, y with
  | S754_zero s, S754_zero s' => Bool.eqb s s'
  | S754_infinity s, S754_infinity s' => Bool.eqb s s'
  | S754_nan, S754_nan => true
  | S754_finite s m e, S754_finite s' m' e' =>
      (Bool.eqb s s' && Pos.eqb m m' && Z.eqb e e')%bool
  | _, _ => false
  end.

(** The mantissa and exponent a binary64 value can have. *)
Definition canonical (m : positive) (e : Z) : bool :=
  ((2 ^ 52 <=? Zpos m) && (Zpos m <? 2 ^ 53) && (emin_lsb <=? e) && (e <=? emax_lsb)
   || (Zpos m <? 2 ^ 52) && (e =? emin_lsb))%bool.

Definition valid (x : float) : bool :=
  match x with
  | S754_finite _ m e => canonical m e
  | _ => true
  end.

(** *** [str(x)]: the shortest decimal that reads back as [x] *)

Definition digit_char (d : Z) : ascii := ascii_of_nat (48 + Z.to_nat d).

Fixpoint digits_fuel (fuel : nat) (n : Z) (acc : list ascii) : list ascii :=
  match fuel with
  | O => acc
  | S fuel' =>
      let acc' := digit_char (n mod 10) :: acc in
      if n <? 10 then acc' else digits_fuel fuel' (n / 10) acc'
  end.

(** The decimal digits of [n >= 0], most significant first. *)
Definition digits_of (n : Z) : list ascii :=
  digits_fuel (S (Z.to_nat (Z.log2 n))) n [].

(** [d * 10^p] without the trailing zeros of [d]. *)
Fixpoint drop_zeros (fuel : nat) (d p : Z) : Z * Z :=
  match fuel with
  | O => (d, p)
  | S fuel' =>
      if ((0 <? d) && (d mod 10 =? 0))%bool then drop_zeros fuel' (d / 10) (p + 1)
      else (d, p)
  end.

(** The [k] with [10^(k-1) <= x < 10^k], for a positive rational: the
    position of the decimal point before the first digit. *)
Definition decimal_point (x : Q) : Z :=
  let j := floor_log2 x * 30103 / 100000 in
  if Qle_bool (pow10 (j + 2)) x then j + 3
  else if Qle_bool (pow10 (j + 1)) x then j + 2
  else if Qle_bool (pow10 j) x then j + 1
  else j.

(** The [n]-digit decimal nearest to [x] among those that read back as
    [target]: one of the two neighbours of [x] with [n] digits, if any. *)
Definition nearest_reading (target : float) (x : Q) (k : Z) (n : Z) : option (Z * Z) :=
  let p := k - n in
  let y := (x * pow10 (- p))%Q in
  let lo := Qfloor y in
  let hi := lo + 1 in
  let ok d := same (round_Q false (decimal_Q d p)) target in
  match ok lo, ok hi with
  | true, false => Some (lo, p)
  | false, true => Some (hi, p)
  | true, true =>
      match (y - inject_Z lo ?= 1 # 2)%Q with
      | Lt => Some (lo, p)
      | Gt => Some (hi, p)
      | Eq => Some (if Z.even lo then lo else hi, p)
      end
  | false, false => None
  end.

(** The first success with [n], [n+1], ... digits, [fuel] lengths in all. *)
Fixpoint shortest_from (fuel : nat) (target : float) (x : Q) (k : Z) (n : Z)
  : option (Z * Z) :=
  match fuel with
  | O => None
  | S fuel' =>
      match nearest_reading target x k n with
      | Some c => Some c
      | None => shortest_from fuel' target x k (n + 1)
      end
  end.

(** The exact decimal expansion of [m * 2^e]. *)
Definition exact_decimal (m e : Z) : Z * Z :=
  if 0 <=? e then (m * 2 ^ e, 0) else (m * 5 ^ (- e), e).

(** The shortest decimal [d * 10^p] that reads back as [m * 2^e], and the
    nearest to it among the shortest: 17 digits are always enough for a
    binary64 value, so the exact expansion in the last line is never
    reached; it is there to make the function total. *)
Definition shortest_decimal (m : positive) (e : Z) : Z * Z :=
  let x := (inject_Z (Zpos m) * pow2 e)%Q in
  let '(d, p) :=
    match shortest_from 17 (S754_finite false m e) x (decimal_point x) 1 with
    | Some c => c
    | None => exact_decimal (Zpos m) e
    end in
  drop_zeros (S (Z.to_nat (Z.log2 d))) d p.

Definition zeros (n : Z) : list ascii := repeat "0"%char (Z.to_nat n).

(** The exponent as [%+.02d] prints it. *)
Definition format_exponent (x : Z) : list ascii :=
  let sign := if x <? 0 then "-"%char else "+"%char in
  let ds := digits_of (Z.abs x) in
  sign :: (if Z.abs x <? 10 then "0"%char :: ds else ds).

(** The layout of [repr]: [ds] are the digits and [decpt] the position of
    the decimal point before them; exponent notation from [1e16] on and
    below [1e-4], and [.0] after a whole number. *)
Definition format_repr (ds : list ascii) (decpt : Z) : list ascii :=
  let n := Z.of_nat (List.length ds) in
  if ((decpt <=? -4) || (16 <? decpt))%bool then
    match ds with
    | [] => []
    | [d] => d :: "e"%char :: format_exponent (decpt - 1)
    | d :: rest => (d :: "."%char :: rest ++ "e"%char :: format_exponent (decpt - 1))%list
    end
  else if decpt <=? 0 then
    ("0"%char :: "."%char :: zeros (- decpt) ++ ds)%list
  else if n <=? decpt then
    (ds ++ zeros (decpt - n) ++ ["."%char; "0"%char])%list
  else
    (firstn (Z.to_nat decpt) ds ++ "."%char :: skipn (Z.to_nat decpt) ds)%list.

(** [str(x)] and [repr(x)] of a float. *)
Definition to_string (x : float) : string :=
  match x with
  | S754_nan => "nan"
  | S754_infinity false => "inf"
  | S754_infinity true => "-inf"
  | S754_zero false => "0.0"
  | S754_zero true => "-0.0"
  | S754_finite s m e =>
      let (d, p) := shortest_decimal m e in
      let ds := digits_of d in
      let body := format_repr ds (Z.of_nat (List.length ds) + p) in
      string_of_list_ascii (if s then "-"%char :: body else body)
  end.

Definition stops (r : list ascii) : bool :=
  match r with
  | [] => true
  | c :: _ => negb (is_digit c)
  end.

(** The characters [str] prints for a finite float. *)
Definition repr_char (c : ascii) : bool :=
  (is_digit c || Ascii.eqb c "." || Ascii.eqb c "e" || Ascii.eqb c "+" || Ascii.eqb c "-")%bool.

(** No white space, no underscore, no comma. *)
Definition plain (c : ascii) : bool :=
  (negb (Str.is_space c) && negb (Ascii.eqb c "_") && negb (Ascii.eqb c ","))%bool.

End Float.

(** ** Helper parsers *)

(** The values a row holds: [None], a string, or a float. *)
Inductive value : Type :=
| VNone
| VStr (s : string)
| VFloat (f : Float.float).

Definition of_opt_float (o : option Float.float) : value :=
  match o with Some f => VFloat f | None => VNone end.

Definition of_opt_str (o : option string) : value :=
  match o with Some s => VStr s | None => VNone end.

(** The literal set [{"", "-", "NaN", "nan"}] of the three parsers. *)
Definition SENTINELS : list string := [""; "-"; "NaN"; "nan"].

(** [try: return float(text) except ValueError: return None] *)
Definition float_or_none (text : string) : result (option Float.float) :=
  try_except_ValueError (f <- Float.of_string text ;; Ok (Some f)) (Ok None).

Definition parse_float (value : option string) : result (option Float.float) :=
  match value with
  | None => Ok None
  | Some v =>
      let text := Str.strip v in
      if Str.mem text SENTINELS then Ok None
      else
        let text := Str.remove_char "," text in
        float_or_none text
  end.

Definition parse_percent (value : option string) : result (option Float.float) :=
  match value with
  | None => Ok None
  | Some v =>
      let text := Str.strip v in
      if Str.mem text SENTINELS then Ok None
      else
        let text := if Str.endswith_char "%" text then Str.drop_last text else text in
        let text := Str.remove_char "," text in
        float_or_none text
  end.

(** [l[i]] on a list: [IndexError] out of range. *)
Definition list_index {A : Type} (l : list A) (i : nat) : result A :=
  match nth_error l i with
  | Some a => Ok a
  | None => Raise IndexError
  end.

Definition parse_high_low (value : option string)
  : result (option Float.float * option Float.float) :=
  match value with
  | None => Ok (None, None)
  | Some v =>
      let text := Str.strip v in
      if Str.mem text SENTINELS then Ok (None, None)
      else
        let parts := Str.split_ws text in
        price <- (match parts with
                  | [] => Ok None
                  | _ => p0 <- list_index parts 0 ;; parse_float (Some p0)
                  end) ;;
        pct <- (if (1 <? List.length parts)%nat
                then p1 <- list_index parts 1 ;; parse_percent (Some p1)
                else Ok None) ;;
        Ok (price, pct)
  end.

(** ** Field mapping *)

Definition parser : Type := option string -> result (option Float.float).

(** Source field, then target column and parser, in the order of the
    source's dict literal. *)
Definition COMMON_FIELD_MAP : list (string * (string * parser)) :=
  [ ("Price", ("price", parse_float));
    ("Change", ("change_pct", parse_percent));
    ("P/E", ("pe", parse_float));
    ("Forward P/E", ("forward_pe", parse_float));
    ("PEG", ("peg", parse_float));
    ("EPS this Y", ("eps_growth_this_year_pct", parse_percent));
    ("EPS next Y", ("eps_next_year", parse_float));
    ("EPS next 5Y", ("eps_next_5y_pct", parse_percent));
    ("Sales Y/Y TTM", ("sales_yoy_ttm_pct", parse_percent));
    ("EPS Q/Q", ("eps_qoq_pct", parse_percent));
    ("Sales Q/Q", ("sales_qoq_pct", parse_percent));
    ("ROE", ("roe_pct", parse_percent));
    ("ROIC", ("roic_pct", parse_percent));
    ("Gross Margin", ("gross_margin_pct", parse_percent));
    ("Oper. Margin", ("oper_margin_pct", parse_percent));
    ("Profit Margin", ("profit_margin_pct", parse_percent));
    ("Debt/Eq", ("debt_to_equity", parse_float));
    ("LT Debt/Eq", ("lt_debt_to_equity", parse_float));
    ("Current Ratio", ("current_ratio", parse_float));
    ("Quick Ratio", ("quick_ratio", parse_float));
    ("Short Float", ("short_float_pct", parse_percent));
    ("Short Ratio", ("short_ratio", parse_float));
    ("Insider Own", ("insider_own_pct", parse_percent));
    ("Insider Trans", ("insider_trans_pct", parse_percent));
    ("Inst Own", ("institutional_own_pct", parse_percent));
    ("Inst Trans", ("institutional_trans_pct", parse_percent));
    ("Perf Week", ("perf_week_pct", parse_percent));
    ("Perf Month", ("perf_month_pct", parse_percent));
    ("SMA20", ("sma20_pct", parse_percent));
    ("SMA50", ("sma50_pct", parse_percent));
    ("SMA200", ("sma200_pct", parse_percent));
    ("RSI (14)", ("rsi_14", parse_float)) ].

Definition HIGH_LOW_FIELDS : list (string * (string * string)) :=
  [ ("52W High", ("52w_high_price", "52w_high_distance_pct"));
    ("52W Low", ("52w_low_price", "52w_low_distance_pct")) ].

(** ** Dicts *)

Module Dict.

(** A Python dict with string keys, in insertion order. *)
Definition t (V : Type) : Type := list (string * V).

Fixpoint get {V : Type} (k : string) (d : t V) : option V :=
  match d with
  | [] => None
  | (k', v) :: d' => if String.eqb k k' then Some v else get k d'
  end.

(** [d[k] = v]: a key already there keeps its place, a new one goes last. *)
Fixpoint set {V : Type} (k : string) (v : V) (d : t V) : t V :=
  match d with
  | [] => [(k, v)]
  | (k', v') :: d' => if String.eqb k k' then (k', v) :: d' else (k', v') :: set k v d'
  end.

Definition keys {V : Type} (d : t V) : list string := map fst d.

(** No label twice, as a test. *)
Fixpoint nodupb (l : list string) : bool :=
  match l with
  | [] => true
  | k :: l' => negb (Str.mem k l') && nodupb l'
  end.

End Dict.

(** The raw field mapping of one ticker, as the quote source returns it. *)
Definition RawQuote : Type := Dict.t (option string).

(** [fundament.get(field)]: [None] where the key is absent. *)
Definition raw_get (field : string) (fundament : RawQuote) : option string :=
  match Dict.get field fundament with
  | Some v => v
  | None => None
  end.

Definition Row : Type := Dict.t value.

(** ** The record of one ticker: the body of the loop of
    [collect_quote_features], from the dict literal to the last assignment. *)

Fixpoint common_fields (fundament : RawQuote) (fields : list (string * (string * parser)))
  (row : Row) : result Row :=
  match fields with
  | [] => Ok row
  | (field, (col, parser)) :: rest =>
      let value := raw_get field fundament in
      parsed <- parser value ;;
      common_fields fundament rest (Dict.set col (of_opt_float parsed) row)
  end.

Fixpoint high_low_fields (fundament : RawQuote) (fields : list (string * (string * string)))
  (row : Row) : result Row :=
  match fields with
  | [] => Ok row
  | (field, (price_col, distance_col)) :: rest =>
      pp <- parse_high_low (raw_get field fundament) ;;
      let '(price, pct) := pp in
      let row := Dict.set price_col (of_opt_float price) row in
      let row := Dict.set distance_col (of_opt_float pct) row in
      high_low_fields fundament rest row
  end.

Definition build_record (ticker : string) (fundament : RawQuote) : result Row :=
  let row : Row :=
    [ ("ticker", VStr (Str.upper ticker));
      ("sector", of_opt_str (raw_get "Sector" fundament));
      ("industry", of_opt_str (raw_get "Industry" fundament));
      ("country", of_opt_str (raw_get "Country" fundament)) ] in
  row <- common_fields fundament COMMON_FIELD_MAP row ;;
  high_low_fields fundament HIGH_LOW_FIELDS row.

(** ** Data frames *)

Module Frame.

(** A table: the column labels and, per row, one cell per column. *)
Record DataFrame : Type := mk {
  columns : list string;
  rows : list (list value)
}.

(** A label joins the labels seen so far, at the end, unless it is there. *)
Definition add_key (acc : list string) (k : string) : list string :=
  if Str.mem k acc then acc else (acc ++ [k])%list.

(** The labels of the records, each at its first appearance. *)
Fixpoint union_keys (seen : list string) (records : list Row) : list string :=
  match records with
  | [] => seen
  | r :: rest => union_keys (fold_left add_key (Dict.keys r) seen) rest
  end.

(** [pd.DataFrame(records)] on a list of dicts: a cell a record lacks is
    NaN. Cells keep the record's values as they are. *)
Definition of_records (records : list Row) : DataFrame :=
  let cols := union_keys [] records in
  mk cols
     (map (fun r => map (fun c => match Dict.get c r with
                                  | Some v => v
                                  | None => VFloat S754_nan
                                  end) cols) records).

Definition insert_at {A : Type} (loc : nat) (a : A) (l : list A) : list A :=
  (firstn loc l ++ a :: skipn loc l)%list.

(** [df.insert(loc, column, value)] with a scalar [value]: the label must be
    new ([ValueError]) and [0 <= loc <= len(df.columns)] ([IndexError]); the
    scalar fills the new column in every row. *)
Definition insert (loc : nat) (column : string) (v : value) (df : DataFrame)
  : result DataFrame :=
  if Str.mem column (columns df) then Raise ValueError
  else if (List.length (columns df) <? loc)%nat then Raise IndexError
  else Ok (mk (insert_at loc column (columns df))
              (map (insert_at loc v) (rows df))).

(** The position of a label. *)
Fixpoint col_index (c : string) (cols : list string) : option nat :=
  match cols with
  | [] => None
  | c' :: rest =>
      if String.eqb c c' then Some O
      else match col_index c rest with Some i => Some (S i) | None => None end
  end.

(** The cell of row [i] under label [c]. *)
Definition cell (df : DataFrame) (i : nat) (c : string) : option value :=
  match nth_error (rows df) i, col_index c (columns df) with
  | Some r, Some j => nth_error r j
  | _, _ => None
  end.

(** [len(df)] *)
Definition len (df : DataFrame) : nat := List.length (rows df).

End Frame.

(** ** Snapshot assembly *)

Section Collect.

(** The state the two collaborators live in. *)
Variable World : Type.

(** [finvizfinance(ticker).ticker_fundament()]: the quote source, which may
    raise. *)
Variable ticker_fundament : string -> World -> result RawQuote * World.

(** [datetime.now(timezone.utc).isoformat()] *)
Variable utc_now_isoformat : World -> string * World.

(** The [for ticker in tickers] loop; [rows] is the list built so far. *)
Fixpoint collect_rows (tickers : list string) (rows : list Row) (w : World)
  : result (list Row) * World :=
  match tickers with
  | [] => (Ok rows, w)
  | ticker :: rest =>
      match ticker_fundament ticker w with
      | (Raise e, w1) => (Raise e, w1)
      | (Ok fundament, w1) =>
          match build_record ticker fundament with
          | Raise e => (Raise e, w1)
          | Ok row => collect_rows rest (rows ++ [row])%list w1
          end
      end
  end.

Definition collect_quote_features (tickers : list string) (w : World)
  : result Frame.DataFrame * World :=
  match collect_rows tickers [] w with
  | (Raise e, w1) => (Raise e, w1)
  | (Ok rows, w1) =>
      let df := Frame.of_records rows in
      let (stamp, w2) := utc_now_isoformat w1 in
      (Frame.insert 1 "snapshot_utc" (VStr stamp) df, w2)
  end.

(** [[t.strip().upper() for t in arg.split(",") if t.strip()]] *)
Definition main_tickers (arg : string) : list string :=
  map (fun t => Str.upper (Str.strip t))
      (filter (fun t => Str.nonempty (Str.strip t)) (Str.split_on "," arg)).

(** [main] up to the frame it writes out: [arg] is [args.tickers]. *)
Definition main_collect (arg : string) (w : World) : result Frame.DataFrame * World :=
  let tickers := main_tickers arg in
  match tickers with
  | [] => (Raise (SystemExit "No tickers provided"), w)
  | _ => collect_quote_features tickers w
  end.

End Collect.

(** A quote source that answers from a table and a clock that counts
    seconds, for running the pipeline. *)
Module Demo.

Definition World : Type := nat.

Definition quotes : list (string * RawQuote) :=
  [ ("AAPL", [ ("Sector", Some "Technology"); ("Price", Some "1,234.5");
               ("Change", Some "-3.2%"); ("52W High", Some "150.25 -5.10%") ]);
    ("MSFT", [ ("Sector", Some "Technology"); ("P/E", Some "-") ]) ].

Definition ticker_fundament (ticker : string) (w : World) : result RawQuote * World :=
  match Dict.get (Str.upper (Str.strip ticker)) quotes with
  | Some q => (Ok q, w)
  | None => (Raise (QuoteSourceError ticker), w)
  end.

Definition stamp (w : World) : string :=
  ("2024-01-01T00:00:0" ++ String (ascii_of_nat (48 + Nat.modulo w 10)) "+00:00")%string.

Definition utc_now_isoformat (w : World) : string * World := (stamp w, S w).

Definition collect := collect_quote_features World ticker_fundament utc_now_isoformat.

End Demo.

(** * The vocabulary of the properties *)

(** ** What the parsers compute *)

Module Parsed.
Import Str.

(** [float(text)] as a value: [None] where it raises. *)
Definition to_float_opt (text : string) : option Float.float :=
  match Float.of_string text with
  | Ok f => Some f
  | Raise _ => None
  end.

(** The input stands for "no data": [None], or a sentinel once trimmed. *)
Definition no_data (v : option string) : bool :=
  match v with
  | None => true
  | Some s => mem (strip s) SENTINELS
  end.

(** The text [parse_float] hands to [float()]. *)
Definition float_text (s : string) : string := remove_char "," (strip s).

(** [text[:-1]] if [text] ends with a percent sign, else [text]. *)
Definition unpercent (text : string) : string :=
  if endswith_char "%" text then drop_last text else text.

(** The text [parse_percent] hands to [float()]. *)
Definition percent_text (s : string) : string := remove_char "," (unpercent (strip s)).

Definition float_value (s : string) : option Float.float :=
  if mem (strip s) SENTINELS then None else to_float_opt (float_text s).

Definition percent_value (s : string) : option Float.float :=
  if mem (strip s) SENTINELS then None else to_float_opt (percent_text s).

(** What [parse_high_low] computes from the pieces of the trimmed text. *)
Definition high_low_value (s : string) : option Float.float * option Float.float :=
  if mem (strip s) SENTINELS then (None, None)
  else
    match split_ws (strip s) with
    | [] => (None, None)
    | [t0] => (float_value t0, None)
    | t0 :: t1 :: _ => (float_value t0, percent_value t1)
    end.

(** Python's [==] on two results of a parser. *)
Definition py_eq (a b : option Float.float) : bool :=
  match a, b with
  | None, None => true
  | Some x, Some y => Float.eqb x y
  | _, _ => false
  end.

End Parsed.

(** ** What a row holds *)

Module Rows.
Import Parsed.

(** The columns of a row, in the order the loop body writes them. *)
Definition ROW_COLUMNS : list string :=
  (["ticker"; "sector"; "industry"; "country"]
   ++ map (fun e => fst (snd e)) COMMON_FIELD_MAP
   ++ flat_map (fun e => [fst (snd e); snd (snd e)]) HIGH_LOW_FIELDS)%list.

(** What a parser returns, [None] if it were to raise. *)
Definition value_of (p : parser) (v : option string) : option Float.float :=
  match p v with
  | Ok r => r
  | Raise _ => None
  end.

Definition total (p : parser) : Prop := forall v, exists r, p v = Ok r.

Definition common_cells (fundament : RawQuote) (fields : list (string * (string * parser)))
  : Row :=
  map (fun e => (fst (snd e),
                 of_opt_float (value_of (snd (snd e)) (raw_get (fst e) fundament))))
      fields.

Definition high_low_of (v : option string) : option Float.float * option Float.float :=
  match v with
  | None => (None, None)
  | Some s => high_low_value s
  end.

Definition high_low_cells (fundament : RawQuote) (fields : list (string * (string * string)))
  : Row :=
  flat_map (fun e =>
              let pp := high_low_of (raw_get (fst e) fundament) in
              [(fst (snd e), of_opt_float (fst pp)); (snd (snd e), of_opt_float (snd pp))])
           fields.

(** The row the loop body builds, cell by cell. *)
Definition record_of (ticker : string) (fundament : RawQuote) : Row :=
  ([ ("ticker", VStr (Str.upper ticker));
     ("sector", of_opt_str (raw_get "Sector" fundament));
     ("industry", of_opt_str (raw_get "Industry" fundament));
     ("country", of_opt_str (raw_get "Country" fundament)) ]
   ++ common_cells fundament COMMON_FIELD_MAP
   ++ high_low_cells fundament HIGH_LOW_FIELDS)%list.

End Rows.

(** ** What a run does *)

Section Runs.
Import Rows Frame.

Variable World : Type.
Variable ticker_fundament : string -> World -> result RawQuote * World.
Variable utc_now_isoformat : World -> string * World.

(** The calls of the quote source in a run, one per ticker in order, up to
    the first that raises. *)
Fixpoint fetch_all (tickers : list string) (w : World) : result (list RawQuote) * World :=
  match tickers with
  | [] => (Ok [], w)
  | ticker :: rest =>
      match ticker_fundament ticker w with
      | (Raise e, w1) => (Raise e, w1)
      | (Ok fundament, w1) =>
          match fetch_all rest w1 with
          | (Ok quotes, w2) => (Ok (fundament :: quotes), w2)
          | (Raise e, w2) => (Raise e, w2)
          end
      end
  end.

(** The rows of a run, from the tickers and the quotes fetched for them. *)
Definition records_of (tickers : list string) (quotes : list RawQuote) : list Row :=
  map (fun tq => record_of (fst tq) (snd tq)) (combine tickers quotes).

(** The frame of a run with at least one ticker. *)
Definition snapshot_of (stamp : string) (tickers : list string) (quotes : list RawQuote)
  : DataFrame :=
  mk (insert_at 1 "snapshot_utc" ROW_COLUMNS)
     (map (fun r => insert_at 1 (VStr stamp) (map snd r)) (records_of tickers quotes)).

(** The same collaborators, with a count of the readings of the clock. *)
Definition counted_fundament (ticker : string) (w : World * nat)
  : result RawQuote * (World * nat) :=
  let (r, w') := ticker_fundament ticker (fst w) in (r, (w', snd w)).

Definition counted_now (w : World * nat) : string * (World * nat) :=
  let (stamp, w') := utc_now_isoformat (fst w) in (stamp, (w', S (snd w))).

Definition counted_collect : list string -> World * nat -> result DataFrame * (World * nat) :=
  collect_quote_features (World * nat) counted_fundament counted_now.

End Runs.

(** ** Texts *)

Module Text.

(** Only white space. *)
Fixpoint all_space (s : string) : bool :=
  match s with
  | EmptyString => true
  | String c s' => Str.is_space c && all_space s'
  end.

(** Every character passes the test. *)
Fixpoint all_chars (p : ascii -> bool) (s : string) : bool :=
  match s with
  | EmptyString => true
  | String c s' => p c && all_chars p s'
  end.

(** The characters of the texts [float()] reads: digits, signs, the point,
    the exponent mark, the digit-group underscore, the letters of [inf],
    [infinity] and [nan] in either case, and white space. *)
Definition float_char (c : ascii) : bool :=
  (Float.is_digit c || Str.is_space c
   || existsb (Ascii.eqb c) (list_ascii_of_string "+-.eE_")
   || existsb (Ascii.eqb (Str.lower_char c)) (list_ascii_of_string "infatyn"))%bool.

(** The same and the comma, which [parse_float] removes. *)
Definition number_char (c : ascii) : bool := (float_char c || Ascii.eqb c ",")%bool.

(** Nothing but commas and white space: no ticker in it. *)
Definition blank_arg (arg : string) : bool :=
  all_chars (fun c => Ascii.eqb c "," || Str.is_space c)%bool arg.

(** No separator inside. *)
Definition sep_free (sep : ascii) (s : string) : bool :=
  all_chars (fun c => negb (Ascii.eqb c sep)) s.

(** [s.endswith(suffix)] *)
Fixpoint ends_with (suffix s : string) : bool :=
  String.eqb s suffix
  || match s with
     | EmptyString => false
     | String _ s' => ends_with suffix s'
     end.

End Text.

(** * The dashboard: [dashboard/app.py]

    The functions that load what the dashboard shows: [ensure_qlib_ready],
    [list_experiments], [list_runs], [get_run_artifact_path] and
    [load_pickle]. The import system, the MLflow store, the file system and
    the unpickler are collaborators, threaded through a state; the page is
    the list of the warnings written to it. *)

Module Dashboard.

(** A raised exception, with what [str(err)] prints: an instance of
    [Exception], which [except Exception] catches, or one of the other
    [BaseException]s ([KeyboardInterrupt], [SystemExit]), which it lets
    through. *)
Inductive error : Type :=
| Exception (text : string)
| Exit (text : string).

Inductive outcome (A : Type) : Type :=
| Return (a : A)
| Throw (e : error).

Arguments Return {A} a.
Arguments Throw {A} e.

(** ** Paths, as [pathlib] has them on POSIX *)

(** The root ([""], ["/"] or ["//"]) and the components after it. *)
Record Path : Type := mkPath {
  root : string;
  parts : list string
}.

(** One leading slash or three and more are the root ["/"], exactly two are
    ["//"]. *)
Definition root_of (s : string) : string :=
  match s with
  | String c1 r1 =>
      if Ascii.eqb c1 "/" then
        match r1 with
        | String c2 r2 =>
            if Ascii.eqb c2 "/" then
              match r2 with
              | String c3 _ => if Ascii.eqb c3 "/" then "/" else "//"
              | EmptyString => "//"
              end
            else "/"
        | EmptyString => "/"
        end
      else ""
  | EmptyString => ""
  end.

(** A component is kept unless it is empty or a single dot. *)
Definition is_component (x : string) : bool :=
  Str.nonempty x && negb (String.eqb x ".").

(** One component and no more: kept, and with no slash inside. *)
Definition plain_name (s : string) : bool :=
  is_component s && Text.sep_free "/" s.

(** [Path(s)] *)
Definition parse (s : string) : Path :=
  mkPath (root_of s) (filter is_component (Str.split_on "/" s)).

(** [p / segment]: a segment with a root replaces [p]. *)
Definition joinpath (p : Path) (segment : string) : Path :=
  let q := parse segment in
  if Str.nonempty (root q) then q
  else mkPath (root p) (parts p ++ parts q).

(** [p.name]: the last component, or the empty string. *)
Definition name (p : Path) : string := last (parts p) "".

Definition get_run_artifact_path (tracking_dir : Path)
  (experiment_id run_id relative_path : string) : Path :=
  let run_dir := joinpath (joinpath (joinpath tracking_dir experiment_id) run_id) "artifacts" in
  joinpath run_dir relative_path.

(** ** The runs table *)

(** The values of a record of a run: [None], a string, the [Timestamp] of
    a number of milliseconds since the epoch, a float. *)
Inductive datum : Type :=
| CNone
| CStr (s : string)
| CTime (ms : Z)
| CFloat (f : Float.float).

Record RunInfo : Type := mkInfo {
  run_id : string;
  start_time : option Z;
  end_time : option Z;
  status : string
}.

Record Run : Type := mkRun {
  info : RunInfo;
  params : Dict.t string;
  metrics : Dict.t Float.float
}.

Record Experiment : Type := mkExperiment {
  exp_name : string;
  experiment_id : string
}.

(** Sequencing: an exception ends the computation. *)
Definition and_then {A B : Type} (c : outcome A) (k : A -> outcome B) : outcome B :=
  match c with
  | Return a => k a
  | Throw e => Throw e
  end.

(** What a computation returned, if it did. *)
Definition returned {A : Type} (c : outcome A) : option A :=
  match c with
  | Return a => Some a
  | Throw _ => None
  end.

(** Truthiness of an optional integer: [None] and [0] are false. *)
Definition truthy (t : option Z) : bool :=
  match t with
  | Some ms => negb (ms =? 0)
  | None => false
  end.

(** [d.update(other)], and the loop [for key, value in other.items():
    d[key] = value], with the values wrapped by [wrap]. *)
Definition update {A V : Type} (wrap : A -> V) (other : Dict.t A) (d : Dict.t V) : Dict.t V :=
  fold_left (fun acc kv => Dict.set (fst kv) (wrap (snd kv)) acc) other d.

(** A table: the column labels and, per row, one datum per column. *)
Record Table : Type := mkTable {
  columns : list string;
  rows : list (list datum)
}.

(** [pd.DataFrame()] *)
Definition empty_table : Table := mkTable [] [].

(** [pd.DataFrame(records)]: the labels in the order of their first
    appearance, and NaN where a record lacks a label. The cells are the
    values of the records as they are handed over, before pandas chooses a
    dtype for each column. *)
Definition table_of_records (records : list (Dict.t datum)) : Table :=
  let cols :=
    fold_left (fun seen r => fold_left Frame.add_key (Dict.keys r) seen) records [] in
  mkTable cols
    (map (fun r => map (fun c => match Dict.get c r with
                                 | Some v => v
                                 | None => CFloat S754_nan
                                 end) cols) records).

(** [df.empty] *)
Definition table_empty (t : Table) : bool :=
  match columns t, rows t with
  | [], _ => true
  | _, [] => true
  | _, _ => false
  end.

(** [{exp.name: exp.experiment_id for exp in experiments}] *)
Definition experiments_dict (experiments : list Experiment) : Dict.t string :=
  fold_left (fun d e => Dict.set (exp_name e) (experiment_id e) d) experiments [].

(** ** The state of the app *)

(** The module global [_QLIB_READY], the warnings written to the page, and
    the two [st.cache_data] stores. The arguments named with a leading
    underscore are no part of a cache key: [list_experiments] has one entry,
    [list_runs] one per experiment id. *)
Record App : Type := mkApp {
  QLIB_READY : option bool;
  warnings : list string;
  experiments_cache : option (Dict.t string);
  runs_cache : Dict.t Table
}.

(** [st.warning(message)] *)
Definition st_warning (message : string) (app : App) : App :=
  mkApp (QLIB_READY app) (warnings app ++ [message]) (experiments_cache app) (runs_cache app).

Definition set_QLIB_READY (b : bool) (app : App) : App :=
  mkApp (Some b) (warnings app) (experiments_cache app) (runs_cache app).

Section Collaborators.

(** The world outside the app: modules, files, the tracking store. *)
Variable World : Type.
(** A module object, an unpickled object, an MLflow client. *)
Variable Module : Type.
Variable Obj : Type.
Variable Client : Type.

(** [importlib.import_module(name)] *)
Variable import_module : string -> World -> outcome Module * World.
(** [hasattr(module, attribute)] and [module.attribute = value], which do
    not raise on a module *)
Variable hasattr : Module -> string -> World -> bool.
Variable setattr : Module -> string -> string -> World -> World.
(** [path.exists()] *)
Variable path_exists : Path -> World -> bool.
(** [with path.open("rb") as fp: pickle.load(fp)]; the object may be
    [None]. *)
Variable unpickle : Path -> World -> outcome (option Obj) * World.
(** [client.search_experiments()] and [client.search_runs(experiment_ids=
    [experiment_id], order_by=["attributes.start_time DESC"])] *)
Variable search_experiments : Client -> World -> outcome (list Experiment) * World.
Variable search_runs : Client -> string -> World -> outcome (list Run) * World.
(** [pd.to_datetime(t, unit="ms")] for an integer [t]: a [Timestamp], or
    an exception for a time out of its range. *)
Variable to_datetime_ms : Z -> outcome datum.

(** The truth value of [_QLIB_READY]: [None] and [False] are false. *)
Definition ready (app : App) : bool :=
  match QLIB_READY app with
  | Some true => true
  | _ => false
  end.

Definition ensure_qlib_ready (app : App) (w : World) : outcome bool * App * World :=
  if ready app then (Return true, app, w)
  else
    match import_module "qlib" w with
    | (Return qlib_module, w1) =>
        let w2 :=
          if negb (hasattr qlib_module "__version__" w1)
          then setattr qlib_module "__version__" "0.0" w1
          else w1 in
        (Return true, set_QLIB_READY true app, w2)
    | (Throw (Exception err), w1) =>
        let app := st_warning ("Unable to import qlib for artifact deserialization: " ++ err)
                              app in
        (Return false, set_QLIB_READY false app, w1)
    | (Throw (Exit err), w1) => (Throw (Exit err), app, w1)
    end.

Definition load_pickle (path : Path) (require_qlib : bool) (app : App) (w : World)
  : outcome (option Obj) * App * World :=
  if negb (path_exists path w) then (Return None, app, w)
  else
    let gate :=
      if require_qlib then
        match ensure_qlib_ready app w with
        | (Return b, app1, w1) => (Return (negb b), app1, w1)
        | (Throw e, app1, w1) => (Throw e, app1, w1)
        end
      else (Return false, app, w) in
    match gate with
    | (Throw e, app1, w1) => (Throw e, app1, w1)
    | (Return true, app1, w1) => (Return None, app1, w1)
    | (Return false, app1, w1) =>
        match unpickle path w1 with
        | (Return obj, w2) => (Return obj, app1, w2)
        | (Throw (Exception err), w2) =>
            (Return None,
             st_warning ("Failed to load " ++ name path ++ ": " ++ err) app1, w2)
        | (Throw (Exit err), w2) => (Throw (Exit err), app1, w2)
        end
    end.

(** What [render_run_details] has loaded when it goes on to draw. *)
Record Loaded : Type := mkLoaded {
  report : Obj;
  summary : option Obj;
  indicators : option Obj
}.

(** [render_run_details] up to its first [return]: the three artifacts are
    loaded, and only then is the report looked at. [None] is the early
    return, after its warning; otherwise the function goes on to draw what
    it has loaded. *)
Definition render_run_details_loads (tracking_dir : Path) (experiment_id run_id : string)
  (app : App) (w : World) : outcome (option Loaded) * App * World :=
  let report_path :=
    get_run_artifact_path tracking_dir experiment_id run_id
      "portfolio_analysis/report_normal_1day.pkl" in
  let summary_path :=
    get_run_artifact_path tracking_dir experiment_id run_id
      "portfolio_analysis/port_analysis_1day.pkl" in
  let indicator_path :=
    get_run_artifact_path tracking_dir experiment_id run_id
      "portfolio_analysis/indicators_normal_1day_obj.pkl" in
  match load_pickle report_path false app w with
  | (Throw e, app1, w1) => (Throw e, app1, w1)
  | (Return report_df, app1, w1) =>
      match load_pickle summary_path false app1 w1 with
      | (Throw e, app2, w2) => (Throw e, app2, w2)
      | (Return summary_df, app2, w2) =>
          match load_pickle indicator_path true app2 w2 with
          | (Throw e, app3, w3) => (Throw e, app3, w3)
          | (Return indicator_obj, app3, w3) =>
              match report_df with
              | None =>
                  (Return None,
                   st_warning "report_normal_1day.pkl not found for this run." app3, w3)
              | Some df =>
                  (Return (Some (mkLoaded df summary_df indicator_obj)), app3, w3)
              end
          end
      end
  end.

(** [list_experiments], with its [st.cache_data]: a stored result is
    returned as it is; a computed one is stored, a raised exception is not. *)
Definition list_experiments (client : Client) (app : App) (w : World)
  : outcome (Dict.t string) * App * World :=
  match experiments_cache app with
  | Some d => (Return d, app, w)
  | None =>
      match search_experiments client w with
      | (Return experiments, w1) =>
          let d := experiments_dict experiments in
          (Return d,
           mkApp (QLIB_READY app) (warnings app) (Some d) (runs_cache app), w1)
      | (Throw e, w1) => (Throw e, app, w1)
      end
  end.

(** [pd.to_datetime(t, unit="ms")]: [None] is returned as it is. *)
Definition to_datetime (t : option Z) : outcome datum :=
  match t with
  | Some ms => to_datetime_ms ms
  | None => Return CNone
  end.

(** The record of one run: the body of the loop of [list_runs]. The values
    of the dict display are evaluated from left to right. *)
Definition run_record (run : Run) : outcome (Dict.t datum) :=
  and_then (to_datetime (start_time (info run))) (fun started =>
  and_then (if truthy (end_time (info run))
            then to_datetime (end_time (info run)) else Return CNone) (fun ended =>
  let data : Dict.t datum :=
    [ ("run_id", CStr (run_id (info run)));
      ("start_time", started);
      ("end_time", ended);
      ("status", CStr (status (info run))) ] in
  let data := update CStr (params run) data in
  Return (update CFloat (metrics run) data))).

(** The loop of [list_runs]. *)
Fixpoint run_records (runs : list Run) : outcome (list (Dict.t datum)) :=
  match runs with
  | [] => Return []
  | run :: rest =>
      and_then (run_record run) (fun data =>
      and_then (run_records rest) (fun records =>
      Return (data :: records)))
  end.

(** The body of [list_runs] after the search. *)
Definition runs_table (runs : list Run) : outcome Table :=
  match runs with
  | [] => Return empty_table
  | _ => and_then (run_records runs) (fun records => Return (table_of_records records))
  end.

(** [list_runs], with its [st.cache_data], keyed by the experiment id. *)
Definition list_runs (client : Client) (experiment : string) (app : App) (w : World)
  : outcome Table * App * World :=
  match Dict.get experiment (runs_cache app) with
  | Some t => (Return t, app, w)
  | None =>
      match search_runs client experiment w with
      | (Return runs, w1) =>
          match runs_table runs with
          | Return t =>
              (Return t,
               mkApp (QLIB_READY app) (warnings app) (experiments_cache app)
                     (Dict.set experiment t (runs_cache app)), w1)
          | Throw e => (Throw e, app, w1)
          end
      | (Throw e, w1) => (Throw e, app, w1)
      end
  end.

End Collaborators.

End Dashboard.

(** A world for running the dashboard's loaders: the import of qlib fails
    the first time and works from then on; the module gets its version
    when it is set; of the artifacts of a run only the report exists. *)
Module DashDemo.
Import Dashboard.

Definition Host : Type := nat.

Definition import_module (name : string) (w : Host) : outcome unit * Host :=
  match w with
  | O => (Throw (Exception "No module named 'qlib'"), 1%nat)
  | _ => (Return tt, w)
  end.

Definition hasattr (m : unit) (attribute : string) (w : Host) : bool := (2 <=? w)%nat.

Definition setattr (m : unit) (attribute value : string) (w : Host) : Host := 2%nat.

Definition path_exists (p : Path) (w : Host) : bool :=
  String.eqb (name p) "report_normal_1day.pkl".

Definition unpickle (p : Path) (w : Host) : outcome (option string) * Host :=
  (Return (Some "report"), w).

(** An unpickler for which every file is damaged. *)
Definition unpickle_damaged (p : Path) (w : Host) : outcome (option string) * Host :=
  (Throw (Exception "pickle data was truncated"), w).

Definition fresh : App := mkApp None [] None [].

Definition experiments : list Experiment :=
  [ mkExperiment "Default" "0"; mkExperiment "alpha" "1"; mkExperiment "Default" "2" ].

Definition search_experiments (c : unit) (w : Host) : outcome (list Experiment) * Host :=
  (Return experiments, w).

Definition run1 : Run :=
  mkRun (mkInfo "abc" (Some 1700000000000) None "RUNNING")
        [("lr", "0.1"); ("status", "custom")] [("ic", S754_zero false)].

(** A run whose start time no [Timestamp] can hold. *)
Definition run2 : Run :=
  mkRun (mkInfo "def" (Some 99999999999999999) None "FAILED") [] [].

Definition search_runs (c : unit) (e : string) (w : Host) : outcome (list Run) * Host :=
  (Return (if String.eqb e "1" then [run1] else []), w).

(** Timestamps reach some 292 years to either side of the epoch. *)
Definition to_datetime_ms (ms : Z) : outcome datum :=
  if Z.abs ms <=? 9223372036854 then Return (CTime ms)
  else Throw (Exception "Out of bounds nanosecond timestamp").

End DashDemo.

(** * Properties *)

(** ** Strings *)

Module StrFacts.
Import Str.

Lemma lstrip_id s : starts_nonspace s = true -> lstrip s = s.
Proof.
  destruct s as [|c s]; simpl; [reflexivity|].
  now destruct (is_space c).
Qed.

Lemma lstrip_starts s : starts_nonspace (lstrip s) = true.
Proof.
  induction s as [|c s IH]; simpl; [reflexivity|].
  destruct (is_space c) eqn:E; [exact IH|]. simpl. now rewrite E.
Qed.

Lemma rstrip_id s : ends_nonspace s = true -> rstrip s = s.
Proof.
  induction s as [|c s IH]; simpl; [reflexivity|].
  destruct s as [|d s].
  - simpl. destruct (is_space c); [discriminate|reflexivity].
  - intros H. rewrite (IH H). reflexivity.
Qed.

Lemma rstrip_ends s : ends_nonspace (rstrip s) = true.
Proof.
  induction s as [|c s IH]; simpl; [reflexivity|].
  destruct (rstrip s) as [|d r] eqn:E.
  - destruct (is_space c) eqn:Ec; simpl; [reflexivity|now rewrite Ec].
  - exact IH.
Qed.

Lemma rstrip_starts s : starts_nonspace s = true -> starts_nonspace (rstrip s) = true.
Proof.
  destruct s as [|c s]; simpl; [reflexivity|].
  intros H. destruct (rstrip s); [|exact H].
  destruct (is_space c) eqn:E; [discriminate|]. simpl. now rewrite E.
Qed.

Lemma strip_trimmed s : trimmed (strip s) = true.
Proof.
  unfold trimmed, strip.
  rewrite rstrip_starts by apply lstrip_starts.
  now rewrite rstrip_ends.
Qed.

Lemma strip_id s : trimmed s = true -> strip s = s.
Proof.
  unfold trimmed, strip. intros H. apply andb_prop in H as [H1 H2].
  rewrite (lstrip_id _ H1). now apply rstrip_id.
Qed.

Lemma strip_idem s : strip (strip s) = strip s.
Proof. apply strip_id, strip_trimmed. Qed.

Lemma no_space_ends s : no_space s = true -> ends_nonspace s = true.
Proof.
  induction s as [|c s IH]; simpl; [reflexivity|].
  intros H. apply andb_prop in H as [H1 H2].
  destruct s; [exact H1|now apply IH].
Qed.

Lemma no_space_trimmed s : no_space s = true -> trimmed s = true.
Proof.
  intros H. unfold trimmed. rewrite (no_space_ends _ H), andb_true_r.
  destruct s; simpl in *; [reflexivity|]. now apply andb_prop in H as [H _].
Qed.

Lemma ends_nonspace_app s t :
  nonempty t = true -> ends_nonspace (s ++ t) = ends_nonspace t.
Proof.
  intros Ht. induction s as [|c s IH]; simpl; [reflexivity|].
  destruct (s ++ t) eqn:E; [|exact IH].
  destruct s, t; simpl in *; discriminate.
Qed.

Lemma starts_nonspace_app s t :
  nonempty s = true -> starts_nonspace (s ++ t) = starts_nonspace s.
Proof. destruct s; simpl; [discriminate|reflexivity]. Qed.

Lemma endswith_app_char c s : endswith_char c (s ++ String c "") = true.
Proof.
  induction s as [|d s IH]; simpl; [apply Ascii.eqb_refl|].
  destruct (s ++ String c "") eqn:E; [destruct s; discriminate|exact IH].
Qed.

Lemma drop_last_app_char c s : drop_last (s ++ String c "") = s.
Proof.
  induction s as [|d s IH]; simpl; [reflexivity|].
  destruct (s ++ String c "") eqn:E; [destruct s; discriminate|].
  now rewrite IH.
Qed.

Lemma endswith_last c s :
  endswith_char c s = true -> s = drop_last s ++ String c "".
Proof.
  induction s as [|d s IH]; simpl; [discriminate|].
  destruct s as [|d' s].
  - intros H. apply Ascii.eqb_eq in H. now subst.
  - intros H. simpl. f_equal. now apply IH.
Qed.

Lemma remove_char_app c s t :
  remove_char c (s ++ t) = remove_char c s ++ remove_char c t.
Proof.
  induction s as [|d s IH]; simpl; [reflexivity|].
  destruct (Ascii.eqb d c); simpl; now rewrite IH.
Qed.

Lemma upper_char_idem c : upper_char (upper_char c) = upper_char c.
Proof. destruct c as [[] [] [] [] [] [] [] []]; reflexivity. Qed.

Lemma is_space_upper_char c : is_space (upper_char c) = is_space c.
Proof. destruct c as [[] [] [] [] [] [] [] []]; reflexivity. Qed.

Lemma upper_idem s : upper (upper s) = upper s.
Proof.
  induction s as [|c s IH]; simpl; [reflexivity|].
  now rewrite upper_char_idem, IH.
Qed.

Lemma upper_starts s : starts_nonspace (upper s) = starts_nonspace s.
Proof. destruct s; simpl; [reflexivity|]. now rewrite is_space_upper_char. Qed.

Lemma upper_ends s : ends_nonspace (upper s) = ends_nonspace s.
Proof.
  induction s as [|c s IH]; simpl; [reflexivity|].
  destruct s as [|d s]; simpl in *.
  - now rewrite is_space_upper_char.
  - exact IH.
Qed.

Lemma upper_trimmed s : trimmed (upper s) = trimmed s.
Proof. unfold trimmed. now rewrite upper_starts, upper_ends. Qed.

Lemma upper_nonempty s : nonempty (upper s) = nonempty s.
Proof. now destruct s. Qed.

End StrFacts.

(** ** [str.split()] *)

Module SplitFacts.
Import Str StrFacts.

Lemma string_of_snoc l c t :
  string_of_list_ascii (l ++ [c]) ++ t = string_of_list_ascii l ++ String c t.
Proof. induction l as [|d l IH]; simpl; [reflexivity|]. now rewrite IH. Qed.

Lemma append_empty_r s : s ++ "" = s.
Proof. induction s as [|c s IH]; simpl; [reflexivity|]. now rewrite IH. Qed.

Lemma append_assoc (s t u : string) : (s ++ t) ++ u = s ++ (t ++ u).
Proof. induction s as [|c s IH]; simpl; [reflexivity|]. now rewrite IH. Qed.

Lemma no_space_string_of l : no_space (string_of_list_ascii l) = no_space_list l.
Proof. induction l as [|c l IH]; simpl; [reflexivity|]. now rewrite IH. Qed.

Lemma no_space_app s t : no_space (s ++ t) = no_space s && no_space t.
Proof.
  induction s as [|c s IH]; simpl; [reflexivity|].
  now rewrite IH, andb_assoc.
Qed.

Lemma no_space_list_rev l : no_space_list (rev l) = no_space_list l.
Proof.
  unfold no_space_list. induction l as [|c l IH]; simpl; [reflexivity|].
  rewrite forallb_app, IH. simpl. rewrite andb_true_r. apply andb_comm.
Qed.

(** A run with no white space is one piece. *)
Lemma split_ws_aux_run cur t :
  no_space t = true ->
  split_ws_aux cur t =
    match cur, t with
    | [], EmptyString => []
    | _, _ => [string_of_list_ascii (rev cur) ++ t]
    end.
Proof.
  revert cur. induction t as [|c t IH]; intros cur H; simpl.
  - destruct cur; [reflexivity|]. now rewrite append_empty_r.
  - simpl in H. apply andb_prop in H as [Hc Ht].
    apply negb_true_iff in Hc. rewrite Hc.
    rewrite (IH (c :: cur) Ht). simpl. rewrite string_of_snoc.
    destruct cur; reflexivity.
Qed.

(** A run, then a white-space character: the run is cut there. *)
Lemma split_ws_aux_cut cur t c s :
  no_space t = true -> is_space c = true ->
  split_ws_aux cur (t ++ String c s) =
    match cur, t with
    | [], EmptyString => split_ws_aux [] s
    | _, _ => (string_of_list_ascii (rev cur) ++ t) :: split_ws_aux [] s
    end.
Proof.
  revert cur. induction t as [|d t IH]; intros cur H Hc; simpl.
  - rewrite Hc. destruct cur; [reflexivity|]. now rewrite append_empty_r.
  - simpl in H. apply andb_prop in H as [Hd Ht].
    apply negb_true_iff in Hd. rewrite Hd.
    rewrite (IH (d :: cur) Ht Hc). simpl. rewrite string_of_snoc.
    destruct cur; reflexivity.
Qed.

Lemma split_ws_aux_tokens cur s :
  no_space_list cur = true ->
  Forall (fun t => token t = true) (split_ws_aux cur s).
Proof.
  assert (Hrun : forall l, l <> [] -> no_space_list l = true ->
                           token (string_of_list_ascii (rev l)) = true).
  { intros l Hl Hn. unfold token.
    rewrite no_space_string_of, no_space_list_rev, Hn, andb_true_r.
    destruct l as [|a l]; [congruence|]. simpl.
    destruct (rev l); reflexivity. }
  revert cur. induction s as [|c s IH]; intros cur H; simpl.
  - destruct cur as [|a cur]; [constructor|].
    constructor; [|constructor]. now apply Hrun.
  - destruct (is_space c) eqn:Ec.
    + destruct cur as [|a cur]; [now apply IH|].
      constructor; [now apply Hrun|now apply IH].
    + apply IH. simpl. now rewrite Ec.
Qed.

Lemma split_ws_tokens s : Forall (fun t => token t = true) (split_ws s).
Proof. now apply split_ws_aux_tokens. Qed.

Lemma split_ws_aux_nonempty cur s : cur <> [] -> split_ws_aux cur s <> [].
Proof.
  revert cur. induction s as [|c s IH]; intros cur H; simpl.
  - destruct cur; [congruence|discriminate].
  - destruct (is_space c).
    + destruct cur; [congruence|discriminate].
    + apply IH. discriminate.
Qed.

(** Trimmed text that is not empty has a first piece. *)
Lemma split_ws_nonempty s :
  starts_nonspace s = true -> nonempty s = true -> split_ws s <> [].
Proof.
  destruct s as [|c s]; simpl; [discriminate|].
  intros H _. apply negb_true_iff in H. unfold split_ws. simpl. rewrite H.
  apply split_ws_aux_nonempty. discriminate.
Qed.

(** Two pieces joined by one space split back into the two. *)
Lemma split_ws_pair t0 t1 :
  token t0 = true -> token t1 = true ->
  split_ws (t0 ++ String " " t1) = [t0; t1].
Proof.
  unfold token. intros H0 H1.
  apply andb_prop in H0 as [N0 S0]. apply andb_prop in H1 as [N1 S1].
  unfold split_ws. rewrite split_ws_aux_cut by (assumption || reflexivity).
  rewrite (split_ws_aux_run [] t1 S1).
  destruct t0; [discriminate|]. destruct t1; [discriminate|]. reflexivity.
Qed.

End SplitFacts.

(** ** Floats: rounding, printing and reading back *)

Module FloatFacts.
Import Float.

(** The model on the literals of the specification and on the edges of the
    binary64 range. *)
Example of_string_examples :
  of_string "1234.5" = Ok (S754_finite false 5429388417957888 (-42))
  /\ of_string " -3.2 " = Ok (S754_finite true 7205759403792794 (-51))
  /\ of_string "1_000.5" = Ok (S754_finite false 8800491068719104 (-43))
  /\ of_string "1__0" = Raise ValueError
  /\ of_string "1e" = Raise ValueError
  /\ of_string "" = Raise ValueError
  /\ of_string "-" = Raise ValueError
  /\ of_string "NAN" = Ok S754_nan
  /\ of_string "-Infinity" = Ok (S754_infinity true)
  /\ of_string "-0" = Ok (S754_zero true)
  /\ of_string "5e-324" = Ok (S754_finite false 1 (-1074))
  /\ of_string "2.4703282292062327e-324" = Ok (S754_zero false)
  /\ of_string "2.4703282292062328e-324" = Ok (S754_finite false 1 (-1074))
  /\ of_string "1.7976931348623157e308" = Ok (S754_finite false 9007199254740991 971)
  /\ of_string "1.797693134862315807e308" = Ok (S754_finite false 9007199254740991 971)
  /\ of_string "1.797693134862315808e308" = Ok (S754_infinity false)
  /\ of_string "1e400" = Ok (S754_infinity false).
Proof. repeat split; vm_compute; reflexivity. Qed.

(** Rounding a quotient agrees with the division of the standard library's
    specification of binary64. *)
Example round_Q_agrees_with_SFdiv :
  round_Q false (1 # 10)
  = SFdiv 53 1024 (binary_normalize 53 1024 1 0 false) (binary_normalize 53 1024 10 0 false)
  /\ round_Q true (2 # 3)
     = SFdiv 53 1024 (binary_normalize 53 1024 (-2) 0 false) (binary_normalize 53 1024 3 0 false)
  /\ round_Q false (inject_Z (2 ^ 53 + 1)) = binary_normalize 53 1024 (2 ^ 53 + 1) 0 false
  /\ round_Q false (inject_Z (2 ^ 53 + 3)) = binary_normalize 53 1024 (2 ^ 53 + 3) 0 false.
Proof. repeat split; vm_compute; reflexivity. Qed.

Example to_string_examples :
  map (fun t => match of_string t with Ok x => to_string x | Raise _ => "" end)
      ["1234.5"; "-3.2"; "0.1"; "1e16"; "1e15"; "1.5e16"; "0.0001"; "0.00001";
       "5e-324"; "1.7976931348623157e308"; "9007199254740993";
       "0.30000000000000004"; "123456789012345678"; "1e22"; "1e23"; "100"; "-0";
       "inf"; "-INFINITY"; "nan"; "1e400"; "-5.10"; "0.99999999999999994"]
  = ["1234.5"; "-3.2"; "0.1"; "1e+16"; "1000000000000000.0"; "1.5e+16"; "0.0001";
     "1e-05"; "5e-324"; "1.7976931348623157e+308"; "9007199254740992.0";
     "0.30000000000000004"; "1.2345678901234568e+17"; "1e+22"; "1e+23"; "100.0";
     "-0.0"; "inf"; "-inf"; "nan"; "inf"; "-5.1"; "0.9999999999999999"]%string.
Proof. vm_compute. reflexivity. Qed.

Local Open Scope Q_scope.

Lemma pow2_pos k : 0 < pow2 k.
Proof. unfold pow2. apply Qpower_0_lt. reflexivity. Qed.

Lemma pow2_add a b : pow2 (a + b) == pow2 a * pow2 b.
Proof. unfold pow2. apply Qpower_plus. discriminate. Qed.

Lemma pow2_succ a : pow2 (a + 1) == 2 * pow2 a.
Proof. rewrite pow2_add. unfold pow2 at 2. simpl. ring. Qed.

Lemma pow2_Z k : (0 <= k)%Z -> pow2 k == inject_Z (2 ^ k).
Proof. intros H. unfold pow2. now rewrite Zpower_Qpower. Qed.

Lemma pow2_lt a b : (a < b)%Z -> pow2 a < pow2 b.
Proof. intros H. apply Qpower_lt_compat_l; [exact H|reflexivity]. Qed.

Lemma pow2_le a b : (a <= b)%Z -> pow2 a <= pow2 b.
Proof. intros H. apply Qpower_le_compat_l; [exact H|discriminate]. Qed.

Lemma Qmake_mul a b : (a # b) * inject_Z (Zpos b) == inject_Z a.
Proof. unfold Qeq, Qmult, inject_Z. simpl. rewrite Pos.mul_1_r. ring. Qed.

(** The integer logarithm, on the rationals. *)
Lemma log2_bounds z : (0 < z)%Z ->
  pow2 (Z.log2 z) <= inject_Z z /\ inject_Z z < 2 * pow2 (Z.log2 z).
Proof.
  intros H. destruct (Z.log2_spec z H) as [H1 H2].
  pose proof (Z.log2_nonneg z) as Hn.
  rewrite <- pow2_succ. rewrite !pow2_Z by lia.
  rewrite <- Zle_Qle, <- Zlt_Qlt. split; [exact H1|]. exact H2.
Qed.

Lemma floor_log2_spec x : 0 < x ->
  pow2 (floor_log2 x) <= x /\ x < pow2 (floor_log2 x + 1).
Proof.
  intros Hx. unfold floor_log2.
  destruct x as [a b].
  assert (Ha : (0 < a)%Z) by (unfold Qlt in Hx; simpl in Hx; lia).
  cbn [Qnum Qden].
  set (la := Z.log2 a). set (lb := Z.log2 (Z.pos b)).
  pose proof (log2_bounds a Ha) as [A1 A2]. fold la in A1, A2.
  pose proof (log2_bounds (Z.pos b) eq_refl) as [B1 B2]. fold lb in B1, B2.
  pose proof (Qmake_mul a b) as E.
  pose proof (pow2_pos la) as P1. pose proof (pow2_pos lb) as P2.
  pose proof (pow2_pos (la - lb)) as P3.
  assert (E3 : pow2 (la - lb) * pow2 lb == pow2 la).
  { rewrite <- pow2_add. now replace (la - lb + lb)%Z with la by ring. }
  destruct (Qle_bool (pow2 (la - lb)) (a # b)) eqn:T.
  - apply Qle_bool_iff in T. split; [exact T|].
    rewrite pow2_succ. nra.
  - assert (T' : a # b < pow2 (la - lb)).
    { apply Qnot_le_lt. intros H. apply Qle_bool_iff in H. congruence. }
    replace (la - lb - 1 + 1)%Z with (la - lb)%Z by ring.
    split; [|exact T'].
    assert (E4 : 2 * pow2 (la - lb - 1) == pow2 (la - lb)).
    { rewrite <- pow2_succ. now replace (la - lb - 1 + 1)%Z with (la - lb)%Z by ring. }
    pose proof (pow2_pos (la - lb - 1)) as P4. nra.
Qed.

Lemma floor_log2_unique x L : pow2 L <= x -> x < pow2 (L + 1) -> floor_log2 x = L.
Proof.
  intros H1 H2.
  assert (Hx : 0 < x) by (pose proof (pow2_pos L); lra).
  destruct (floor_log2_spec x Hx) as [F1 F2].
  set (K := floor_log2 x) in *.
  assert (pow2 K < pow2 (L + 1)) as A by lra.
  assert (pow2 L < pow2 (K + 1)) as B by lra.
  apply Qpower_lt_compat_l_inv in A; [|reflexivity].
  apply Qpower_lt_compat_l_inv in B; [|reflexivity]. lia.
Qed.

Lemma round_half_even_Z y z : y == inject_Z z -> round_half_even y = z.
Proof.
  intros E. unfold round_half_even.
  assert (F : Qfloor y = z) by (rewrite E; apply Qfloor_Z).
  rewrite F.
  assert (C : (y - inject_Z z ?= 1 # 2) = Lt).
  { apply Qlt_alt. rewrite E. unfold Qminus. rewrite Qplus_opp_r. reflexivity. }
  now rewrite C.
Qed.

Lemma round_half_even_bounds y :
  (Qfloor y <= round_half_even y <= Qfloor y + 1)%Z.
Proof.
  unfold round_half_even.
  destruct (y - inject_Z (Qfloor y) ?= 1 # 2); [destruct (Z.even _)| |]; lia.
Qed.

Lemma round_half_even_between y lo hi :
  inject_Z lo <= y -> y < inject_Z hi -> (lo <= round_half_even y <= hi)%Z.
Proof.
  intros H1 H2. pose proof (round_half_even_bounds y) as [B1 B2].
  assert (lo <= Qfloor y)%Z.
  { rewrite <- (Qfloor_Z lo). now apply Qfloor_resp_le. }
  assert (Qfloor y < hi)%Z.
  { rewrite Zlt_Qlt. apply Qle_lt_trans with y; [apply Qfloor_le|exact H2]. }
  lia.
Qed.

Lemma canonical_iff m e :
  canonical m e = true <->
  ((2 ^ 52 <= Zpos m < 2 ^ 53 /\ -1074 <= e <= 971) \/ (Zpos m < 2 ^ 52 /\ e = -1074))%Z.
Proof.
  unfold canonical, emin_lsb, emax_lsb.
  rewrite orb_true_iff, !andb_true_iff, !Z.leb_le, !Z.ltb_lt, Z.eqb_eq. tauto.
Qed.

Lemma round_pos_valid s x : 0 < x -> valid (round_pos s x) = true.
Proof.
  intros Hx. unfold round_pos.
  destruct (floor_log2_spec x Hx) as [L1 L2].
  set (L := floor_log2 x) in *.
  set (e := Z.max emin_lsb (L - 52)).
  set (m := round_half_even (x * pow2 (- e))).
  assert (He : (emin_lsb <= e /\ L - 52 <= e)%Z) by (unfold e; lia).
  pose proof (pow2_pos (- e)) as Pe. pose proof (pow2_pos L) as PL.
  assert (E1 : pow2 L * pow2 (- e) == pow2 (L - e)).
  { rewrite <- pow2_add. now replace (L + - e)%Z with (L - e)%Z by ring. }
  assert (E2 : pow2 (L + 1) * pow2 (- e) == pow2 (L + 1 - e)).
  { rewrite <- pow2_add. now replace (L + 1 + - e)%Z with (L + 1 - e)%Z by ring. }
  assert (Y1 : pow2 (L - e) <= x * pow2 (- e)) by nra.
  assert (Y2 : x * pow2 (- e) < pow2 (L + 1 - e)) by nra.
  assert (H0 : inject_Z 0 <= x * pow2 (- e)).
  { change (inject_Z 0) with 0. pose proof (pow2_pos (L - e)). lra. }
  assert (M1 : (0 <= m <= 2 ^ 53)%Z).
  { apply round_half_even_between; [exact H0|].
    rewrite <- pow2_Z by lia.
    apply Qlt_le_trans with (1 := Y2). apply pow2_le. lia. }
  assert (M2 : (e = L - 52 -> 2 ^ 52 <= m)%Z).
  { intros Ee.
    assert (H52 : inject_Z (2 ^ 52) <= x * pow2 (- e)).
    { rewrite <- pow2_Z by lia. now replace 52%Z with (L - e)%Z by lia. }
    assert (H53 : x * pow2 (- e) < inject_Z (2 ^ 53)).
    { rewrite <- pow2_Z by lia. now replace 53%Z with (L + 1 - e)%Z by lia. }
    apply (round_half_even_between _ _ _ H52 H53). }
  assert (M3 : (L - 52 < e -> m <= 2 ^ 52)%Z).
  { intros Hs.
    assert (H52 : x * pow2 (- e) < inject_Z (2 ^ 52)).
    { rewrite <- pow2_Z by lia.
      apply Qlt_le_trans with (1 := Y2). apply pow2_le. lia. }
    apply (round_half_even_between _ _ _ H0 H52). }
  destruct (m =? 0)%Z eqn:Z0; [reflexivity|]. apply Z.eqb_neq in Z0.
  unfold emin_lsb, emax_lsb in *.
  destruct (m =? 2 ^ 53)%Z eqn:Z53.
  - apply Z.eqb_eq in Z53.
    destruct (971 <? e + 1)%Z eqn:Ov; [reflexivity|]. apply Z.ltb_ge in Ov.
    simpl. apply canonical_iff. left. simpl. lia.
  - apply Z.eqb_neq in Z53.
    destruct (971 <? e)%Z eqn:Ov; [reflexivity|]. apply Z.ltb_ge in Ov.
    simpl. apply canonical_iff. rewrite Z2Pos.id by lia.
    destruct (Z.eq_dec e (L - 52)) as [Ee|Ee].
    + left. specialize (M2 Ee). lia.
    + assert (Hs : (L - 52 < e)%Z) by lia. specialize (M3 Hs).
      destruct (Z.eq_dec m (2 ^ 52)); [left|right]; lia.
Qed.

(** Rounding leaves a binary64 value as it is. *)
Lemma round_pos_exact s m e x :
  canonical m e = true -> x == inject_Z (Zpos m) * pow2 e ->
  round_pos s x = S754_finite s m e.
Proof.
  intros C E. apply canonical_iff in C.
  destruct (log2_bounds (Zpos m) eq_refl) as [B1 B2].
  pose proof (pow2_pos e) as Pe. pose proof (pow2_pos (Z.log2 (Zpos m))) as Pm.
  assert (HL : floor_log2 x = (Z.log2 (Zpos m) + e)%Z).
  { apply floor_log2_unique.
    - rewrite E, pow2_add. nra.
    - rewrite E. replace (Z.log2 (Z.pos m) + e + 1)%Z with (Z.log2 (Z.pos m) + 1 + e)%Z by ring.
      rewrite pow2_add, pow2_succ. nra. }
  assert (He : Z.max emin_lsb (floor_log2 x - 52) = e).
  { rewrite HL. unfold emin_lsb. destruct C as [[C1 C2]|[C1 C2]].
    - assert (Z.log2 (Zpos m) = 52)%Z by (apply Z.log2_unique; lia). lia.
    - assert (Z.log2 (Zpos m) < 52)%Z by (apply Z.log2_lt_pow2; lia). lia. }
  unfold round_pos. rewrite He.
  assert (Hy : x * pow2 (- e) == inject_Z (Zpos m)).
  { rewrite E, <- Qmult_assoc, <- pow2_add, Z.add_opp_diag_r.
    unfold pow2. simpl. ring. }
  rewrite (round_half_even_Z _ _ Hy). simpl (Z.pos m =? 0)%Z. cbv iota.
  assert (Z53 : (Z.pos m =? 2 ^ 53)%Z = false) by (apply Z.eqb_neq; lia).
  rewrite Z53.
  assert (Ov : (emax_lsb <? e)%Z = false) by (apply Z.ltb_ge; unfold emax_lsb; lia).
  now rewrite Ov.
Qed.

Lemma round_Q_comp s x y : x == y -> round_Q s x = round_Q s y.
Proof. intros E. unfold round_Q. now rewrite (Qred_complete _ _ E). Qed.

Lemma round_Q_exact s m e x :
  canonical m e = true -> x == inject_Z (Zpos m) * pow2 e ->
  round_Q s x = S754_finite s m e.
Proof.
  intros C E. unfold round_Q.
  assert (Hr : Qred x == inject_Z (Zpos m) * pow2 e) by (now rewrite Qred_correct).
  assert (Hp : 0 < Qred x).
  { rewrite Hr. pose proof (pow2_pos e). assert (0 < inject_Z (Zpos m)) by reflexivity. nra. }
  assert (Hb : Qle_bool (Qred x) 0 = false).
  { destruct (Qle_bool (Qred x) 0) eqn:B; [|reflexivity].
    apply Qle_bool_iff in B. lra. }
  rewrite Hb. now apply round_pos_exact.
Qed.

Lemma round_Q_valid s x : valid (round_Q s x) = true.
Proof.
  unfold round_Q. destruct (Qle_bool (Qred x) 0) eqn:B; [reflexivity|].
  apply round_pos_valid. apply Qnot_le_lt. intros H. apply Qle_bool_iff in H. congruence.
Qed.

(** The sign is carried along. *)
Lemma round_Q_sign s x m e :
  round_Q false x = S754_finite false m e -> round_Q s x = S754_finite s m e.
Proof.
  unfold round_Q, round_pos.
  destruct (Qle_bool (Qred x) 0); [discriminate|].
  destruct (_ =? 0)%Z; [discriminate|].
  destruct (emax_lsb <? _)%Z; [discriminate|].
  intros [= <- <-]. reflexivity.
Qed.

Lemma round_Q_finite_pos s x m e : round_Q s x = S754_finite s m e -> 0 < x.
Proof.
  unfold round_Q. destruct (Qle_bool (Qred x) 0) eqn:B; [discriminate|].
  intros _. rewrite <- (Qred_correct x).
  apply Qnot_le_lt. intros H. apply Qle_bool_iff in H. congruence.
Qed.

(** *** Decimals *)

Lemma pow10_pos k : 0 < pow10 k.
Proof. unfold pow10. apply Qpower_0_lt. reflexivity. Qed.

Lemma pow10_add a b : pow10 (a + b) == pow10 a * pow10 b.
Proof. unfold pow10. apply Qpower_plus. discriminate. Qed.

Lemma pow10_succ a : pow10 (a + 1) == 10 * pow10 a.
Proof. rewrite pow10_add. unfold pow10 at 2. simpl. ring. Qed.

Lemma pow10_Z k : (0 <= k)%Z -> pow10 k == inject_Z (10 ^ k).
Proof. intros H. unfold pow10. now rewrite Zpower_Qpower. Qed.

Lemma pow10_opp k : pow10 (- k) == / pow10 k.
Proof. unfold pow10. apply Qpower_opp. Qed.

Lemma decimal_Q_pow10 m e : decimal_Q m e == inject_Z m * pow10 e.
Proof.
  unfold decimal_Q. destruct (0 <=? e)%Z eqn:E.
  - apply Z.leb_le in E. now rewrite inject_Z_mult, pow10_Z.
  - apply Z.leb_gt in E.
    assert (P : (0 < 10 ^ (- e))%Z) by (apply Z.pow_pos_nonneg; lia).
    rewrite Qmake_Qdiv, Z2Pos.id by exact P.
    unfold Qdiv. rewrite <- pow10_Z by lia.
    now rewrite <- pow10_opp, Z.opp_involutive.
Qed.

Lemma exact_decimal_value m e :
  decimal_Q (fst (exact_decimal m e)) (snd (exact_decimal m e))
  == inject_Z m * pow2 e.
Proof.
  rewrite decimal_Q_pow10. unfold exact_decimal.
  destruct (0 <=? e)%Z eqn:E; cbn [fst snd].
  - apply Z.leb_le in E. rewrite inject_Z_mult, <- pow2_Z by exact E.
    unfold pow10. simpl. ring.
  - apply Z.leb_gt in E. rewrite inject_Z_mult.
    assert (H5 : inject_Z (5 ^ (- e)) == (5 ^ (- e))%Q) by (apply Zpower_Qpower; lia).
    rewrite H5. unfold pow10, pow2.
    assert (H10 : (10 ^ e)%Q == (5 ^ e)%Q * (2 ^ e)%Q).
    { rewrite <- Qmult_power. reflexivity. }
    rewrite H10.
    assert (H1 : (5 ^ (- e))%Q * (5 ^ e)%Q == 1).
    { rewrite <- Qpower_plus by discriminate.
      now replace (- e + e)%Z with 0%Z by ring. }
    rewrite <- Qmult_assoc, (Qmult_assoc (5 ^ (- e))), H1. ring.
Qed.

Lemma drop_zeros_value fuel d p :
  decimal_Q (fst (drop_zeros fuel d p)) (snd (drop_zeros fuel d p)) == decimal_Q d p.
Proof.
  revert d p. induction fuel as [|fuel IH]; intros d p; simpl; [reflexivity|].
  destruct ((0 <? d)%Z && (d mod 10 =? 0)%Z)%bool eqn:E; [|reflexivity].
  apply andb_prop in E as [_ E]. apply Z.eqb_eq in E.
  rewrite IH, !decimal_Q_pow10, pow10_succ.
  assert (Hd : d = (10 * (d / 10))%Z).
  { pose proof (Z.div_mod d 10). lia. }
  rewrite Hd at 2. rewrite inject_Z_mult. change (inject_Z 10) with 10. ring.
Qed.

Lemma same_eq x y : same x y = true -> x = y.
Proof.
  destruct x as [s|s| |s m e], y as [s'|s'| |s' m' e']; simpl; try discriminate.
  - intros H. now apply Bool.eqb_prop in H as ->.
  - intros H. now apply Bool.eqb_prop in H as ->.
  - reflexivity.
  - intros H. apply andb_prop in H as [H He]. apply andb_prop in H as [Hs Hm].
    apply Bool.eqb_prop in Hs. apply Pos.eqb_eq in Hm. apply Z.eqb_eq in He.
    now subst.
Qed.

Lemma nearest_reading_reads target x k n d p :
  nearest_reading target x k n = Some (d, p) ->
  round_Q false (decimal_Q d p) = target.
Proof.
  unfold nearest_reading.
  set (y := x * pow10 (- (k - n))). set (lo := Qfloor y).
  destruct (same (round_Q false (decimal_Q lo (k - n))) target) eqn:A;
    destruct (same (round_Q false (decimal_Q (lo + 1) (k - n))) target) eqn:B;
    try discriminate.
  - apply same_eq in A, B.
    destruct (y - inject_Z lo ?= 1 # 2); [destruct (Z.even lo)| |];
      intros [= <- <-]; assumption.
  - intros [= <- <-]. now apply same_eq.
  - intros [= <- <-]. now apply same_eq.
Qed.

Lemma shortest_from_reads fuel target x k n d p :
  shortest_from fuel target x k n = Some (d, p) ->
  round_Q false (decimal_Q d p) = target.
Proof.
  revert n. induction fuel as [|fuel IH]; intros n; simpl; [discriminate|].
  destruct (nearest_reading target x k n) as [[d' p']|] eqn:E.
  - intros [= <- <-]. eapply nearest_reading_reads. exact E.
  - apply IH.
Qed.

(** The decimal [str] prints reads back as the float. *)
Lemma shortest_decimal_reads m e :
  canonical m e = true ->
  round_Q false (decimal_Q (fst (shortest_decimal m e)) (snd (shortest_decimal m e)))
  = S754_finite false m e.
Proof.
  intros C. unfold shortest_decimal.
  set (x := inject_Z (Z.pos m) * pow2 e).
  destruct (shortest_from 17 (S754_finite false m e) x (decimal_point x) 1)
    as [[d p]|] eqn:E.
  - rewrite (round_Q_comp _ _ _ (drop_zeros_value _ d p)).
    eapply shortest_from_reads. exact E.
  - destruct (exact_decimal (Z.pos m) e) as [d p] eqn:X.
    rewrite (round_Q_comp _ _ _ (drop_zeros_value _ d p)).
    apply round_Q_exact; [exact C|].
    pose proof (exact_decimal_value (Z.pos m) e) as V. now rewrite X in V.
Qed.

Lemma shortest_decimal_pos m e :
  canonical m e = true -> (0 < fst (shortest_decimal m e))%Z.
Proof.
  intros C. pose proof (shortest_decimal_reads m e C) as R.
  apply round_Q_finite_pos in R. rewrite decimal_Q_pow10 in R.
  pose proof (pow10_pos (snd (shortest_decimal m e))) as P.
  destruct (Z_lt_le_dec 0 (fst (shortest_decimal m e))) as [H|H]; [exact H|].
  exfalso. rewrite Zle_Qle in H. change (inject_Z 0) with 0 in H. nra.
Qed.

(** *** Digit strings *)

Local Open Scope Z_scope.

Lemma span_digits_app ds r :
  Forall (fun c => is_digit c = true) ds -> stops r = true ->
  span_digits (ds ++ r) = (ds, r).
Proof.
  intros F S. induction F as [|c ds Hc F IH]; cbn [span_digits app].
  - destruct r as [|c r]; [reflexivity|]. cbn [stops] in S.
    apply negb_true_iff in S. cbn [span_digits]. now rewrite S.
  - now rewrite Hc, IH.
Qed.

Lemma digits_val_fold a ds :
  fold_left (fun acc c => 10 * acc + digit_val c) ds a
  = a * 10 ^ Z.of_nat (List.length ds) + digits_val ds.
Proof.
  unfold digits_val. revert a. induction ds as [|c ds IH]; intros a.
  - simpl. lia.
  - cbn [fold_left List.length]. rewrite IH, (IH (10 * 0 + digit_val c)).
    rewrite Nat2Z.inj_succ, Z.pow_succ_r by lia. ring.
Qed.

Lemma digits_val_app l1 l2 :
  digits_val (l1 ++ l2) = digits_val l1 * 10 ^ Z.of_nat (List.length l2) + digits_val l2.
Proof. unfold digits_val at 1. rewrite fold_left_app. apply digits_val_fold. Qed.

Lemma digits_val_cons c l :
  digits_val (c :: l) = digit_val c * 10 ^ Z.of_nat (List.length l) + digits_val l.
Proof. change (c :: l) with ([c] ++ l)%list. rewrite digits_val_app. reflexivity. Qed.

Lemma digits_val_zeros n : digits_val (zeros n) = 0.
Proof.
  unfold zeros. induction (Z.to_nat n) as [|k IH]; [reflexivity|].
  cbn [repeat]. rewrite digits_val_cons, IH. reflexivity.
Qed.

Lemma zeros_length n : 0 <= n -> Z.of_nat (List.length (zeros n)) = n.
Proof. intros H. unfold zeros. rewrite repeat_length. lia. Qed.

Lemma zeros_digits n : Forall (fun c => is_digit c = true) (zeros n).
Proof. unfold zeros. induction (Z.to_nat n); simpl; constructor; auto. Qed.

Lemma digit_char_digit d : 0 <= d < 10 -> is_digit (digit_char d) = true.
Proof.
  intros H.
  assert (d = 0 \/ d = 1 \/ d = 2 \/ d = 3 \/ d = 4 \/ d = 5 \/ d = 6 \/ d = 7
          \/ d = 8 \/ d = 9) as C by lia.
  repeat (destruct C as [->|C]; [reflexivity|]). now subst.
Qed.

Lemma digit_char_val d : 0 <= d < 10 -> digit_val (digit_char d) = d.
Proof.
  intros H.
  assert (d = 0 \/ d = 1 \/ d = 2 \/ d = 3 \/ d = 4 \/ d = 5 \/ d = 6 \/ d = 7
          \/ d = 8 \/ d = 9) as C by lia.
  repeat (destruct C as [->|C]; [reflexivity|]). now subst.
Qed.

Lemma digits_fuel_digits fuel n acc :
  0 <= n -> Forall (fun c => is_digit c = true) acc ->
  Forall (fun c => is_digit c = true) (digits_fuel fuel n acc).
Proof.
  revert n acc. induction fuel as [|fuel IH]; intros n acc Hn F; simpl; [exact F|].
  assert (F' : Forall (fun c => is_digit c = true) (digit_char (n mod 10) :: acc)).
  { constructor; [|exact F]. apply digit_char_digit. apply Z.mod_pos_bound. lia. }
  destruct (n <? 10); [exact F'|]. apply IH; [|exact F'].
  apply Z.div_pos; lia.
Qed.

Lemma digits_fuel_val fuel n acc :
  0 <= n < 10 ^ Z.of_nat fuel ->
  digits_val (digits_fuel fuel n acc)
  = n * 10 ^ Z.of_nat (List.length acc) + digits_val acc.
Proof.
  revert n acc. induction fuel as [|fuel IH]; intros n acc Hn.
  - simpl in *. assert (n = 0) as -> by lia. reflexivity.
  - cbn [digits_fuel].
    assert (Hd : 0 <= n mod 10 < 10) by (apply Z.mod_pos_bound; lia).
    destruct (n <? 10) eqn:E.
    + apply Z.ltb_lt in E. rewrite digits_val_cons, digit_char_val by exact Hd.
      rewrite Z.mod_small by lia. reflexivity.
    + apply Z.ltb_ge in E. rewrite IH.
      * rewrite digits_val_cons, digit_char_val by exact Hd.
        cbn [List.length]. rewrite Nat2Z.inj_succ, Z.pow_succ_r by lia.
        pose proof (Z.div_mod n 10). nia.
      * rewrite Nat2Z.inj_succ, Z.pow_succ_r in Hn by lia.
        split; [apply Z.div_pos; lia|].
        apply Z.div_lt_upper_bound; lia.
Qed.

Lemma digits_fuel_nonempty fuel n acc : acc <> [] -> digits_fuel fuel n acc <> [].
Proof.
  revert n acc. induction fuel as [|fuel IH]; intros n acc H; simpl; [exact H|].
  destruct (n <? 10); [discriminate|]. apply IH. discriminate.
Qed.

Lemma digits_of_digits n : 0 <= n -> Forall (fun c => is_digit c = true) (digits_of n).
Proof. intros H. apply digits_fuel_digits; [exact H|constructor]. Qed.

Lemma digits_of_nonempty n : digits_of n <> [].
Proof.
  unfold digits_of. cbn [digits_fuel].
  destruct (n <? 10); [discriminate|]. apply digits_fuel_nonempty. discriminate.
Qed.

Lemma digits_of_val n : 0 <= n -> digits_val (digits_of n) = n.
Proof.
  intros H. unfold digits_of. rewrite digits_fuel_val.
  - simpl. unfold digits_val. simpl. lia.
  - split; [exact H|].
    destruct (Z.eq_dec n 0) as [->|Hn]; [reflexivity|].
    rewrite Nat2Z.inj_succ, Z2Nat.id by apply Z.log2_nonneg.
    destruct (Z.log2_spec n) as [_ L]; [lia|].
    apply Z.lt_le_trans with (1 := L).
    apply Z.pow_le_mono_l. lia.
Qed.

(** *** Reading what [str] prints *)

Lemma read_exponent_format x :
  read_exponent ("e"%char :: format_exponent x) = Some x.
Proof.
  unfold format_exponent.
  set (ds := if Z.abs x <? 10 then "0"%char :: digits_of (Z.abs x) else digits_of (Z.abs x)).
  assert (F : Forall (fun c => is_digit c = true) ds).
  { unfold ds. destruct (Z.abs x <? 10); [constructor; [reflexivity|]|];
      apply digits_of_digits; lia. }
  assert (V : digits_val ds = Z.abs x).
  { unfold ds. destruct (Z.abs x <? 10).
    - rewrite digits_val_cons, digits_of_val by lia. reflexivity.
    - apply digits_of_val. lia. }
  assert (N : ds <> []).
  { unfold ds. destruct (Z.abs x <? 10); [discriminate|apply digits_of_nonempty]. }
  pose proof (span_digits_app ds [] F eq_refl) as S. rewrite app_nil_r in S.
  cbn [read_exponent]. cbn.
  destruct (x <? 0) eqn:E; cbn [read_sign]; rewrite S;
    (destruct ds as [|c ds']; [congruence|]); rewrite V; f_equal.
  - apply Z.ltb_lt in E. lia.
  - apply Z.ltb_ge in E. lia.
Qed.

(** Digits, a point, digits, and the exponent. *)
Lemma read_number_point ip fp ex x :
  Forall (fun c => is_digit c = true) ip -> Forall (fun c => is_digit c = true) fp ->
  (ip ++ fp)%list <> [] ->
  stops ex = true -> read_exponent ex = Some x ->
  read_number (ip ++ "."%char :: fp ++ ex)
  = Some (digits_val (ip ++ fp), x - Z.of_nat (List.length fp)).
Proof.
  intros Fi Ff N S E. unfold read_number.
  rewrite (span_digits_app ip ("."%char :: fp ++ ex) Fi eq_refl).
  rewrite (span_digits_app fp ex Ff S).
  destruct (ip ++ fp)%list as [|c l] eqn:D; [congruence|]. now rewrite E.
Qed.

(** Digits and the exponent, with no point. *)
Lemma read_number_whole ip x e :
  Forall (fun c => is_digit c = true) ip -> ip <> [] ->
  read_exponent ("e"%char :: e) = Some x ->
  read_number (ip ++ "e"%char :: e) = Some (digits_val ip, x).
Proof.
  intros Fi N E. unfold read_number.
  rewrite (span_digits_app ip ("e"%char :: e) Fi eq_refl), app_nil_r.
  destruct ip as [|c l]; [congruence|]. rewrite E. now rewrite Z.sub_0_r.
Qed.

Lemma Forall_firstn_skipn {A : Type} (P : A -> Prop) n l :
  Forall P l -> Forall P (firstn n l) /\ Forall P (skipn n l).
Proof. intros F. apply Forall_app. now rewrite firstn_skipn. Qed.

Lemma decimal_Q_shift d k :
  0 <= k -> (decimal_Q (d * 10 ^ (k + 1)) (0 - 1) == decimal_Q d k)%Q.
Proof.
  intros H. rewrite !decimal_Q_pow10, inject_Z_mult, <- pow10_Z by lia.
  rewrite <- Qmult_assoc, <- pow10_add.
  now replace (k + 1 + (0 - 1)) with k by ring.
Qed.

Lemma format_repr_reads ds decpt :
  Forall (fun c => is_digit c = true) ds -> ds <> [] ->
  exists c rest m e,
    format_repr ds decpt = c :: rest
    /\ is_digit c = true
    /\ read_number (c :: rest) = Some (m, e)
    /\ (decimal_Q m e == decimal_Q (digits_val ds) (decpt - Z.of_nat (List.length ds)))%Q.
Proof.
  intros F N. unfold format_repr.
  destruct ((decpt <=? -4) || (16 <? decpt))%bool.
  - (* exponent notation *)
    destruct ds as [|d [|d' rest]]; [congruence| |].
    + exists d, ("e"%char :: format_exponent (decpt - 1)), (digits_val [d]), (decpt - 1).
      inversion F; subst. split; [reflexivity|]. split; [assumption|]. split.
      * apply (read_number_whole [d]); [exact F|discriminate|apply read_exponent_format].
      * simpl List.length. now replace (decpt - Z.of_nat 1) with (decpt - 1) by lia.
    + inversion F as [|? ? Hd F']; subst.
      exists d, ("."%char :: d' :: rest ++ "e"%char :: format_exponent (decpt - 1))%list,
        (digits_val (d :: d' :: rest)),
        (decpt - 1 - Z.of_nat (List.length (d' :: rest))).
      split; [reflexivity|]. split; [exact Hd|]. split.
      * apply (read_number_point [d] (d' :: rest));
          [constructor; [exact Hd|constructor]|exact F'|discriminate|reflexivity
          |apply read_exponent_format].
      * cbn [List.length]. rewrite !Nat2Z.inj_succ.
        now replace (decpt - 1 - Z.succ (Z.of_nat (List.length rest)))
          with (decpt - Z.succ (Z.succ (Z.of_nat (List.length rest)))) by lia.
  - destruct (decpt <=? 0) eqn:E0.
    + (* 0.000ddd *)
      apply Z.leb_le in E0.
      exists "0"%char, ("."%char :: zeros (- decpt) ++ ds)%list,
        (digits_val ("0"%char :: zeros (- decpt) ++ ds)),
        (0 - Z.of_nat (List.length (zeros (- decpt) ++ ds)%list)).
      split; [reflexivity|]. split; [reflexivity|]. split.
      * pose proof (read_number_point ["0"%char] (zeros (- decpt) ++ ds) [] 0) as R.
        rewrite app_nil_r in R. apply R;
          [constructor; [reflexivity|constructor]
          |apply Forall_app; split; [apply zeros_digits|exact F]
          |discriminate|reflexivity|reflexivity].
      * rewrite digits_val_cons, digits_val_app, digits_val_zeros.
        rewrite length_app, Nat2Z.inj_add, zeros_length by lia.
        change (digit_val "0") with 0.
        now replace (0 - (- decpt + Z.of_nat (List.length ds)))
          with (decpt - Z.of_nat (List.length ds)) by lia.
    + apply Z.leb_gt in E0.
      destruct (Z.of_nat (List.length ds) <=? decpt) eqn:E1.
      * (* ddd000.0 *)
        apply Z.leb_le in E1.
        set (k := decpt - Z.of_nat (List.length ds)).
        destruct ds as [|d ds']; [congruence|].
        exists d, (ds' ++ zeros k ++ ["."%char; "0"%char])%list,
          (digits_val ((d :: ds') ++ zeros k ++ ["0"%char])), (0 - 1).
        inversion F; subst. split; [reflexivity|]. split; [assumption|]. split.
        -- pose proof (read_number_point ((d :: ds') ++ zeros k) ["0"%char] [] 0) as R.
           rewrite <- !app_assoc in R. cbn [app] in R. cbn [app]. apply R.
           ++ constructor; [assumption|].
              apply Forall_app. split; [assumption|apply zeros_digits].
           ++ constructor; [reflexivity|constructor].
           ++ discriminate.
           ++ reflexivity.
           ++ reflexivity.
        -- assert (V : digits_val ((d :: ds') ++ zeros k ++ ["0"%char])
                       = digits_val (d :: ds') * 10 ^ (k + 1)).
           { rewrite !digits_val_app, digits_val_zeros.
             rewrite length_app, Nat2Z.inj_add, zeros_length by (unfold k; lia).
             change (digits_val ["0"%char]) with 0.
             change (Z.of_nat (List.length ["0"%char])) with 1. ring. }
           rewrite V. apply decimal_Q_shift. unfold k. lia.
      * (* ddd.ddd *)
        apply Z.leb_gt in E1.
        set (k := Z.to_nat decpt).
        assert (Hk : (0 < k < List.length ds)%nat) by (unfold k; lia).
        destruct ds as [|d ds']; [congruence|].
        destruct k as [|k'] eqn:Ek; [lia|].
        exists d, (firstn k' ds' ++ "."%char :: skipn k' ds')%list,
          (digits_val (firstn (S k') (d :: ds') ++ skipn (S k') (d :: ds'))),
          (0 - Z.of_nat (List.length (skipn (S k') (d :: ds')))).
        inversion F; subst. split; [reflexivity|]. split; [assumption|]. split.
        -- pose proof (read_number_point (firstn (S k') (d :: ds'))
                         (skipn (S k') (d :: ds')) [] 0) as R.
           rewrite app_nil_r in R. cbn [firstn skipn app] in R. cbn [app].
           apply R.
           ++ change (d :: firstn k' ds') with (firstn (S k') (d :: ds')).
              now apply Forall_firstn_skipn.
           ++ change (skipn k' ds') with (skipn (S k') (d :: ds')).
              now apply Forall_firstn_skipn.
           ++ discriminate.
           ++ reflexivity.
           ++ reflexivity.
        -- rewrite firstn_skipn, length_skipn.
           replace (0 - Z.of_nat (List.length (d :: ds') - S k'))
             with (decpt - Z.of_nat (List.length (d :: ds'))) by lia.
           reflexivity.
Qed.

Lemma repr_char_plain c : repr_char c = true -> plain c = true.
Proof.
  destruct c as [[] [] [] [] [] [] [] []]; intros H;
    solve [discriminate H | reflexivity].
Qed.

Lemma digit_repr_char c : is_digit c = true -> repr_char c = true.
Proof. unfold repr_char. now intros ->. Qed.

Lemma digits_repr_chars ds :
  Forall (fun c => is_digit c = true) ds -> Forall (fun c => repr_char c = true) ds.
Proof. apply Forall_impl. exact digit_repr_char. Qed.

Lemma format_exponent_chars x : Forall (fun c => repr_char c = true) (format_exponent x).
Proof.
  unfold format_exponent. constructor; [now destruct (x <? 0)|].
  destruct (Z.abs x <? 10); [constructor; [reflexivity|]|];
    apply digits_repr_chars, digits_of_digits; lia.
Qed.

Lemma format_repr_chars ds decpt :
  Forall (fun c => is_digit c = true) ds ->
  Forall (fun c => repr_char c = true) (format_repr ds decpt).
Proof.
  intros F. pose proof (digits_repr_chars ds F) as R. unfold format_repr.
  destruct ((decpt <=? -4) || (16 <? decpt))%bool.
  - destruct ds as [|d [|d' rest]]; [constructor| |].
    + inversion R; subst. constructor; [assumption|].
      constructor; [reflexivity|apply format_exponent_chars].
    + inversion R as [|? ? Hd R']; subst. constructor; [exact Hd|].
      constructor; [reflexivity|]. apply Forall_app. split; [exact R'|].
      constructor; [reflexivity|apply format_exponent_chars].
  - destruct (decpt <=? 0).
    + constructor; [reflexivity|]. constructor; [reflexivity|].
      apply Forall_app. split; [apply digits_repr_chars, zeros_digits|exact R].
    + destruct (Z.of_nat (List.length ds) <=? decpt).
      * apply Forall_app. split; [exact R|]. apply Forall_app.
        split; [apply digits_repr_chars, zeros_digits|].
        constructor; [reflexivity|]. constructor; [reflexivity|constructor].
      * destruct (Forall_firstn_skipn _ (Z.to_nat decpt) ds R) as [R1 R2].
        apply Forall_app. split; [exact R1|]. constructor; [reflexivity|exact R2].
Qed.

Lemma drop_underscores_plain prev l :
  match prev with Some p => Ascii.eqb p "_"%char | None => false end = false ->
  Forall (fun c => plain c = true) l ->
  drop_underscores prev l = Some l.
Proof.
  intros Hp F. revert prev Hp. induction F as [|c l Hc F IH]; intros prev Hp.
  - simpl. now rewrite Hp.
  - cbn [drop_underscores]. rewrite Hp.
    assert (Hu : Ascii.eqb c "_" = false).
    { unfold plain in Hc. apply andb_prop in Hc as [Hc _]. apply andb_prop in Hc as [_ Hc].
      now apply negb_true_iff in Hc. }
    rewrite Hu. cbn [andb]. now rewrite (IH (Some c) Hu).
Qed.

Lemma plain_no_space l :
  Forall (fun c => plain c = true) l -> Str.no_space (string_of_list_ascii l) = true.
Proof.
  induction 1 as [|c l Hc F IH]; simpl; [reflexivity|].
  rewrite IH, andb_true_r. unfold plain in Hc.
  apply andb_prop in Hc as [Hc _]. now apply andb_prop in Hc as [Hc _].
Qed.

Lemma plain_no_comma l :
  Forall (fun c => plain c = true) l ->
  Str.remove_char "," (string_of_list_ascii l) = string_of_list_ascii l.
Proof.
  induction 1 as [|c l Hc F IH]; simpl; [reflexivity|].
  unfold plain in Hc. apply andb_prop in Hc as [_ Hc]. apply negb_true_iff in Hc.
  now rewrite Hc, IH.
Qed.

Lemma plain_strip l :
  Forall (fun c => plain c = true) l ->
  Str.strip (string_of_list_ascii l) = string_of_list_ascii l.
Proof. intros F. apply StrFacts.strip_id, StrFacts.no_space_trimmed, plain_no_space, F. Qed.

Lemma read_sign_digit c rest : is_digit c = true -> read_sign (c :: rest) = (false, c :: rest).
Proof.
  destruct c as [[] [] [] [] [] [] [] []]; intros H;
    solve [discriminate H | reflexivity].
Qed.

Lemma digit_not_word c t :
  is_digit c = true ->
  (String.eqb (String (Str.lower_char c) t) "inf"
   || String.eqb (String (Str.lower_char c) t) "infinity")%bool = false
  /\ String.eqb (String (Str.lower_char c) t) "nan" = false.
Proof.
  destruct c as [[] [] [] [] [] [] [] []]; intros H;
    solve [discriminate H | split; reflexivity].
Qed.

Lemma digit_not_sentinel c t (neg : bool) :
  is_digit c = true ->
  Str.mem (string_of_list_ascii (if neg then "-"%char :: c :: t else c :: t)) SENTINELS = false.
Proof.
  destruct c as [[] [] [] [] [] [] [] []]; intros H; try discriminate H;
    destruct neg; reflexivity.
Qed.

(** Reading a literal: a sign, then a number that starts with a digit. *)
Lemma read_literal_number (neg : bool) c rest m e :
  is_digit c = true -> read_number (c :: rest) = Some (m, e) ->
  read_literal (if neg then "-"%char :: c :: rest else c :: rest) = Some (LNum neg m e).
Proof.
  intros Hc R. unfold read_literal.
  assert (S : read_sign (if neg then "-"%char :: c :: rest else c :: rest)
              = (neg, c :: rest)).
  { destruct neg; [reflexivity|now apply read_sign_digit]. }
  rewrite S. cbn [string_of_list_ascii Str.lower].
  destruct (digit_not_word c (Str.lower (string_of_list_ascii rest)) Hc) as [W1 W2].
  now rewrite W1, W2, R.
Qed.

(** [float(str(x))] is [x], for every binary64 value [x]. *)
Lemma of_string_to_string x : valid x = true -> of_string (to_string x) = Ok x.
Proof.
  destruct x as [[]|[]| |s m e]; try reflexivity.
  intros V. simpl in V. unfold to_string.
  destruct (shortest_decimal m e) as [d p] eqn:SD.
  pose proof (shortest_decimal_reads m e V) as R.
  pose proof (shortest_decimal_pos m e V) as P.
  rewrite SD in R, P. cbn [fst snd] in R, P.
  set (ds := digits_of d).
  assert (F : Forall (fun c => is_digit c = true) ds) by (apply digits_of_digits; lia).
  destruct (format_repr_reads ds (Z.of_nat (List.length ds) + p) F (digits_of_nonempty d))
    as [c [rest [m' [e' [Eb [Hc [Rn QE]]]]]]].
  pose proof (format_repr_chars ds (Z.of_nat (List.length ds) + p) F) as Ch.
  rewrite Eb in *.
  set (l := if s then "-"%char :: c :: rest else c :: rest).
  assert (Pl : Forall (fun c => plain c = true) l).
  { unfold l. destruct s; [constructor; [reflexivity|]|];
      (eapply Forall_impl; [exact repr_char_plain|exact Ch]). }
  unfold of_string.
  rewrite list_ascii_of_string_of_list_ascii.
  rewrite (drop_underscores_plain None l eq_refl Pl).
  rewrite (plain_strip l Pl), list_ascii_of_string_of_list_ascii.
  unfold l. rewrite (read_literal_number s c rest m' e' Hc Rn).
  cbn [of_literal]. f_equal.
  rewrite (round_Q_comp s _ _ QE).
  replace (Z.of_nat (List.length ds) + p - Z.of_nat (List.length ds)) with p by ring.
  unfold ds. rewrite digits_of_val by lia.
  now apply round_Q_sign.
Qed.

Lemma to_string_plain x :
  valid x = true -> is_nan x = false ->
  Str.strip (to_string x) = to_string x
  /\ Str.mem (to_string x) SENTINELS = false
  /\ Str.remove_char "," (to_string x) = to_string x.
Proof.
  destruct x as [[]|[]| |s m e]; try (intros; repeat split; reflexivity);
    [discriminate|].
  intros V _. simpl in V. unfold to_string.
  destruct (shortest_decimal m e) as [d p] eqn:SD.
  pose proof (shortest_decimal_pos m e V) as P. rewrite SD in P. cbn [fst] in P.
  set (ds := digits_of d).
  assert (F : Forall (fun c => is_digit c = true) ds) by (apply digits_of_digits; lia).
  destruct (format_repr_reads ds (Z.of_nat (List.length ds) + p) F (digits_of_nonempty d))
    as [c [rest [m' [e' [Eb [Hc _]]]]]].
  pose proof (format_repr_chars ds (Z.of_nat (List.length ds) + p) F) as Ch.
  rewrite Eb in *.
  set (l := if s then "-"%char :: c :: rest else c :: rest).
  assert (Pl : Forall (fun c => plain c = true) l).
  { unfold l. destruct s; [constructor; [reflexivity|]|];
      (eapply Forall_impl; [exact repr_char_plain|exact Ch]). }
  split; [apply plain_strip, Pl|]. split; [|apply plain_no_comma, Pl].
  unfold l. now apply digit_not_sentinel.
Qed.


End FloatFacts.

(** ** The scalar parsers *)

Module ParserFacts.
Import Str StrFacts SplitFacts Parsed.

Lemma of_string_raises text e : Float.of_string text = Raise e -> e = ValueError.
Proof.
  unfold Float.of_string.
  destruct (Float.drop_underscores _ _); [|congruence].
  destruct (Float.read_literal _); congruence.
Qed.

Lemma float_or_none_eq text : float_or_none text = Ok (to_float_opt text).
Proof.
  unfold float_or_none, to_float_opt.
  destruct (Float.of_string text) as [f|e] eqn:E; simpl; [reflexivity|].
  now rewrite (of_string_raises _ _ E).
Qed.

Lemma parse_float_Some s : parse_float (Some s) = Ok (float_value s).
Proof.
  unfold parse_float, float_value, float_text.
  destruct (mem (strip s) SENTINELS); [reflexivity|apply float_or_none_eq].
Qed.

Lemma parse_percent_Some s : parse_percent (Some s) = Ok (percent_value s).
Proof.
  unfold parse_percent, percent_value, percent_text, unpercent.
  destruct (mem (strip s) SENTINELS); [reflexivity|apply float_or_none_eq].
Qed.

Lemma parse_float_total v : exists r, parse_float v = Ok r.
Proof. destruct v as [s|]; [rewrite parse_float_Some|simpl]; eauto. Qed.

Lemma parse_percent_total v : exists r, parse_percent v = Ok r.
Proof. destruct v as [s|]; [rewrite parse_percent_Some|simpl]; eauto. Qed.

Lemma parse_high_low_Some s : parse_high_low (Some s) = Ok (high_low_value s).
Proof.
  unfold parse_high_low, high_low_value.
  destruct (mem (strip s) SENTINELS); [reflexivity|].
  destruct (split_ws (strip s)) as [|t0 [|t1 rest]];
    cbn -[parse_float parse_percent]; [reflexivity| |].
  - now rewrite parse_float_Some.
  - now rewrite parse_float_Some, parse_percent_Some.
Qed.

Lemma parse_high_low_total v : exists p, parse_high_low v = Ok p.
Proof. destruct v as [s|]; [rewrite parse_high_low_Some|simpl]; eauto. Qed.

Lemma mem_sentinels s :
  mem s SENTINELS = true -> s = "" \/ s = "-" \/ s = "NaN" \/ s = "nan".
Proof.
  unfold mem, SENTINELS. simpl. rewrite !orb_true_iff, !String.eqb_eq.
  intuition discriminate.
Qed.

(** Text with a percent sign at the end is no sentinel. *)
Lemma percent_not_sentinel t : mem (t ++ "%") SENTINELS = false.
Proof.
  destruct (mem (t ++ "%") SENTINELS) eqn:E; [|reflexivity].
  pose proof (endswith_app_char "%" t) as H.
  apply mem_sentinels in E as [E|[E|[E|E]]]; rewrite E in H; discriminate.
Qed.

(** Text with white space inside is no sentinel. *)
Lemma spaced_not_sentinel t : no_space t = false -> mem t SENTINELS = false.
Proof.
  intros H. destruct (mem t SENTINELS) eqn:E; [|reflexivity].
  apply mem_sentinels in E as [E|[E|[E|E]]]; rewrite E in H; discriminate.
Qed.

(** A percent sign after trimmed text that is no sentinel: the value is
    that of the text before the sign. *)
Lemma percent_value_app t :
  trimmed t = true -> mem t SENTINELS = false ->
  percent_value (t ++ "%") = float_value t.
Proof.
  intros Ht Hs. unfold percent_value, float_value, percent_text, float_text, unpercent.
  assert (Hne : nonempty t = true) by (destruct t; [discriminate|reflexivity]).
  assert (Hstrip : strip (t ++ "%") = t ++ "%").
  { apply strip_id. unfold trimmed in *. apply andb_prop in Ht as [H1 H2].
    rewrite starts_nonspace_app, H1 by assumption.
    now rewrite ends_nonspace_app. }
  rewrite Hstrip, percent_not_sentinel, endswith_app_char, drop_last_app_char.
  now rewrite (strip_id _ Ht), Hs.
Qed.

End ParserFacts.

Import Str StrFacts SplitFacts Parsed ParserFacts.

(** C4. The three scalar parsers are total: on every input, [None]
    included, each returns a value and raises nothing; a sentinel gives
    [None] (a pair of [None] for [parse_high_low]), and so does text that
    [float()] rejects. *)
Theorem scalar_parsers_total (v : option string) :
  (exists r, parse_float v = Ok r
     /\ (no_data v = true -> r = None)
     /\ (forall s, v = Some s ->
           Float.of_string (float_text s) = Raise ValueError -> r = None))
  /\ (exists r, parse_percent v = Ok r
     /\ (no_data v = true -> r = None)
     /\ (forall s, v = Some s ->
           Float.of_string (percent_text s) = Raise ValueError -> r = None))
  /\ (exists p, parse_high_low v = Ok p
     /\ (no_data v = true -> p = (None, None))
     /\ (forall s, v = Some s ->
           Forall (fun t => parse_float (Some t) = Ok None
                            /\ parse_percent (Some t) = Ok None)
                  (split_ws (strip s)) ->
           p = (None, None))).
Proof.
  destruct v as [s|].
  - rewrite parse_float_Some, parse_percent_Some, parse_high_low_Some.
    split; [|split].
    + exists (float_value s). split; [reflexivity|].
      unfold no_data, float_value, to_float_opt. split.
      * intros ->. reflexivity.
      * intros s' [= <-] ->. now destruct (mem _ _).
    + exists (percent_value s). split; [reflexivity|].
      unfold no_data, percent_value, to_float_opt. split.
      * intros ->. reflexivity.
      * intros s' [= <-] ->. now destruct (mem _ _).
    + exists (high_low_value s). split; [reflexivity|].
      unfold no_data, high_low_value. split.
      * intros ->. reflexivity.
      * intros s' [= <-] H. destruct (mem (strip s) SENTINELS); [reflexivity|].
        destruct (split_ws (strip s)) as [|t0 [|t1 rest]]; [reflexivity| |].
        -- inversion H as [|? ? [H0 _] _]; subst.
           rewrite parse_float_Some in H0. injection H0 as ->. reflexivity.
        -- inversion H as [|? ? [H0 _] H']; subst.
           inversion H' as [|? ? [_ H1] _]; subst.
           rewrite parse_float_Some in H0. rewrite parse_percent_Some in H1.
           injection H0 as ->. injection H1 as ->. reflexivity.
  - simpl. split; [|split]; eexists; (split; [reflexivity|]); split;
      try reflexivity; intros; discriminate.
Qed.

Lemma scalar_parsers_total_witness :
  no_data (Some " - ") = true
  /\ Float.of_string (float_text "12abc") = Raise ValueError
  /\ exists r, parse_float (Some " - ") = Ok r /\ r = None.
Proof.
  split; [reflexivity|]. split; [reflexivity|].
  destruct (scalar_parsers_total (Some " - ")) as [[r [H1 [H2 _]]] _].
  exists r. split; [exact H1|]. apply H2. reflexivity.
Defined.

Lemma lower_char_n c : lower_char c = "n"%char -> c = "n"%char \/ c = "N"%char.
Proof.
  destruct c as [[] [] [] [] [] [] [] []]; intros H;
    solve [discriminate H | left; reflexivity | right; reflexivity].
Qed.

Lemma lower_char_a c : lower_char c = "a"%char -> c = "a"%char \/ c = "A"%char.
Proof.
  destruct c as [[] [] [] [] [] [] [] []]; intros H;
    solve [discriminate H | left; reflexivity | right; reflexivity].
Qed.

(** C5, the claim as the specification words it, is not what the code
    does: [parse_float("NAN")] is a float NaN, not [None]. *)
Lemma parse_float_nan_casing_counterexample :
  ~ (forall s, lower (strip s) = "nan" -> parse_float (Some s) = Ok None).
Proof.
  intros H. specialize (H "NAN" eq_refl). vm_compute in H. discriminate H.
Qed.

(** C5, amended. [parse_float] trims the text; the four spellings [""],
    ["-"], ["NaN"] and ["nan"], compared exactly, give [None]; otherwise
    every comma is removed and the result is what [float()] reads, or
    [None] where [float()] rejects the text. Any other casing of "nan"
    reaches [float()] and comes back as a float NaN.
    [parse_float("1,234.5")] is [1234.5]. *)
Theorem parse_float_spec (s : string) :
  (mem (strip s) [""; "-"; "NaN"; "nan"] = true -> parse_float (Some s) = Ok None)
  /\ (mem (strip s) [""; "-"; "NaN"; "nan"] = false ->
        parse_float (Some s) = Ok (to_float_opt (remove_char "," (strip s))))
  /\ (lower (strip s) = "nan" -> mem (strip s) [""; "-"; "NaN"; "nan"] = false ->
        parse_float (Some s) = Ok (Some S754_nan))
  /\ parse_float (Some "1,234.5") = Ok (Some (Float.lit false 12345 (-1)))
  /\ Float.lit false 12345 (-1) = S754_finite false 5429388417957888 (-42)
  /\ parse_float (Some "NAN") = Ok (Some S754_nan).
Proof.
  rewrite parse_float_Some. unfold float_value, float_text. fold SENTINELS.
  split; [intros ->; reflexivity|].
  split; [intros ->; reflexivity|].
  split; [|repeat split; vm_compute; reflexivity].
  intros Hl Hm. rewrite Hm.
  destruct (strip s) as [|c1 [|c2 [|c3 [|c4 r]]]]; try discriminate Hl.
  simpl in Hl. injection Hl as H1 H2 H3.
  apply lower_char_n in H1, H3. apply lower_char_a in H2.
  destruct H1, H2, H3; subst; vm_compute; reflexivity.
Qed.

Lemma parse_float_spec_witness :
  mem (strip " 1,0 ") [""; "-"; "NaN"; "nan"] = false
  /\ parse_float (Some " 1,0 ") = Ok (to_float_opt (remove_char "," (strip " 1,0 "))).
Proof.
  split; [reflexivity|].
  apply (proj1 (proj2 (parse_float_spec " 1,0 "))). reflexivity.
Defined.

(** C6. [parse_percent] treats the sentinels as [parse_float] does; on other
    text it drops one percent sign from the end, then the commas, and
    returns what [float()] reads, unscaled: a percent sign after a number
    changes nothing in its value. [parse_percent("12.5%")] is [12.5],
    [parse_percent("-3.2%")] is [-3.2], and ["-"] and [""] give [None]. *)
Theorem parse_percent_spec (s : string) :
  (no_data (Some s) = true ->
     parse_percent (Some s) = Ok None /\ parse_float (Some s) = Ok None)
  /\ (no_data (Some s) = false ->
        parse_percent (Some s) = Ok (to_float_opt (remove_char "," (unpercent (strip s)))))
  /\ unpercent (s ++ "%") = s
  /\ (trimmed s = true -> no_data (Some s) = false ->
        parse_percent (Some (s ++ "%")) = parse_float (Some s))
  /\ parse_percent (Some "12.5%") = Ok (Some (Float.lit false 125 (-1)))
  /\ Float.lit false 125 (-1) = S754_finite false 7036874417766400 (-49)
  /\ parse_percent (Some "-3.2%") = Ok (Some (Float.lit true 32 (-1)))
  /\ parse_percent (Some "-") = Ok None
  /\ parse_percent (Some "") = Ok None.
Proof.
  split; [|split; [|split; [|split]]].
  - rewrite parse_percent_Some, parse_float_Some.
    unfold no_data, percent_value, float_value. now intros ->.
  - rewrite parse_percent_Some. unfold no_data, percent_value, percent_text.
    now intros ->.
  - unfold unpercent. now rewrite endswith_app_char, drop_last_app_char.
  - intros Ht Hs. rewrite parse_percent_Some, parse_float_Some. f_equal.
    apply percent_value_app; [exact Ht|].
    unfold no_data in Hs. now rewrite (strip_id _ Ht) in Hs.
  - repeat split; vm_compute; reflexivity.
Qed.

Lemma parse_percent_spec_witness :
  trimmed "1e3" = true /\ no_data (Some "1e3") = false
  /\ parse_percent (Some "1e3%") = parse_float (Some "1e3").
Proof.
  split; [reflexivity|]. split; [reflexivity|].
  apply (proj1 (proj2 (proj2 (proj2 (parse_percent_spec "1e3"))))); reflexivity.
Defined.

(** C7. [parse_high_low] gives [(None, None)] on [None] and on a sentinel;
    otherwise the trimmed text has a first piece, which [parse_float]
    reads, and the second piece, if there is one, is read by
    [parse_percent]; with no second piece the percentage is [None]. *)
Theorem parse_high_low_spec (s : string) :
  parse_high_low None = Ok (None, None)
  /\ (mem (strip s) SENTINELS = true -> parse_high_low (Some s) = Ok (None, None))
  /\ (mem (strip s) SENTINELS = false ->
        exists t0 rest price pct,
          split_ws (strip s) = t0 :: rest
          /\ parse_float (Some t0) = Ok price
          /\ match rest with
             | [] => pct = None
             | t1 :: _ => parse_percent (Some t1) = Ok pct
             end
          /\ parse_high_low (Some s) = Ok (price, pct))
  /\ parse_high_low (Some "150.25 -5.10%")
     = Ok (Some (Float.lit false 15025 (-2)), Some (Float.lit true 510 (-2)))
  /\ parse_high_low (Some "150.25") = Ok (Some (Float.lit false 15025 (-2)), None)
  /\ parse_high_low (Some "-") = Ok (None, None).
Proof.
  split; [reflexivity|]. rewrite parse_high_low_Some. unfold high_low_value.
  split; [now intros ->|].
  split; [|repeat split; vm_compute; reflexivity].
  intros Hs. rewrite Hs.
  destruct (split_ws (strip s)) as [|t0 rest] eqn:E.
  - exfalso. revert E. apply split_ws_nonempty.
    + pose proof (strip_trimmed s) as H. unfold trimmed in H.
      now apply andb_prop in H as [H _].
    + destruct (strip s); [discriminate Hs|reflexivity].
  - exists t0, rest, (float_value t0).
    destruct rest as [|t1 rest].
    + exists None. rewrite parse_float_Some. auto.
    + exists (percent_value t1). rewrite parse_float_Some, parse_percent_Some. auto.
Qed.

Lemma parse_high_low_spec_witness :
  mem (strip " 7 ") SENTINELS = false
  /\ exists t0 rest price pct,
       split_ws (strip " 7 ") = t0 :: rest
       /\ parse_float (Some t0) = Ok price
       /\ match rest with
          | [] => pct = None
          | t1 :: _ => parse_percent (Some t1) = Ok pct
          end
       /\ parse_high_low (Some " 7 ") = Ok (price, pct).
Proof.
  split; [reflexivity|].
  apply (proj1 (proj2 (proj2 (parse_high_low_spec " 7 ")))). reflexivity.
Defined.

(** C9. [parse_percent] removes the commas too, as [parse_float] does: the
    result depends on the text only up to its commas, a percentage written
    with digit groups has the value [parse_float] gives the number before
    the sign, and [parse_percent("1,234.5%")] is [1234.5]. *)
Theorem parse_percent_commas (t u : string) :
  trimmed t = true -> trimmed u = true ->
  mem t SENTINELS = false -> mem u SENTINELS = false ->
  remove_char "," t = remove_char "," u ->
  parse_percent (Some (t ++ "%")) = parse_percent (Some (u ++ "%"))
  /\ parse_percent (Some (t ++ "%")) = parse_float (Some t)
  /\ parse_float (Some t) = parse_float (Some u)
  /\ parse_percent (Some "1,234.5%") = Ok (Some (Float.lit false 12345 (-1)))
  /\ parse_percent (Some "1,234.5%") = parse_float (Some "1,234.5").
Proof.
  intros Tt Tu St Su E.
  rewrite !parse_percent_Some, !parse_float_Some.
  rewrite !percent_value_app by assumption.
  assert (F : float_value t = float_value u).
  { unfold float_value, float_text.
    now rewrite (strip_id _ Tt), (strip_id _ Tu), St, Su, E. }
  rewrite F. repeat split; vm_compute; reflexivity.
Qed.

Lemma parse_percent_commas_witness :
  parse_percent (Some "12,345,678%") = parse_percent (Some "12345678%")
  /\ parse_percent (Some "12,345,678%") = parse_float (Some "12,345,678").
Proof.
  pose proof (parse_percent_commas "12,345,678" "12345678"
                eq_refl eq_refl eq_refl eq_refl eq_refl) as H.
  split; [exact (proj1 H)|exact (proj1 (proj2 H))].
Defined.

(** C10. [parse_high_low] reads two pieces and no more: when the trimmed
    text, no sentinel, splits into three pieces or more, the result is
    that on the first two pieces alone, the first read by [parse_float] and
    the second by [parse_percent]; no error, and nothing lost to the
    pieces that follow. *)
Theorem parse_high_low_extra_tokens (s t0 t1 t2 : string) (rest : list string) :
  mem (strip s) SENTINELS = false ->
  split_ws (strip s) = t0 :: t1 :: t2 :: rest ->
  parse_high_low (Some s) = parse_high_low (Some (t0 ++ " " ++ t1))
  /\ (exists price pct,
        parse_float (Some t0) = Ok price /\ parse_percent (Some t1) = Ok pct
        /\ parse_high_low (Some s) = Ok (price, pct))
  /\ parse_high_low (Some "150.25 -5.10% extra junk")
     = Ok (Some (Float.lit false 15025 (-2)), Some (Float.lit true 510 (-2))).
Proof.
  intros Hs E.
  pose proof (split_ws_tokens (strip s)) as T. rewrite E in T.
  inversion T as [|? ? T0 T']; subst. inversion T' as [|? ? T1 _]; subst.
  assert (S0 : no_space t0 = true) by (unfold token in T0; now apply andb_prop in T0).
  assert (S1 : no_space t1 = true) by (unfold token in T1; now apply andb_prop in T1).
  assert (N0 : nonempty t0 = true) by (unfold token in T0; now apply andb_prop in T0).
  assert (N1 : nonempty t1 = true) by (unfold token in T1; now apply andb_prop in T1).
  assert (Hj : strip (t0 ++ " " ++ t1) = t0 ++ " " ++ t1).
  { apply strip_id. unfold trimmed.
    rewrite starts_nonspace_app by exact N0.
    rewrite ends_nonspace_app by reflexivity.
    change (" " ++ t1) with (String " " t1).
    pose proof (no_space_trimmed _ S0) as H0. pose proof (no_space_ends _ S1) as H1.
    unfold trimmed in H0. apply andb_prop in H0 as [H0 _]. rewrite H0. simpl.
    destruct t1; [discriminate N1|exact H1]. }
  assert (Hm : mem (t0 ++ " " ++ t1) SENTINELS = false).
  { apply spaced_not_sentinel. rewrite no_space_app. simpl.
    now rewrite andb_false_r. }
  rewrite !parse_high_low_Some. unfold high_low_value.
  rewrite Hs, E, Hj, Hm.
  change (t0 ++ " " ++ t1) with (t0 ++ String " " t1).
  rewrite (split_ws_pair _ _ T0 T1).
  split; [reflexivity|]. split; [|vm_compute; reflexivity].
  exists (float_value t0), (percent_value t1).
  now rewrite parse_float_Some, parse_percent_Some.
Qed.

Lemma parse_high_low_extra_tokens_witness :
  parse_high_low (Some " 1 2% 3 4 ") = parse_high_low (Some "1 2%").
Proof.
  exact (proj1 (parse_high_low_extra_tokens " 1 2% 3 4 " "1" "2%" "3" ["4"]
                  eq_refl eq_refl)).
Defined.

Import FloatFacts.

Lemma parse_float_result_valid x f :
  parse_float (Some x) = Ok (Some f) -> Float.valid f = true.
Proof.
  rewrite parse_float_Some. unfold float_value, to_float_opt, Float.of_string.
  destruct (mem (strip x) SENTINELS); [discriminate|].
  destruct (Float.drop_underscores _ _); [|discriminate].
  destruct (Float.read_literal _) as [[neg| |neg m e]|]; try discriminate;
    intros [= <-]; try reflexivity.
  apply round_Q_valid.
Qed.

Lemma float_eqb_refl f : Float.is_nan f = false -> Float.eqb f f = true.
Proof.
  destruct f as [s|s| |s m e]; try discriminate; intros _;
    unfold Float.eqb, SFeqb, SFcompare.
  - reflexivity.
  - now destruct s.
  - rewrite Z.compare_refl, Pos.compare_cont_refl. now destruct s.
Qed.

(** C8, the claim as the specification words it, is not what the code
    does: [parse_float("NAN")] is a float NaN, [str] prints it as ["nan"],
    and [parse_float("nan")] is [None]. *)
Lemma parse_float_idempotent_counterexample :
  ~ (forall x f, parse_float (Some x) = Ok (Some f) ->
       exists r, parse_float (Some (Float.to_string f)) = Ok r
                 /\ py_eq r (Some f) = true).
Proof.
  intros H. destruct (H "NAN" S754_nan eq_refl) as [r [H1 H2]].
  vm_compute in H1. injection H1 as <-. discriminate H2.
Qed.

(** C8, amended. [parse_float] is idempotent on every result that is a
    float other than NaN: such a result prints as text that [parse_float]
    reads back as the same float. A NaN result prints as ["nan"], a
    sentinel, and reads back as [None]. *)
Theorem parse_float_idempotent (x : string) (f : Float.float) :
  parse_float (Some x) = Ok (Some f) ->
  (Float.is_nan f = false ->
     parse_float (Some (Float.to_string f)) = Ok (Some f)
     /\ py_eq (Some f) (Some f) = true)
  /\ (Float.is_nan f = true -> parse_float (Some (Float.to_string f)) = Ok None).
Proof.
  intros Hx. pose proof (parse_float_result_valid x f Hx) as V. split.
  - intros Hn. split; [|now apply float_eqb_refl].
    destruct (to_string_plain f V Hn) as [Hs [Hm Hc]].
    rewrite parse_float_Some. unfold float_value, float_text, to_float_opt.
    now rewrite Hs, Hm, Hc, (of_string_to_string f V).
  - destruct f; try discriminate. reflexivity.
Qed.

Lemma parse_float_idempotent_witness :
  parse_float (Some " 1,234.50 ") = Ok (Some (Float.lit false 12345 (-1)))
  /\ Float.to_string (Float.lit false 12345 (-1)) = "1234.5"
  /\ parse_float (Some "1234.5") = Ok (Some (Float.lit false 12345 (-1))).
Proof.
  assert (H : parse_float (Some " 1,234.50 ") = Ok (Some (Float.lit false 12345 (-1))))
    by (vm_compute; reflexivity).
  split; [exact H|]. split; [vm_compute; reflexivity|].
  destruct (parse_float_idempotent _ _ H) as [I _].
  destruct (I eq_refl) as [R _].
  replace "1234.5" with (Float.to_string (Float.lit false 12345 (-1)))
    by (vm_compute; reflexivity).
  exact R.
Defined.

(** ** Dicts *)

Module DictFacts.
Import Dict.

Lemma set_new {V : Type} k (v : V) d :
  ~ In k (keys d) -> set k v d = (d ++ [(k, v)])%list.
Proof.
  induction d as [|[k' v'] d IH]; simpl; intros H; [reflexivity|].
  destruct (String.eqb k k') eqn:E.
  - apply String.eqb_eq in E. subst. tauto.
  - rewrite IH; tauto.
Qed.

Lemma keys_app {V : Type} (d d' : t V) : keys (d ++ d')%list = (keys d ++ keys d')%list.
Proof. apply map_app. Qed.

Lemma get_in {V : Type} k (v : V) d :
  NoDup (keys d) -> In (k, v) d -> get k d = Some v.
Proof.
  induction d as [|[k' v'] d IH]; simpl; intros N H; [tauto|].
  inversion N as [|? ? Hk N']; subst.
  destruct H as [H|H].
  - injection H as -> ->. now rewrite String.eqb_refl.
  - destruct (String.eqb k k') eqn:E; [|now apply IH].
    apply String.eqb_eq in E. subst. exfalso. apply Hk.
    change k' with (fst (k', v)). now apply in_map.
Qed.

Lemma mem_In k l : Str.mem k l = true <-> In k l.
Proof.
  unfold Str.mem. rewrite existsb_exists. split.
  - intros [x [H E]]. apply String.eqb_eq in E. now subst.
  - intros H. exists k. split; [exact H|apply String.eqb_refl].
Qed.

Lemma nodupb_sound l : nodupb l = true -> NoDup l.
Proof.
  induction l as [|k l IH]; simpl; intros H; [constructor|].
  apply andb_prop in H as [H1 H2]. constructor; [|now apply IH].
  rewrite <- mem_In. now destruct (Str.mem k l).
Qed.

End DictFacts.

(** ** The record of one ticker *)

Module RecordFacts.
Import Dict DictFacts Parsed Rows.

Lemma common_fields_cells fundament fields row :
  Forall (fun e => total (snd (snd e))) fields ->
  NoDup (keys row ++ map (fun e => fst (snd e)) fields) ->
  common_fields fundament fields row = Ok (row ++ common_cells fundament fields)%list.
Proof.
  revert row. induction fields as [|[field [col p]] fields IH]; intros row T N; simpl.
  - now rewrite app_nil_r.
  - inversion T as [|? ? Tp T']; subst. simpl in Tp, N.
    destruct (Tp (raw_get field fundament)) as [r Hr].
    unfold value_of. rewrite Hr. simpl.
    assert (Hcol : ~ In col (keys row)).
    { apply NoDup_remove_2 in N. intros H. apply N. apply in_or_app. now left. }
    rewrite (set_new _ _ _ Hcol), IH.
    + now rewrite <- app_assoc.
    + exact T'.
    + rewrite keys_app. simpl. rewrite <- app_assoc. exact N.
Qed.

Lemma high_low_fields_cells fundament fields row :
  NoDup (keys row ++ flat_map (fun e => [fst (snd e); snd (snd e)]) fields) ->
  high_low_fields fundament fields row = Ok (row ++ high_low_cells fundament fields)%list.
Proof.
  revert row. induction fields as [|[field [pc dc]] fields IH]; intros row N; simpl.
  - now rewrite app_nil_r.
  - simpl in N.
    assert (E : parse_high_low (raw_get field fundament)
                = Ok (high_low_of (raw_get field fundament))).
    { destruct (raw_get field fundament); [apply ParserFacts.parse_high_low_Some|reflexivity]. }
    rewrite E. simpl. destruct (high_low_of (raw_get field fundament)) as [price pct].
    assert (Hpc : ~ In pc (keys row)).
    { apply NoDup_remove_2 in N. intros H. apply N. apply in_or_app. now left. }
    rewrite (set_new pc _ row Hpc).
    assert (N' : NoDup (keys (row ++ [(pc, of_opt_float price)])%list
                        ++ dc :: flat_map (fun e => [fst (snd e); snd (snd e)]) fields)).
    { rewrite keys_app. simpl. rewrite <- app_assoc. exact N. }
    assert (Hdc : ~ In dc (keys (row ++ [(pc, of_opt_float price)])%list)).
    { apply NoDup_remove_2 in N'. intros H. apply N'. apply in_or_app. now left. }
    rewrite (set_new dc _ _ Hdc), IH.
    + simpl. now rewrite <- !app_assoc.
    + rewrite keys_app. simpl. rewrite <- app_assoc. exact N'.
Qed.

Lemma COMMON_FIELD_MAP_total : Forall (fun e => total (snd (snd e))) COMMON_FIELD_MAP.
Proof.
  unfold COMMON_FIELD_MAP.
  repeat (constructor;
          [first [exact ParserFacts.parse_float_total
                 |exact ParserFacts.parse_percent_total]|]).
  constructor.
Qed.

Lemma COMMON_FIELD_MAP_None :
  Forall (fun e => snd (snd e) None = Ok None) COMMON_FIELD_MAP.
Proof. unfold COMMON_FIELD_MAP. repeat (constructor; [reflexivity|]). constructor. Qed.

Lemma ROW_COLUMNS_NoDup : NoDup ROW_COLUMNS.
Proof. apply nodupb_sound. vm_compute. reflexivity. Qed.

Lemma build_record_eq ticker fundament :
  build_record ticker fundament = Ok (record_of ticker fundament).
Proof.
  unfold build_record, record_of.
  rewrite common_fields_cells.
  - cbn [Py.bind]. rewrite high_low_fields_cells.
    + now rewrite <- app_assoc.
    + rewrite keys_app. unfold common_cells. unfold keys at 2. rewrite map_map.
      cbn [fst]. rewrite <- app_assoc. exact ROW_COLUMNS_NoDup.
  - exact COMMON_FIELD_MAP_total.
  - pose proof ROW_COLUMNS_NoDup as N. unfold ROW_COLUMNS in N.
    rewrite app_assoc in N. now apply NoDup_app_remove_r in N.
Qed.

Lemma record_of_keys ticker fundament : keys (record_of ticker fundament) = ROW_COLUMNS.
Proof. reflexivity. Qed.

End RecordFacts.

Import Dict DictFacts Rows RecordFacts.

(** C1. The row of one ticker has the same keys on every call, whatever
    the ticker and the raw mapping, the empty one included: the ticker, the
    three categorical columns, every target column of [COMMON_FIELD_MAP]
    and the two target columns of each entry of [HIGH_LOW_FIELDS], in this
    order. No parser raises; each cell holds what its parser returns on the
    source field, and [None] where the raw mapping lacks the field. *)
Theorem build_record_columns (ticker : string) (fundament : RawQuote) :
  exists row,
    build_record ticker fundament = Ok row
    /\ keys row = ROW_COLUMNS
    /\ (forall ticker' fundament',
          exists row', build_record ticker' fundament' = Ok row' /\ keys row' = keys row)
    /\ get "ticker" row = Some (VStr (Str.upper ticker))
    /\ get "sector" row = Some (of_opt_str (raw_get "Sector" fundament))
    /\ get "industry" row = Some (of_opt_str (raw_get "Industry" fundament))
    /\ get "country" row = Some (of_opt_str (raw_get "Country" fundament))
    /\ (forall field col p, In (field, (col, p)) COMMON_FIELD_MAP ->
          exists r, p (raw_get field fundament) = Ok r
                    /\ get col row = Some (of_opt_float r)
                    /\ (raw_get field fundament = None -> r = None))
    /\ (forall field pc dc, In (field, (pc, dc)) HIGH_LOW_FIELDS ->
          exists price pct,
            parse_high_low (raw_get field fundament) = Ok (price, pct)
            /\ get pc row = Some (of_opt_float price)
            /\ get dc row = Some (of_opt_float pct)
            /\ (raw_get field fundament = None -> price = None /\ pct = None)).
Proof.
  exists (record_of ticker fundament).
  assert (N : NoDup (keys (record_of ticker fundament)))
    by (rewrite record_of_keys; exact ROW_COLUMNS_NoDup).
  split; [apply build_record_eq|]. split; [apply record_of_keys|].
  split; [intros t' f'; exists (record_of t' f'); split;
          [apply build_record_eq|reflexivity]|].
  do 4 (split; [reflexivity|]). split.
  - intros field col p Hin.
    pose proof COMMON_FIELD_MAP_total as T. rewrite Forall_forall in T.
    destruct (T _ Hin (raw_get field fundament)) as [r Hr]. simpl in Hr.
    exists r. split; [exact Hr|]. split.
    + apply get_in; [exact N|]. unfold record_of.
      apply in_or_app. right. apply in_or_app. left.
      unfold common_cells.
      apply (in_map (fun e => (fst (snd e),
                               of_opt_float (value_of (snd (snd e))
                                               (raw_get (fst e) fundament))))) in Hin.
      simpl in Hin. unfold value_of in Hin. now rewrite Hr in Hin.
    + intros Hnone. rewrite Hnone in Hr.
      pose proof COMMON_FIELD_MAP_None as Z. rewrite Forall_forall in Z.
      specialize (Z _ Hin). simpl in Z. congruence.
  - intros field pc dc Hin.
    assert (E : parse_high_low (raw_get field fundament)
                = Ok (high_low_of (raw_get field fundament))).
    { destruct (raw_get field fundament); [apply parse_high_low_Some|reflexivity]. }
    exists (fst (high_low_of (raw_get field fundament))),
           (snd (high_low_of (raw_get field fundament))).
    rewrite <- surjective_pairing. split; [exact E|].
    assert (C : forall c, In c [(pc, of_opt_float (fst (high_low_of (raw_get field fundament))));
                                 (dc, of_opt_float (snd (high_low_of (raw_get field fundament))))] ->
                          In c (record_of ticker fundament)).
    { intros c Hc. unfold record_of. apply in_or_app. right. apply in_or_app. right.
      unfold high_low_cells. apply in_flat_map. exists (field, (pc, dc)). now split. }
    split; [apply get_in; [exact N|apply C; now left]|].
    split; [apply get_in; [exact N|apply C; right; now left]|].
    intros ->. split; reflexivity.
Qed.

Lemma build_record_columns_witness :
  In ("P/E", ("pe", parse_float)) COMMON_FIELD_MAP
  /\ raw_get "P/E" [] = None
  /\ exists row, build_record "aapl" [] = Ok row /\ get "pe" row = Some VNone.
Proof.
  assert (Hin : In ("P/E", ("pe", parse_float)) COMMON_FIELD_MAP)
    by (right; right; left; reflexivity).
  split; [exact Hin|]. split; [reflexivity|].
  destruct (build_record_columns "aapl" []) as
    [row [Hb [_ [_ [_ [_ [_ [_ [Hc _]]]]]]]]].
  exists row. split; [exact Hb|].
  destruct (Hc _ _ _ Hin) as [r [_ [Hg Hn]]].
  rewrite Hg, (Hn eq_refl). reflexivity.
Defined.

(** ** Data frames *)

Module FrameFacts.
Import Frame.

Lemma add_keys_fresh l seen :
  NoDup (seen ++ l) -> fold_left add_key l seen = (seen ++ l)%list.
Proof.
  revert seen. induction l as [|k l IH]; intros seen N; simpl.
  - now rewrite app_nil_r.
  - assert (H : Str.mem k seen = false).
    { destruct (Str.mem k seen) eqn:E; [|reflexivity].
      apply mem_In in E. apply NoDup_remove_2 in N. exfalso. apply N.
      apply in_or_app. now left. }
    unfold add_key at 2. rewrite H, IH; rewrite <- app_assoc; [reflexivity|exact N].
Qed.

Lemma add_keys_known l seen :
  (forall k, In k l -> In k seen) -> fold_left add_key l seen = seen.
Proof.
  revert seen. induction l as [|k l IH]; intros seen H; simpl; [reflexivity|].
  assert (E : Str.mem k seen = true) by (apply mem_In, H; now left).
  unfold add_key at 2. rewrite E. apply IH. intros k' Hk. apply H. now right.
Qed.

(** Records that all have the columns [cols] make a frame with these
    columns. *)
Lemma union_keys_same cols records :
  NoDup cols -> records <> [] ->
  Forall (fun r => Dict.keys r = cols) records ->
  union_keys [] records = cols.
Proof.
  intros N Hne F. destruct records as [|r records]; [congruence|].
  inversion F as [|? ? Hr F']; subst. simpl.
  rewrite add_keys_fresh by exact N. simpl.
  clear Hne F. induction records as [|r' records IH]; simpl; [reflexivity|].
  inversion F' as [|? ? Hr' F'']; subst.
  rewrite Hr'. rewrite add_keys_known by auto. apply IH; assumption.
Qed.

Lemma cells_of_record (d : Row) :
  NoDup (Dict.keys d) ->
  map (fun c => match Dict.get c d with Some v => v | None => VFloat S754_nan end)
      (Dict.keys d)
  = map snd d.
Proof.
  intros N. unfold Dict.keys. rewrite map_map. apply map_ext_in.
  intros [k v] Hin. simpl. now rewrite (get_in k v d N Hin).
Qed.

End FrameFacts.

(** ** Snapshot assembly *)

Section CollectFacts.
Import Frame FrameFacts.

Variable World : Type.
Variable ticker_fundament : string -> World -> result RawQuote * World.
Variable utc_now_isoformat : World -> string * World.

Lemma fetch_all_length tickers w quotes w' :
  fetch_all World ticker_fundament tickers w = (Ok quotes, w') ->
  List.length quotes = List.length tickers.
Proof.
  revert w quotes w'. induction tickers as [|t tickers IH]; simpl; intros w quotes w' H.
  - injection H as <- _. reflexivity.
  - destruct (ticker_fundament t w) as [[q|e] w1]; [|discriminate].
    destruct (fetch_all World ticker_fundament tickers w1) as [[qs|e] w2] eqn:E;
      [|discriminate].
    injection H as <- _. simpl. f_equal. eapply IH. exact E.
Qed.

Lemma collect_rows_eq tickers rows w :
  collect_rows World ticker_fundament tickers rows w =
    match fetch_all World ticker_fundament tickers w with
    | (Ok quotes, w') => (Ok (rows ++ records_of tickers quotes)%list, w')
    | (Raise e, w') => (Raise e, w')
    end.
Proof.
  revert rows w. induction tickers as [|t tickers IH]; intros rows w; simpl.
  - now rewrite app_nil_r.
  - destruct (ticker_fundament t w) as [[q|e] w1]; [|reflexivity].
    rewrite build_record_eq, IH.
    destruct (fetch_all World ticker_fundament tickers w1) as [[qs|e] w2];
      [|reflexivity].
    unfold records_of. simpl. now rewrite <- app_assoc.
Qed.

Lemma of_records_eq tickers quotes :
  tickers <> [] -> List.length quotes = List.length tickers ->
  of_records (records_of tickers quotes)
  = mk ROW_COLUMNS (map (fun r => map snd r) (records_of tickers quotes)).
Proof.
  intros Hne Hlen. unfold of_records.
  assert (F : Forall (fun r => Dict.keys r = ROW_COLUMNS) (records_of tickers quotes)).
  { unfold records_of. apply Forall_forall. intros r Hr.
    apply in_map_iff in Hr as [[t q] [<- _]]. apply record_of_keys. }
  assert (Hrec : records_of tickers quotes <> []).
  { unfold records_of. destruct tickers; [congruence|].
    destruct quotes; [discriminate Hlen|discriminate]. }
  rewrite (union_keys_same ROW_COLUMNS _ ROW_COLUMNS_NoDup Hrec F).
  f_equal. apply map_ext_in. intros r Hr.
  rewrite Forall_forall in F. rewrite <- (F r Hr).
  apply cells_of_record. rewrite (F r Hr). exact ROW_COLUMNS_NoDup.
Qed.

(** What a run does: the quotes are fetched in order; if one call raises,
    so does the run, before the clock is read; otherwise the clock is read
    once, and the frame is the rows with the stamp as second column, unless
    there is no ticker, where [insert] finds no column to go after. *)
Lemma collect_eq tickers w :
  collect_quote_features World ticker_fundament utc_now_isoformat tickers w =
    match fetch_all World ticker_fundament tickers w with
    | (Raise e, w1) => (Raise e, w1)
    | (Ok quotes, w1) =>
        let (stamp, w2) := utc_now_isoformat w1 in
        match tickers with
        | [] => (Raise IndexError, w2)
        | _ => (Ok (snapshot_of stamp tickers quotes), w2)
        end
    end.
Proof.
  unfold collect_quote_features. rewrite collect_rows_eq.
  destruct (fetch_all World ticker_fundament tickers w) as [[quotes|e] w1] eqn:E;
    [|reflexivity].
  simpl. destruct (utc_now_isoformat w1) as [stamp w2].
  destruct tickers as [|t tickers]; [simpl in E; injection E as <- _; reflexivity|].
  rewrite of_records_eq; [|discriminate|eapply fetch_all_length; exact E].
  unfold insert, snapshot_of. simpl columns. simpl rows.
  replace (Str.mem "snapshot_utc" ROW_COLUMNS) with false by (vm_compute; reflexivity).
  replace (List.length ROW_COLUMNS <? 1)%nat with false by (vm_compute; reflexivity).
  now rewrite map_map.
Qed.

Lemma snapshot_of_len stamp tickers quotes :
  List.length quotes = List.length tickers ->
  len (snapshot_of stamp tickers quotes) = List.length tickers.
Proof.
  intros H. unfold len, snapshot_of, records_of. simpl.
  rewrite !length_map, length_combine, H. apply Nat.min_id.
Qed.

Lemma snapshot_of_cells stamp tickers quotes i t :
  List.length quotes = List.length tickers ->
  nth_error tickers i = Some t ->
  cell (snapshot_of stamp tickers quotes) i "snapshot_utc" = Some (VStr stamp)
  /\ cell (snapshot_of stamp tickers quotes) i "ticker" = Some (VStr (Str.upper t)).
Proof.
  intros Hlen Ht. unfold cell, snapshot_of. simpl columns. simpl rows.
  replace (col_index "snapshot_utc" (insert_at 1 "snapshot_utc" ROW_COLUMNS))
    with (Some 1%nat) by (vm_compute; reflexivity).
  replace (col_index "ticker" (insert_at 1 "snapshot_utc" ROW_COLUMNS))
    with (Some 0%nat) by (vm_compute; reflexivity).
  assert (Hq : exists q, nth_error (combine tickers quotes) i = Some (t, q)).
  { clear -Hlen Ht. revert quotes i Hlen Ht.
    induction tickers as [|t' tickers IH]; intros quotes i Hlen Ht.
    - destruct i; discriminate Ht.
    - destruct quotes as [|q quotes]; [discriminate Hlen|].
      destruct i as [|i]; simpl in *.
      + injection Ht as ->. now exists q.
      + apply IH; [now injection Hlen|exact Ht]. }
  destruct Hq as [q Hq]. unfold records_of.
  rewrite !nth_error_map, Hq. simpl. split; reflexivity.
Qed.

End CollectFacts.

Section Snapshot.
Import Frame FrameFacts.

Variable World : Type.
Variable ticker_fundament : string -> World -> result RawQuote * World.
Variable utc_now_isoformat : World -> string * World.

Lemma fetch_all_counted tickers w n :
  fetch_all (World * nat) (counted_fundament World ticker_fundament) tickers (w, n) =
    let (r, w') := fetch_all World ticker_fundament tickers w in (r, (w', n)).
Proof.
  revert w. induction tickers as [|t tickers IH]; intros w; simpl.
  - reflexivity.
  - unfold counted_fundament at 1. simpl.
    destruct (ticker_fundament t w) as [[q|e] w1]; [|reflexivity].
    rewrite IH. destruct (fetch_all World ticker_fundament tickers w1) as [[qs|e] w2];
      reflexivity.
Qed.

(** C2. A run reads the clock once, after the last quote is fetched, and
    every row of the frame it returns carries that one reading as its
    [snapshot_utc]: no two rows of a run disagree. A run returns a frame
    for every list of tickers but the empty one, as long as the quote
    source answers; a run that returns no frame has no rows to disagree. *)
Theorem snapshot_utc_shared (tickers : list string) (w : World) :
  match fetch_all World ticker_fundament tickers w with
  | (Raise e, w1) =>
      collect_quote_features World ticker_fundament utc_now_isoformat tickers w
      = (Raise e, w1)
  | (Ok quotes, w1) =>
      let (stamp, w2) := utc_now_isoformat w1 in
      match tickers with
      | [] =>
          collect_quote_features World ticker_fundament utc_now_isoformat tickers w
          = (Raise IndexError, w2)
      | _ =>
          exists df,
            collect_quote_features World ticker_fundament utc_now_isoformat tickers w = (Ok df, w2)
            /\ len df = List.length tickers
            /\ (forall i, (i < List.length tickers)%nat ->
                  cell df i "snapshot_utc" = Some (VStr stamp))
            /\ (forall i j, (i < len df)%nat -> (j < len df)%nat ->
                  cell df i "snapshot_utc" = cell df j "snapshot_utc")
      end
  end
  /\ match counted_collect World ticker_fundament utc_now_isoformat tickers (w, 0%nat)
     with
     | (Ok _, (_, n)) => n = 1%nat
     | (Raise _, (_, n)) => (n <= 1)%nat
     end.
Proof.
  split.
  - rewrite collect_eq.
    destruct (fetch_all World ticker_fundament tickers w) as [[quotes|e] w1] eqn:E;
      [|reflexivity].
    destruct (utc_now_isoformat w1) as [stamp w2].
    destruct tickers as [|t tickers]; [reflexivity|].
    pose proof (fetch_all_length _ _ _ _ _ _ E) as Hlen.
    exists (snapshot_of stamp (t :: tickers) quotes).
    split; [reflexivity|].
    assert (Hcell : forall i, (i < List.length (t :: tickers))%nat ->
              cell (snapshot_of stamp (t :: tickers) quotes) i "snapshot_utc"
              = Some (VStr stamp)).
    { intros i Hi. destruct (nth_error (t :: tickers) i) as [ti|] eqn:Ei.
      - now apply (snapshot_of_cells stamp _ quotes i ti Hlen).
      - apply nth_error_None in Ei. lia. }
    split; [now apply snapshot_of_len|]. split; [exact Hcell|].
    intros i j Hi Hj. rewrite snapshot_of_len in Hi, Hj by exact Hlen.
    now rewrite !Hcell.
  - unfold counted_collect. rewrite collect_eq, fetch_all_counted.
    destruct (fetch_all World ticker_fundament tickers w) as [[quotes|e] w1]; [|simpl; lia].
    unfold counted_now. simpl.
    destruct (utc_now_isoformat w1) as [stamp w2].
    destruct tickers; simpl; lia.
Qed.

(** C3, amended. [collect_quote_features] makes one row per ticker of a
    list that is not empty, in the order given and with no row merged or
    dropped, and the ticker column of each row is the ticker in upper
    case; it does not trim. Trimming is [main]'s: it cuts the argument at
    the commas, drops the pieces that are blank, and trims and upper-cases
    the others, in order, so that every ticker [main] passes on is trimmed,
    in upper case and not empty; with no ticker left [main] exits before
    any quote is fetched. *)
Theorem collect_rows_in_order (tickers : list string) (w : World) :
  match fetch_all World ticker_fundament tickers w with
  | (Raise e, w1) =>
      collect_quote_features World ticker_fundament utc_now_isoformat tickers w
      = (Raise e, w1)
  | (Ok quotes, w1) =>
      match tickers with
      | [] =>
          fst (collect_quote_features World ticker_fundament utc_now_isoformat tickers w)
          = Raise IndexError
      | _ =>
          exists df,
            fst (collect_quote_features World ticker_fundament utc_now_isoformat tickers w) = Ok df
            /\ len df = List.length tickers
            /\ (forall i t, nth_error tickers i = Some t ->
                  cell df i "ticker" = Some (VStr (Str.upper t)))
      end
  end
  /\ (forall arg,
        main_tickers arg
        = map (fun t => Str.upper (Str.strip t))
              (filter (fun t => Str.nonempty (Str.strip t)) (Str.split_on "," arg)))
  /\ (forall arg t, In t (main_tickers arg) ->
        t <> "" /\ Str.strip t = t /\ Str.upper t = t)
  /\ (forall arg, main_tickers arg = [] ->
        main_collect World ticker_fundament utc_now_isoformat arg w
        = (Raise (SystemExit "No tickers provided"), w))
  /\ (forall arg, main_tickers arg <> [] ->
        main_collect World ticker_fundament utc_now_isoformat arg w
        = collect_quote_features World ticker_fundament utc_now_isoformat (main_tickers arg) w).
Proof.
  split; [|split; [|split; [|split]]].
  - rewrite collect_eq.
    destruct (fetch_all World ticker_fundament tickers w) as [[quotes|e] w1] eqn:E;
      [|reflexivity].
    destruct (utc_now_isoformat w1) as [stamp w2].
    destruct tickers as [|t tickers]; [reflexivity|].
    pose proof (fetch_all_length _ _ _ _ _ _ E) as Hlen.
    exists (snapshot_of stamp (t :: tickers) quotes).
    split; [reflexivity|]. split; [now apply snapshot_of_len|].
    intros i ti Hi. now apply (snapshot_of_cells stamp _ quotes i ti Hlen).
  - reflexivity.
  - intros arg t Hin. unfold main_tickers in Hin.
    apply in_map_iff in Hin as [t0 [<- Hin]]. apply filter_In in Hin as [_ Hne].
    split; [|split].
    + intros H. rewrite <- upper_nonempty, H in Hne. discriminate.
    + apply strip_id. rewrite upper_trimmed. apply strip_trimmed.
    + apply upper_idem.
  - intros arg H. unfold main_collect. now rewrite H.
  - intros arg H. unfold main_collect.
    destruct (main_tickers arg); [congruence|reflexivity].
Qed.

End Snapshot.

Lemma snapshot_utc_shared_witness :
  exists df,
    Demo.collect ["aapl"; "MSFT"] 0%nat = (Ok df, 1%nat)
    /\ Frame.len df = 2%nat
    /\ Frame.cell df 0 "snapshot_utc" = Some (VStr "2024-01-01T00:00:00+00:00")
    /\ Frame.cell df 1 "snapshot_utc" = Some (VStr "2024-01-01T00:00:00+00:00").
Proof.
  pose proof (snapshot_utc_shared Demo.World Demo.ticker_fundament
                Demo.utc_now_isoformat ["aapl"; "MSFT"] 0%nat) as [H _].
  vm_compute in H. destruct H as [df [H1 [H2 [H3 _]]]].
  exists df. split; [exact H1|]. split; [exact H2|].
  split; [apply (H3 0%nat); lia|apply (H3 1%nat); lia].
Defined.

Lemma collect_rows_in_order_witness :
  exists df,
    fst (Demo.collect ["aapl"; "MSFT"] 0%nat) = Ok df
    /\ Frame.len df = 2%nat
    /\ Frame.cell df 0 "ticker" = Some (VStr "AAPL")
    /\ Frame.cell df 1 "ticker" = Some (VStr "MSFT")
    /\ Frame.cell df 0 "snapshot_utc" = Frame.cell df 1 "snapshot_utc".
Proof.
  pose proof (collect_rows_in_order Demo.World Demo.ticker_fundament
                Demo.utc_now_isoformat ["aapl"; "MSFT"] 0%nat) as [H _].
  vm_compute in H. destruct H as [df [H1 [H2 H3]]].
  exists df. split; [exact H1|]. split; [exact H2|].
  split; [exact (H3 0%nat "aapl" eq_refl)|].
  split; [exact (H3 1%nat "MSFT" eq_refl)|].
  injection H1 as <-. reflexivity.
Defined.

(** C3, the claim as the specification words it, is not what
    [collect_quote_features] does: a ticker with white space around it keeps
    the white space in its row, and an empty list of tickers gives no
    frame of zero rows but an [IndexError]. With [main] in front, a blank
    piece of the argument gives no row. *)
Lemma collect_normalises_counterexample :
  (exists df,
     Demo.collect [" aapl"] 0%nat = (Ok df, 1%nat)
     /\ Frame.cell df 0 "ticker" = Some (VStr " AAPL")
     /\ " AAPL" <> Str.upper (Str.strip " aapl"))
  /\ Demo.collect [] 0%nat = (Raise IndexError, 1%nat)
  /\ Str.split_on "," "aapl, ,msft" = ["aapl"; " "; "msft"]
  /\ main_tickers "aapl, ,msft" = ["AAPL"; "MSFT"].
Proof.
  split; [|repeat split; vm_compute; reflexivity].
  eexists. split; [vm_compute; reflexivity|].
  split; [vm_compute; reflexivity|]. vm_compute. discriminate.
Qed.

(** * Further properties of the collector *)

(** ** Texts: white space, alphabets, separators *)

Module TextFacts.
Import Str StrFacts SplitFacts Text.

Lemma lstrip_pad p s : all_space p = true -> lstrip (p ++ s) = lstrip s.
Proof.
  induction p as [|c p IH]; simpl; [reflexivity|].
  intros H. apply andb_prop in H as [Hc Hp]. rewrite Hc. now apply IH.
Qed.

Lemma lstrip_all_space p : all_space p = true -> lstrip p = "".
Proof.
  induction p as [|c p IH]; simpl; [reflexivity|].
  intros H. apply andb_prop in H as [Hc Hp]. rewrite Hc. now apply IH.
Qed.

Lemma rstrip_all_space p : all_space p = true -> rstrip p = "".
Proof.
  induction p as [|c p IH]; simpl; [reflexivity|].
  intros H. apply andb_prop in H as [Hc Hp]. now rewrite (IH Hp), Hc.
Qed.

Lemma rstrip_pad s p : all_space p = true -> rstrip (s ++ p) = rstrip s.
Proof.
  intros H. induction s as [|c s IH]; simpl.
  - now apply rstrip_all_space.
  - now rewrite IH.
Qed.

Lemma lstrip_app s p :
  lstrip s <> "" -> lstrip (s ++ p) = lstrip s ++ p.
Proof.
  induction s as [|c s IH]; simpl; [congruence|].
  destruct (is_space c); [exact IH|reflexivity].
Qed.

Lemma lstrip_empty_all_space s : lstrip s = "" -> all_space s = true.
Proof.
  induction s as [|c s IH]; simpl; [reflexivity|].
  destruct (is_space c); [exact IH|discriminate].
Qed.

Lemma all_space_app s t : all_space (s ++ t) = all_space s && all_space t.
Proof.
  induction s as [|c s IH]; simpl; [reflexivity|]. now rewrite IH, andb_assoc.
Qed.

(** White space around the text is gone after [strip], whatever the text. *)
Lemma strip_pad p s q :
  all_space p = true -> all_space q = true -> strip (p ++ s ++ q) = strip s.
Proof.
  intros Hp Hq. unfold strip. rewrite lstrip_pad by exact Hp.
  destruct (lstrip s) as [|c r] eqn:E.
  - apply lstrip_empty_all_space in E.
    rewrite lstrip_all_space; [reflexivity|].
    now rewrite all_space_app, E, Hq.
  - rewrite lstrip_app by (rewrite E; discriminate).
    rewrite E. now apply rstrip_pad.
Qed.

Lemma rstrip_empty_all_space s : rstrip s = "" -> all_space s = true.
Proof.
  induction s as [|c s IH]; simpl; [reflexivity|].
  destruct (rstrip s) as [|d r]; [|discriminate].
  destruct (is_space c); [intros _; now apply IH|discriminate].
Qed.

(** Text is blank, for [if t.strip()], exactly when it is all white space. *)
Lemma strip_blank s : nonempty (strip s) = false <-> all_space s = true.
Proof.
  split.
  - intros H. unfold strip in H.
    destruct (rstrip (lstrip s)) eqn:E; [|discriminate].
    apply rstrip_empty_all_space in E.
    apply lstrip_empty_all_space.
    pose proof (lstrip_starts s) as S.
    destruct (lstrip s) as [|c r]; [reflexivity|].
    simpl in S, E. apply andb_prop in E as [E _]. now rewrite E in S.
  - intros H. unfold strip. now rewrite (lstrip_all_space s H).
Qed.

Lemma all_space_of_rev cur :
  all_space (string_of_list_ascii (rev cur)) = forallb is_space cur.
Proof.
  assert (G : forall l, all_space (string_of_list_ascii l) = forallb is_space l).
  { induction l as [|c l IH]; simpl; [reflexivity|]. now rewrite IH. }
  rewrite G. induction cur as [|c cur IH]; simpl; [reflexivity|].
  rewrite forallb_app, IH. simpl. rewrite andb_true_r. apply andb_comm.
Qed.

Lemma all_chars_list p s : all_chars p s = forallb p (list_ascii_of_string s).
Proof. induction s as [|c s IH]; simpl; [reflexivity|]. now rewrite IH. Qed.

Lemma all_chars_of_list p l : all_chars p (string_of_list_ascii l) = forallb p l.
Proof. now rewrite all_chars_list, list_ascii_of_string_of_list_ascii. Qed.

Lemma all_chars_weaken (p q : ascii -> bool) s :
  (forall c, p c = true -> q c = true) -> all_chars p s = true -> all_chars q s = true.
Proof.
  intros I. induction s as [|c s IH]; simpl; [reflexivity|].
  intros H. apply andb_prop in H as [Hc Hs]. now rewrite (I c Hc), IH.
Qed.

Lemma all_chars_false p s c :
  In c (list_ascii_of_string s) -> p c = false -> all_chars p s = false.
Proof.
  induction s as [|d s IH]; simpl; [tauto|].
  intros [->|H] Hc; [now rewrite Hc|]. rewrite (IH H Hc). apply andb_false_r.
Qed.

Lemma all_chars_app p s t : all_chars p (s ++ t) = all_chars p s && all_chars p t.
Proof. induction s as [|c s IH]; simpl; [reflexivity|]. now rewrite IH, andb_assoc. Qed.

Lemma lstrip_chars p s :
  (forall c, is_space c = true -> p c = true) ->
  all_chars p (lstrip s) = true -> all_chars p s = true.
Proof.
  intros Hp. induction s as [|c s IH]; simpl; [reflexivity|].
  destruct (is_space c) eqn:E; [|exact (fun H => H)].
  intros H. now rewrite (Hp c E), IH.
Qed.

Lemma rstrip_chars p s :
  (forall c, is_space c = true -> p c = true) ->
  all_chars p (rstrip s) = true -> all_chars p s = true.
Proof.
  intros Hp. induction s as [|c s IH]; simpl; [reflexivity|].
  destruct (rstrip s) as [|d r] eqn:R.
  - destruct (is_space c) eqn:E.
    + intros _. rewrite (Hp c E). now apply IH.
    + simpl. intros H. apply andb_prop in H as [Hc _]. rewrite Hc. now apply IH.
  - cbn [all_chars]. intros H. apply andb_prop in H as [Hc Hr].
    rewrite Hc. now apply IH.
Qed.

Lemma strip_chars p s :
  (forall c, is_space c = true -> p c = true) ->
  all_chars p (strip s) = true -> all_chars p s = true.
Proof.
  intros Hp H. apply lstrip_chars; [exact Hp|]. apply rstrip_chars; [exact Hp|exact H].
Qed.

Lemma remove_char_chars p c s :
  p c = true -> all_chars p (remove_char c s) = true -> all_chars p s = true.
Proof.
  intros Hc. induction s as [|d s IH]; simpl; [reflexivity|].
  destruct (Ascii.eqb_spec d c) as [->|N].
  - intros H. now rewrite Hc, IH.
  - simpl. intros H. apply andb_prop in H as [Hd Hs]. now rewrite Hd, IH.
Qed.

Lemma lstrip_all_chars p s : all_chars p s = true -> all_chars p (lstrip s) = true.
Proof.
  induction s as [|c s IH]; simpl; [reflexivity|].
  intros H. apply andb_prop in H as [Hc Hs].
  destruct (is_space c); [now apply IH|]. simpl. now rewrite Hc, Hs.
Qed.

Lemma rstrip_all_chars p s : all_chars p s = true -> all_chars p (rstrip s) = true.
Proof.
  induction s as [|c s IH]; simpl; [reflexivity|].
  intros H. apply andb_prop in H as [Hc Hs]. specialize (IH Hs).
  destruct (rstrip s) as [|d r].
  - destruct (is_space c); [reflexivity|]. simpl. now rewrite Hc.
  - cbn [all_chars] in *. now rewrite Hc, IH.
Qed.

Lemma split_on_aux_run sep cur t :
  sep_free sep t = true ->
  split_on_aux sep cur t = [string_of_list_ascii (rev cur) ++ t].
Proof.
  unfold sep_free. revert cur. induction t as [|c t IH]; intros cur H; simpl.
  - now rewrite SplitFacts.append_empty_r.
  - simpl in H. apply andb_prop in H as [Hc Ht]. apply negb_true_iff in Hc.
    rewrite Hc, (IH (c :: cur) Ht). simpl. now rewrite SplitFacts.string_of_snoc.
Qed.

Lemma split_on_aux_cut sep cur t s :
  sep_free sep t = true ->
  split_on_aux sep cur (t ++ String sep s)
  = (string_of_list_ascii (rev cur) ++ t) :: split_on_aux sep [] s.
Proof.
  unfold sep_free. revert cur. induction t as [|c t IH]; intros cur H; simpl.
  - now rewrite Ascii.eqb_refl, append_empty_r.
  - simpl in H. apply andb_prop in H as [Hc Ht]. apply negb_true_iff in Hc.
    rewrite Hc, (IH (c :: cur) Ht). simpl. now rewrite string_of_snoc.
Qed.

(** [sep.join(l).split(sep)] is [l], for pieces without the separator. *)
Lemma split_on_concat sep l :
  l <> [] -> Forall (fun t => sep_free sep t = true) l ->
  split_on sep (String.concat (String sep "") l) = l.
Proof.
  intros N F. unfold split_on. induction F as [|t l Ht F IH]; [congruence|].
  destruct l as [|u l].
  - simpl. now rewrite split_on_aux_run.
  - change (String.concat (String sep "") (t :: u :: l))
      with (t ++ String sep (String.concat (String sep "") (u :: l))).
    rewrite split_on_aux_cut by exact Ht. simpl string_of_list_ascii.
    cbn [append]. f_equal. apply IH. discriminate.
Qed.

Lemma split_on_aux_free sep cur s :
  forallb (fun c => negb (Ascii.eqb c sep)) cur = true ->
  Forall (fun t => sep_free sep t = true) (split_on_aux sep cur s).
Proof.
  assert (G : forall l, forallb (fun c => negb (Ascii.eqb c sep)) l = true ->
                        sep_free sep (string_of_list_ascii (rev l)) = true).
  { intros l H. unfold sep_free.
    assert (R : forallb (fun c => negb (Ascii.eqb c sep)) (rev l) = true).
    { rewrite forallb_forall in *. intros c Hc. apply H. now apply in_rev. }
    revert R. generalize (rev l). intros l'. induction l' as [|c l' IH]; simpl;
      [reflexivity|]. intros R. apply andb_prop in R as [Rc Rl]. now rewrite Rc, IH. }
  revert cur. induction s as [|c s IH]; intros cur H; simpl.
  - constructor; [now apply G|constructor].
  - destruct (Ascii.eqb c sep) eqn:E.
    + constructor; [now apply G|now apply IH].
    + apply IH. simpl. now rewrite E.
Qed.

Lemma split_ws_aux_skip ws s :
  all_space ws = true -> split_ws_aux [] (ws ++ s) = split_ws_aux [] s.
Proof.
  induction ws as [|c ws IH]; simpl; [reflexivity|].
  intros H. apply andb_prop in H as [Hc Hw]. rewrite Hc. now apply IH.
Qed.

(** Two pieces with any white space between them split into the two. *)
Lemma split_ws_two a ws b :
  token a = true -> token b = true -> all_space ws = true -> nonempty ws = true ->
  split_ws (a ++ ws ++ b) = [a; b].
Proof.
  intros Ta Tb Hw Hn. destruct ws as [|c ws]; [discriminate Hn|].
  simpl in Hw. apply andb_prop in Hw as [Hc Hw].
  unfold token in Ta, Tb.
  apply andb_prop in Ta as [Na Sa]. apply andb_prop in Tb as [Nb Sb].
  unfold split_ws. change (String c ws ++ b) with (String c (ws ++ b)).
  rewrite (split_ws_aux_cut [] a c (ws ++ b) Sa Hc).
  rewrite split_ws_aux_skip by exact Hw.
  rewrite (split_ws_aux_run [] b Sb).
  destruct a; [discriminate Na|]. destruct b; [discriminate Nb|]. reflexivity.
Qed.

Lemma split_ws_one a : token a = true -> split_ws a = [a].
Proof.
  unfold token. intros T. apply andb_prop in T as [Na Sa].
  unfold split_ws. rewrite (split_ws_aux_run [] a Sa).
  destruct a; [discriminate Na|reflexivity].
Qed.

Lemma token_trimmed a : token a = true -> trimmed a = true.
Proof. unfold token. intros T. apply andb_prop in T as [_ S]. now apply no_space_trimmed. Qed.

Lemma no_space_all_space_false ws :
  all_space ws = true -> nonempty ws = true -> no_space ws = false.
Proof.
  destruct ws as [|c ws]; [discriminate|]. simpl.
  intros H _. apply andb_prop in H as [Hc _]. now rewrite Hc.
Qed.

End TextFacts.

(** ** White space around a cell, and between the two pieces of a range *)

Section Padding.
Import Str StrFacts SplitFacts Parsed ParserFacts Text TextFacts.

(** X1. White space around a cell changes nothing: each of the three
    parsers returns on a padded text what it returns on the text. *)
Theorem parsers_ignore_padding (p s q : string) :
  all_space p = true -> all_space q = true ->
  parse_float (Some (p ++ s ++ q)) = parse_float (Some s)
  /\ parse_percent (Some (p ++ s ++ q)) = parse_percent (Some s)
  /\ parse_high_low (Some (p ++ s ++ q)) = parse_high_low (Some s).
Proof.
  intros Hp Hq. pose proof (strip_pad p s q Hp Hq) as E.
  rewrite !parse_float_Some, !parse_percent_Some, !parse_high_low_Some.
  unfold float_value, percent_value, high_low_value, float_text, percent_text.
  now rewrite E.
Qed.

(** X2. A single piece, padded or not, gives [parse_high_low] the price
    alone: the first component is what [parse_float] makes of the piece, be
    it [None], and the second is [None]. *)
Theorem parse_high_low_single (p a q : string) :
  all_space p = true -> all_space q = true -> token a = true ->
  exists price,
    parse_float (Some a) = Ok price
    /\ parse_high_low (Some (p ++ a ++ q)) = Ok (price, None).
Proof.
  intros Hp Hq Ta.
  exists (float_value a). rewrite parse_float_Some. split; [reflexivity|].
  rewrite parse_high_low_Some. unfold high_low_value.
  rewrite (strip_pad p a q Hp Hq), (strip_id a (token_trimmed a Ta)).
  rewrite (split_ws_one a Ta).
  destruct (mem a SENTINELS) eqn:M; [|reflexivity].
  unfold float_value. now rewrite (strip_id a (token_trimmed a Ta)), M.
Qed.

(** X3. Two pieces, however much white space lies between and around
    them, give [parse_high_low] the pair of what [parse_float] makes of the
    first and [parse_percent] of the second, each on its own: a piece that
    does not parse is [None] and leaves the other as it is. *)
Theorem parse_high_low_pair (p a ws b q : string) :
  all_space p = true -> all_space q = true ->
  token a = true -> token b = true ->
  all_space ws = true -> nonempty ws = true ->
  exists price pct,
    parse_float (Some a) = Ok price /\ parse_percent (Some b) = Ok pct
    /\ parse_high_low (Some (p ++ (a ++ ws ++ b) ++ q)) = Ok (price, pct).
Proof.
  intros Hp Hq Ta Tb Hw Hn.
  exists (float_value a), (percent_value b).
  rewrite parse_float_Some, parse_percent_Some. split; [reflexivity|]. split; [reflexivity|].
  rewrite parse_high_low_Some. unfold high_low_value.
  rewrite (strip_pad p (a ++ ws ++ b) q Hp Hq).
  assert (Tr : trimmed (a ++ ws ++ b) = true).
  { unfold trimmed. unfold token in Ta, Tb.
    apply andb_prop in Ta as [Na Sa]. apply andb_prop in Tb as [Nb Sb].
    rewrite starts_nonspace_app by exact Na.
    rewrite ends_nonspace_app by (destruct ws; [discriminate Hn|reflexivity]).
    rewrite ends_nonspace_app by exact Nb.
    pose proof (no_space_trimmed a Sa) as H1. unfold trimmed in H1.
    apply andb_prop in H1 as [H1 _]. rewrite H1. simpl.
    now apply no_space_ends. }
  rewrite (strip_id _ Tr).
  assert (M : mem (a ++ ws ++ b) SENTINELS = false).
  { apply spaced_not_sentinel. rewrite !no_space_app.
    rewrite (no_space_all_space_false ws Hw Hn). simpl. now rewrite andb_false_r. }
  now rewrite M, (split_ws_two a ws b Ta Tb Hw Hn).
Qed.

End Padding.

Lemma parsers_ignore_padding_witness :
  parse_float (Some "  1,234.5 ") = parse_float (Some "1,234.5")
  /\ parse_percent (Some "  1,234.5 ") = parse_percent (Some "1,234.5")
  /\ parse_high_low (Some "  1,234.5 ") = parse_high_low (Some "1,234.5").
Proof.
  exact (parsers_ignore_padding "  " "1,234.5" " " eq_refl eq_refl).
Defined.

Lemma parse_high_low_single_witness :
  exists price,
    parse_float (Some "150.25") = Ok price
    /\ parse_high_low (Some " 150.25  ") = Ok (price, None).
Proof.
  exact (parse_high_low_single " " "150.25" "  " eq_refl eq_refl eq_refl).
Defined.

Lemma parse_high_low_pair_witness :
  exists price pct,
    parse_float (Some "150.25") = Ok price /\ parse_percent (Some "-5.10%") = Ok pct
    /\ parse_high_low (Some " 150.25   -5.10% ") = Ok (price, pct).
Proof.
  exact (parse_high_low_pair " " "150.25" "   " "-5.10%" " "
           eq_refl eq_refl eq_refl eq_refl eq_refl eq_refl).
Defined.

(** ** The alphabet of a number *)

Module AlphabetFacts.
Import Str StrFacts Parsed ParserFacts Text TextFacts Float.

Lemma digit_float_char c : is_digit c = true -> float_char c = true.
Proof. unfold float_char. now intros ->. Qed.

Lemma space_float_char c : is_space c = true -> float_char c = true.
Proof. unfold float_char. intros ->. now rewrite orb_true_r. Qed.

Lemma span_digits_spec s d r :
  span_digits s = (d, r) -> s = (d ++ r)%list /\ forallb is_digit d = true.
Proof.
  revert d r. induction s as [|c s IH]; intros d r; simpl.
  - intros [= <- <-]. now split.
  - destruct (is_digit c) eqn:E.
    + destruct (span_digits s) as [d' r'] eqn:S. intros [= <- <-].
      destruct (IH d' r' eq_refl) as [-> F]. simpl. now rewrite E, F.
    + intros [= <- <-]. now split.
Qed.

Lemma digits_float_chars d : forallb is_digit d = true -> forallb float_char d = true.
Proof.
  induction d as [|c d IH]; simpl; [reflexivity|].
  intros H. apply andb_prop in H as [Hc Hd]. now rewrite (digit_float_char c Hc), IH.
Qed.

Lemma read_sign_cases l neg r :
  read_sign l = (neg, r) -> l = r \/ l = "-"%char :: r \/ l = "+"%char :: r.
Proof.
  destruct l as [|c l]; [intros [= _ <-]; now left|].
  destruct c as [[] [] [] [] [] [] [] []]; simpl; intros [= _ <-]; auto.
Qed.

Lemma read_sign_chars l neg r :
  read_sign l = (neg, r) -> forallb float_char r = true -> forallb float_char l = true.
Proof.
  intros H F. apply read_sign_cases in H as [ -> | [ -> | -> ] ]; simpl; now rewrite ?F.
Qed.

Lemma read_exponent_chars s e : read_exponent s = Some e -> forallb float_char s = true.
Proof.
  destruct s as [|c r]; [reflexivity|]. cbn [read_exponent].
  destruct (Ascii.eqb c "e" || Ascii.eqb c "E")%bool eqn:E; [|discriminate].
  destruct (read_sign r) as [neg r1] eqn:S.
  destruct (span_digits r1) as [ds rest] eqn:D.
  destruct ds as [|d ds]; [discriminate|]. destruct rest; [|discriminate].
  intros _. apply span_digits_spec in D as [D F]. rewrite app_nil_r in D. subst r1.
  cbn [forallb]. apply andb_true_intro. split.
  - apply orb_prop in E as [E|E]; apply Ascii.eqb_eq in E; subst; reflexivity.
  - eapply read_sign_chars; [exact S|]. now apply digits_float_chars.
Qed.

Lemma read_number_chars s m e : read_number s = Some (m, e) -> forallb float_char s = true.
Proof.
  unfold read_number. destruct (span_digits s) as [ip r] eqn:S.
  apply span_digits_spec in S as [-> Fi].
  rewrite forallb_app, (digits_float_chars ip Fi). cbn [andb].
  assert (G : forall (ds fp r' : list ascii),
             match ds with
             | [] => None
             | a :: l =>
                 match read_exponent r' with
                 | Some e0 => Some (digits_val (a :: l), e0 - Z.of_nat (List.length fp))
                 | None => None
                 end
             end = Some (m, e) -> forallb float_char r' = true).
  { intros ds fp r' H. destruct ds; [discriminate|].
    destruct (read_exponent r') eqn:X; [|discriminate].
    eapply read_exponent_chars. exact X. }
  destruct r as [|c r1]; [intros H; exact (G _ [] [] H)|].
  destruct (Ascii.eqb_spec c ".") as [->|Hc].
  - destruct (span_digits r1) as [fp r'] eqn:S2.
    apply span_digits_spec in S2 as [-> Ff]. intros H.
    cbn [forallb]. rewrite forallb_app, (digits_float_chars fp Ff).
    now rewrite (G _ fp r' H).
  - assert (E : match c :: r1 with
                | "."%char :: r2 => span_digits r2
                | _ => ([], c :: r1)
                end = ([], c :: r1)).
    { destruct c as [[] [] [] [] [] [] [] []]; try reflexivity. congruence. }
    rewrite E. intros H. exact (G _ [] (c :: r1) H).
Qed.

Lemma lower_word_chars (x : list ascii) w :
  lower (string_of_list_ascii x) = w ->
  forallb (fun c => existsb (Ascii.eqb c) (list_ascii_of_string "infatyn"))
          (list_ascii_of_string w) = true ->
  forallb float_char x = true.
Proof.
  revert w. induction x as [|c x IH]; intros w; [reflexivity|].
  cbn [string_of_list_ascii lower]. intros <-.
  cbn [list_ascii_of_string forallb]. intros H. apply andb_prop in H as [Hc Hx].
  apply andb_true_intro. split; [|now apply (IH _ eq_refl)].
  unfold float_char. change (list_ascii_of_string "infatyn") with
    ["i"; "n"; "f"; "a"; "t"; "y"; "n"]%char in *.
  rewrite Hc. apply orb_true_r.
Qed.

Lemma read_literal_chars l lit : read_literal l = Some lit -> forallb float_char l = true.
Proof.
  unfold read_literal. destruct (read_sign l) as [neg r] eqn:S.
  intros H. eapply read_sign_chars; [exact S|]. revert H.
  destruct (String.eqb (lower (string_of_list_ascii r)) "inf"
            || String.eqb (lower (string_of_list_ascii r)) "infinity")%bool eqn:E1.
  - intros _. apply orb_prop in E1 as [E|E]; apply String.eqb_eq in E;
      (eapply lower_word_chars; [exact E|reflexivity]).
  - destruct (String.eqb (lower (string_of_list_ascii r)) "nan") eqn:E2.
    + intros _. apply String.eqb_eq in E2.
      eapply lower_word_chars; [exact E2|reflexivity].
    + destruct (read_number r) as [[m e]|] eqn:R; [|discriminate].
      intros _. eapply read_number_chars. exact R.
Qed.

Lemma drop_underscores_chars prev l u :
  drop_underscores prev l = Some u -> forallb float_char u = true ->
  forallb float_char l = true.
Proof.
  revert prev u. induction l as [|c l IH]; intros prev u; [reflexivity|].
  cbn [drop_underscores].
  destruct (Ascii.eqb c "_") eqn:E.
  - apply Ascii.eqb_eq in E. subst c.
    destruct (match prev with Some p => is_digit p | None => false end); [|discriminate].
    intros H F. cbn [forallb]. now rewrite (IH _ _ H F).
  - destruct (_ && _)%bool; [discriminate|].
    destruct (drop_underscores (Some c) l) as [r|] eqn:D; [|discriminate].
    intros [= <-] F. cbn [forallb] in *. apply andb_prop in F as [Fc Fr].
    now rewrite Fc, (IH _ _ D Fr).
Qed.

(** [float()] reads no text with a character outside its alphabet. *)
Lemma of_string_chars text x : of_string text = Ok x -> all_chars float_char text = true.
Proof.
  unfold of_string.
  destruct (drop_underscores None (list_ascii_of_string text)) as [u|] eqn:D; [|discriminate].
  destruct (read_literal _) as [lit|] eqn:R; [|discriminate]. intros _.
  rewrite all_chars_list. eapply drop_underscores_chars; [exact D|].
  rewrite <- all_chars_of_list. apply strip_chars; [exact space_float_char|].
  rewrite all_chars_list. eapply read_literal_chars. exact R.
Qed.

(** [parse_float] returns a float only on the characters of a number. *)
Lemma parse_float_chars s x :
  parse_float (Some s) = Ok (Some x) -> all_chars number_char s = true.
Proof.
  rewrite parse_float_Some. unfold float_value, float_text, to_float_opt.
  destruct (mem (strip s) SENTINELS); [discriminate|].
  destruct (of_string (remove_char "," (strip s))) as [y|e] eqn:E; [|discriminate].
  intros _. apply of_string_chars in E.
  assert (W : forall c, float_char c = true -> number_char c = true).
  { intros c H. unfold number_char. now rewrite H. }
  apply strip_chars; [intros c Hc; apply W, space_float_char, Hc|].
  apply (remove_char_chars number_char ","); [reflexivity|].
  now apply (all_chars_weaken float_char).
Qed.

Lemma parse_percent_chars s x :
  parse_percent (Some s) = Ok (Some x) ->
  all_chars number_char (unpercent (strip s)) = true.
Proof.
  rewrite parse_percent_Some. unfold percent_value, percent_text, to_float_opt.
  destruct (mem (strip s) SENTINELS); [discriminate|].
  destruct (of_string (remove_char "," (unpercent (strip s)))) as [y|e] eqn:E;
    [|discriminate].
  intros _. apply of_string_chars in E.
  assert (W : forall c, float_char c = true -> number_char c = true).
  { intros c H. unfold number_char. now rewrite H. }
  apply (remove_char_chars number_char ","); [reflexivity|].
  now apply (all_chars_weaken float_char).
Qed.

Lemma parse_float_rejects s c :
  In c (list_ascii_of_string s) -> number_char c = false ->
  parse_float (Some s) = Ok None.
Proof.
  intros Hin Hc.
  destruct (parse_float_total (Some s)) as [[y|] Hy]; [|exact Hy].
  pose proof (parse_float_chars s y Hy) as A.
  now rewrite (all_chars_false _ _ c Hin Hc) in A.
Qed.

End AlphabetFacts.

Section Alphabet.
Import Str StrFacts Parsed ParserFacts Text TextFacts Float AlphabetFacts.

(** X4. Whenever [parse_float] returns a float, the text had nothing but the
    characters of a number, commas and white space; whenever [parse_percent]
    does, the same holds of the text before its last percent sign. So a
    percent sign, a currency sign or a unit letter anywhere makes
    [parse_float] return [None], and [parse_percent] puts up with one
    percent sign and only at the end. *)
Theorem parsers_read_numbers_only (s : string) :
  (forall x, parse_float (Some s) = Ok (Some x) -> all_chars number_char s = true)
  /\ (forall x, parse_percent (Some s) = Ok (Some x) ->
        all_chars number_char (unpercent (strip s)) = true)
  /\ (forall c, In c (list_ascii_of_string s) -> number_char c = false ->
        parse_float (Some s) = Ok None)
  /\ (forall c, In c (list_ascii_of_string (unpercent (strip s))) ->
        number_char c = false -> parse_percent (Some s) = Ok None).
Proof.
  split; [exact (parse_float_chars s)|]. split; [exact (parse_percent_chars s)|]. split.
  - exact (parse_float_rejects s).
  - intros c Hin Hc.
    destruct (parse_percent_total (Some s)) as [[y|] Hy]; [|exact Hy].
    pose proof (parse_percent_chars s y Hy) as A.
    now rewrite (all_chars_false _ _ c Hin Hc) in A.
Qed.

End Alphabet.

Lemma parsers_read_numbers_only_witness :
  In "%"%char (list_ascii_of_string "12.5%") /\ Text.number_char "%" = false
  /\ parse_float (Some "12.5%") = Ok None.
Proof.
  assert (H : In "%"%char (list_ascii_of_string "12.5%")) by (simpl; tauto).
  split; [exact H|]. split; [reflexivity|].
  exact (proj1 (proj2 (proj2 (parsers_read_numbers_only "12.5%"))) "%"%char H eq_refl).
Defined.

(** ** The two field tables *)

Section FieldMap.
Import Str Text Parsed ParserFacts TextFacts AlphabetFacts.

(** X5. The two field tables follow one convention. A column of
    [COMMON_FIELD_MAP] is read by [parse_percent] when its name ends in
    [_pct] and by [parse_float] otherwise, so a cell with a percent sign, or
    any other character that is no part of a number, under a column that is
    not named [_pct] is dropped. The two columns of a [HIGH_LOW_FIELDS]
    entry end in [_price] and in [_pct]. No source field is read twice:
    the fields of the two tables and the three categorical fields are all
    different. *)
Theorem field_map_conventions :
  (forall field col p, In (field, (col, p)) COMMON_FIELD_MAP ->
     (ends_with "_pct" col = true -> forall v, p v = parse_percent v)
     /\ (ends_with "_pct" col = false ->
           (forall v, p v = parse_float v)
           /\ forall s c, In c (list_ascii_of_string s) -> number_char c = false ->
                p (Some s) = Ok None))
  /\ (forall field pc dc, In (field, (pc, dc)) HIGH_LOW_FIELDS ->
        ends_with "_price" pc = true /\ ends_with "_pct" pc = false
        /\ ends_with "_pct" dc = true)
  /\ NoDup (map fst COMMON_FIELD_MAP ++ map fst HIGH_LOW_FIELDS
            ++ ["Sector"; "Industry"; "Country"]).
Proof.
  split; [|split].
  - intros field col p H. unfold COMMON_FIELD_MAP in H. simpl in H.
    repeat (destruct H as [H|H];
            [injection H as <- <- <-; split; intros E;
             first [ vm_compute in E; discriminate E
                   | reflexivity
                   | split; [reflexivity|exact parse_float_rejects] ]|]).
    contradiction.
  - intros field pc dc H. simpl in H.
    repeat (destruct H as [H|H]; [injection H as <- <- <-; repeat split; reflexivity|]).
    contradiction.
  - apply DictFacts.nodupb_sound. vm_compute. reflexivity.
Qed.

End FieldMap.

(** ** Runs that fail, and the frame of the runs that do not *)

Section RunFacts.
Import Frame FrameFacts Dict DictFacts Rows RecordFacts.

Variable World : Type.
Variable ticker_fundament : string -> World -> result RawQuote * World.
Variable utc_now_isoformat : World -> string * World.

(** Fetching for a list in two parts is fetching for the first part, then
    for the second from where the first left the source. *)
Lemma fetch_all_app pre rest w :
  fetch_all World ticker_fundament (pre ++ rest) w =
    match fetch_all World ticker_fundament pre w with
    | (Raise e, w1) => (Raise e, w1)
    | (Ok qs, w1) =>
        match fetch_all World ticker_fundament rest w1 with
        | (Ok qs', w2) => (Ok (qs ++ qs')%list, w2)
        | (Raise e, w2) => (Raise e, w2)
        end
    end.
Proof.
  revert w. induction pre as [|t pre IH]; intros w; simpl.
  - destruct (fetch_all World ticker_fundament rest w) as [[qs|e] w1]; reflexivity.
  - destruct (ticker_fundament t w) as [[q|e] w1]; [|reflexivity].
    rewrite IH. destruct (fetch_all World ticker_fundament pre w1) as [[qs|e] w2];
      [|reflexivity].
    destruct (fetch_all World ticker_fundament rest w2) as [[qs'|e] w3]; reflexivity.
Qed.

Lemma fetch_all_raise tickers w e w' :
  fetch_all World ticker_fundament tickers w = (Raise e, w') ->
  exists pre t post quotes w1,
    tickers = (pre ++ t :: post)%list
    /\ fetch_all World ticker_fundament pre w = (Ok quotes, w1)
    /\ ticker_fundament t w1 = (Raise e, w').
Proof.
  revert w. induction tickers as [|t tickers IH]; intros w; simpl; [discriminate|].
  destruct (ticker_fundament t w) as [[q|e0] w1] eqn:T.
  - destruct (fetch_all World ticker_fundament tickers w1) as [[qs|e1] w2] eqn:F;
      [discriminate|].
    intros [= <- <-].
    destruct (IH w1 F) as [pre [t' [post [quotes [w3 [E [P R]]]]]]].
    exists (t :: pre), t', post, (q :: quotes), w3. subst tickers. simpl.
    rewrite T, P. auto.
  - intros [= <- <-]. exists [], t, tickers, [], w. auto.
Qed.

(** X6. The first ticker the quote source fails on ends the run with the
    source's exception: the tickers after it are not fetched and the clock
    is not read. *)
Theorem collect_stops_at_first_failure
  (pre : list string) (t : string) (post : list string) (w : World)
  (quotes : list RawQuote) (w1 : World) (e : exn) (w2 : World) :
  fetch_all World ticker_fundament pre w = (Ok quotes, w1) ->
  ticker_fundament t w1 = (Raise e, w2) ->
  collect_quote_features World ticker_fundament utc_now_isoformat (pre ++ t :: post) w
  = (Raise e, w2)
  /\ counted_collect World ticker_fundament utc_now_isoformat (pre ++ t :: post) (w, 0%nat)
     = (Raise e, (w2, 0%nat)).
Proof.
  intros P T.
  assert (F : fetch_all World ticker_fundament (pre ++ t :: post) w = (Raise e, w2)).
  { rewrite fetch_all_app, P. simpl. now rewrite T. }
  split.
  - now rewrite collect_eq, F.
  - unfold counted_collect. now rewrite collect_eq, fetch_all_counted, F.
Qed.

(** X7. A run raises nothing of its own on a list that is not empty: what
    it raises is what the quote source raised, on the first ticker it failed
    on; on the empty list it raises [IndexError], after reading the clock. *)
Theorem collect_raises_only (tickers : list string) (w : World) (e : exn) (w' : World) :
  collect_quote_features World ticker_fundament utc_now_isoformat tickers w = (Raise e, w') ->
  (tickers = [] /\ e = IndexError /\ w' = snd (utc_now_isoformat w))
  \/ (exists pre t post quotes w1,
        tickers = (pre ++ t :: post)%list
        /\ fetch_all World ticker_fundament pre w = (Ok quotes, w1)
        /\ ticker_fundament t w1 = (Raise e, w')).
Proof.
  rewrite collect_eq.
  destruct (fetch_all World ticker_fundament tickers w) as [[quotes|e0] w1] eqn:F.
  - destruct (utc_now_isoformat w1) as [stamp w2] eqn:N.
    destruct tickers as [|t tickers]; [|discriminate].
    intros [= <- <-]. left. simpl in F. injection F as _ <-. now rewrite N.
  - intros [= <- <-]. right. now apply fetch_all_raise.
Qed.

Lemma insert_at_length {A : Type} (a : A) l : List.length (insert_at 1 a l) = S (List.length l).
Proof.
  unfold insert_at. rewrite length_app. cbn [List.length].
  rewrite length_firstn, length_skipn. lia.
Qed.

(** X8. The frame a run returns has the columns [ticker], [snapshot_utc],
    the three categorical columns and the target columns of the two tables in
    their declared order, no label twice, and every row has one cell per
    column. *)
Theorem collect_frame_shape (tickers : list string) (w : World) (df : DataFrame) (w' : World) :
  collect_quote_features World ticker_fundament utc_now_isoformat tickers w = (Ok df, w') ->
  columns df
  = ("ticker" :: "snapshot_utc" :: "sector" :: "industry" :: "country"
     :: map (fun e => fst (snd e)) COMMON_FIELD_MAP
     ++ flat_map (fun e => [fst (snd e); snd (snd e)]) HIGH_LOW_FIELDS)%list
  /\ NoDup (columns df)
  /\ List.length (columns df) = 41%nat
  /\ Forall (fun r => List.length r = List.length (columns df)) (rows df)
  /\ len df = List.length tickers.
Proof.
  rewrite collect_eq.
  destruct (fetch_all World ticker_fundament tickers w) as [[quotes|e0] w1] eqn:F;
    [|discriminate].
  destruct (utc_now_isoformat w1) as [stamp w2].
  destruct tickers as [|t tickers]; [discriminate|].
  intros [= <- <-]. split; [reflexivity|]. split.
  - apply nodupb_sound. vm_compute. reflexivity.
  - split; [reflexivity|]. split.
    + unfold snapshot_of. simpl rows. simpl columns.
      apply Forall_forall. intros r Hr.
      apply in_map_iff in Hr as [d [<- Hd]].
      unfold records_of in Hd. apply in_map_iff in Hd as [[t' q] [<- _]].
      rewrite !insert_at_length, length_map. reflexivity.
    + apply snapshot_of_len. eapply fetch_all_length. exact F.
Qed.




End RunFacts.

Lemma collect_stops_at_first_failure_witness :
  Demo.collect ["AAPL"; "XXXX"; "MSFT"] 0%nat = (Raise (QuoteSourceError "XXXX"), 0%nat)
  /\ counted_collect Demo.World Demo.ticker_fundament Demo.utc_now_isoformat
       ["AAPL"; "XXXX"; "MSFT"] (0%nat, 0%nat)
     = (Raise (QuoteSourceError "XXXX"), (0%nat, 0%nat)).
Proof.
  eapply (collect_stops_at_first_failure Demo.World Demo.ticker_fundament
            Demo.utc_now_isoformat ["AAPL"] "XXXX" ["MSFT"] 0%nat);
    vm_compute; reflexivity.
Defined.

Lemma collect_raises_only_witness :
  Demo.collect ["AAPL"; "XXXX"] 0%nat = (Raise (QuoteSourceError "XXXX"), 0%nat)
  /\ (exists pre t post quotes w1,
        ["AAPL"; "XXXX"] = (pre ++ t :: post)%list
        /\ fetch_all Demo.World Demo.ticker_fundament pre 0%nat = (Ok quotes, w1)
        /\ Demo.ticker_fundament t w1 = (Raise (QuoteSourceError "XXXX"), 0%nat)).
Proof.
  assert (H : Demo.collect ["AAPL"; "XXXX"] 0%nat = (Raise (QuoteSourceError "XXXX"), 0%nat))
    by (vm_compute; reflexivity).
  split; [exact H|].
  destruct (collect_raises_only Demo.World Demo.ticker_fundament Demo.utc_now_isoformat
              ["AAPL"; "XXXX"] 0%nat _ 0%nat H) as [[E _]|R]; [discriminate E|exact R].
Defined.

Lemma collect_frame_shape_witness :
  exists df,
    Demo.collect ["aapl"; "MSFT"] 0%nat = (Ok df, 1%nat)
    /\ List.length (Frame.columns df) = 41%nat
    /\ NoDup (Frame.columns df)
    /\ Frame.len df = 2%nat.
Proof.
  eexists. split; [vm_compute; reflexivity|].
  assert (S := collect_frame_shape Demo.World Demo.ticker_fundament Demo.utc_now_isoformat
                 ["aapl"; "MSFT"] 0%nat _ 1%nat ltac:(vm_compute; reflexivity)).
  destruct S as [_ [N [L [_ R]]]]. split; [exact L|]. split; [exact N|exact R].
Defined.


(** ** The tickers of [main] *)

Module MainFacts.
Import Str StrFacts Text TextFacts.

Lemma split_on_aux_blank cur s :
  forallb all_space (split_on_aux "," cur s)
  = (forallb is_space cur && blank_arg s)%bool.
Proof.
  unfold blank_arg. revert cur. induction s as [|c s IH]; intros cur; simpl.
  - now rewrite all_space_of_rev, !andb_true_r.
  - destruct (Ascii.eqb c ",") eqn:E; simpl.
    + now rewrite all_space_of_rev, IH.
    + rewrite IH. simpl. destruct (is_space c); simpl; [reflexivity|].
      now rewrite andb_false_r.
Qed.

Lemma filter_nil_forallb {A : Type} (f : A -> bool) l :
  filter f l = [] <-> forallb (fun x => negb (f x)) l = true.
Proof.
  induction l as [|a l IH]; simpl; [tauto|].
  destruct (f a); simpl; [split; discriminate|exact IH].
Qed.

Lemma main_tickers_nil arg : main_tickers arg = [] <-> blank_arg arg = true.
Proof.
  unfold main_tickers. split.
  - intros H. apply map_eq_nil in H. apply filter_nil_forallb in H.
    pose proof (split_on_aux_blank [] arg) as B. simpl in B. rewrite <- B.
    unfold split_on in H. rewrite forallb_forall in *. intros t Ht.
    apply strip_blank. apply negb_true_iff. now apply H.
  - intros H. pose proof (split_on_aux_blank [] arg) as B. simpl in B.
    rewrite H in B. 
    assert (F : filter (fun t => nonempty (strip t)) (split_on "," arg) = []).
    { apply filter_nil_forallb. unfold split_on. rewrite forallb_forall in *.
      intros t Ht. apply negb_true_iff. apply strip_blank. now apply B. }
    now rewrite F.
Qed.

Lemma upper_char_comma c : Ascii.eqb (upper_char c) "," = Ascii.eqb c ",".
Proof. destruct c as [[] [] [] [] [] [] [] []]; reflexivity. Qed.

Lemma upper_comma_free s : sep_free "," (upper s) = sep_free "," s.
Proof.
  unfold sep_free. induction s as [|c s IH]; simpl; [reflexivity|].
  now rewrite upper_char_comma, IH.
Qed.

(** What [main] keeps of the argument. *)
Lemma main_tickers_normal arg :
  Forall (fun t => nonempty t = true /\ strip t = t /\ upper t = t
                   /\ sep_free "," t = true)
         (main_tickers arg).
Proof.
  unfold main_tickers. apply Forall_forall. intros t Hin.
  apply in_map_iff in Hin as [t0 [<- Hin]]. apply filter_In in Hin as [Hin Hne].
  split; [now rewrite upper_nonempty|].
  split; [apply strip_id; rewrite upper_trimmed; apply strip_trimmed|].
  split; [apply upper_idem|].
  rewrite upper_comma_free. unfold strip, sep_free.
  apply rstrip_all_chars, lstrip_all_chars.
  pose proof (split_on_aux_free "," [] arg eq_refl) as F.
  rewrite Forall_forall in F. exact (F t0 Hin).
Qed.

End MainFacts.

Section MainRun.
Import Str StrFacts Text TextFacts MainFacts Frame.

Variable World : Type.
Variable ticker_fundament : string -> World -> result RawQuote * World.
Variable utc_now_isoformat : World -> string * World.

(** X10. An argument of commas and white space alone, the empty one
    included, and no other, makes [main] exit before any quote is fetched or
    the clock is read; any other argument leaves at least one ticker and is
    passed on to [collect_quote_features]. *)
Theorem main_exits_on_blank (arg : string) (w : World) :
  (blank_arg arg = true ->
     main_collect World ticker_fundament utc_now_isoformat arg w
     = (Raise (SystemExit "No tickers provided"), w))
  /\ (blank_arg arg = false ->
        main_tickers arg <> []
        /\ main_collect World ticker_fundament utc_now_isoformat arg w
           = collect_quote_features World ticker_fundament utc_now_isoformat
               (main_tickers arg) w).
Proof.
  split.
  - intros H. apply main_tickers_nil in H. unfold main_collect. now rewrite H.
  - intros H.
    assert (N : main_tickers arg <> []).
    { intros E. apply main_tickers_nil in E. congruence. }
    split; [exact N|]. unfold main_collect.
    destruct (main_tickers arg); [congruence|reflexivity].
Qed.

(** X11. Normalising is idempotent: the tickers [main] keeps, joined
    with commas and given to [main] again, come back as they are, in the
    same order. *)
Theorem main_tickers_round_trip (arg : string) :
  main_tickers (String.concat "," (main_tickers arg)) = main_tickers arg.
Proof.
  pose proof (main_tickers_normal arg) as F.
  destruct (main_tickers arg) as [|t l] eqn:E; [reflexivity|].
  unfold main_tickers at 1. rewrite (split_on_concat ",").
  - clear E. induction F as [|u l' [Hn [Hs [Hu _]]] F IH]; [reflexivity|].
    simpl. rewrite Hs, Hn. simpl. rewrite Hs, Hu. f_equal. exact IH.
  - discriminate.
  - eapply Forall_impl; [|exact F]. intros u H. apply H.
Qed.

(** X12. The frame [main] gets has one row per ticker it kept, and the
    ticker column of row [i] is the [i]-th of them, as normalised. *)
Theorem main_collect_tickers (arg : string) (w : World) (df : DataFrame) (w' : World) :
  main_collect World ticker_fundament utc_now_isoformat arg w = (Ok df, w') ->
  len df = List.length (main_tickers arg)
  /\ forall i t, nth_error (main_tickers arg) i = Some t ->
       cell df i "ticker" = Some (VStr t).
Proof.
  unfold main_collect. destruct (main_tickers arg) as [|t0 l] eqn:E; [discriminate|].
  rewrite collect_eq.
  destruct (fetch_all World ticker_fundament (t0 :: l) w) as [[quotes|e] w1] eqn:F;
    [|discriminate].
  destruct (utc_now_isoformat w1) as [stamp w2]. intros [= <- <-].
  pose proof (fetch_all_length _ _ _ _ _ _ F) as Hlen.
  split; [now apply snapshot_of_len|].
  intros i t Hi.
  pose proof (main_tickers_normal arg) as N. rewrite E, Forall_forall in N.
  destruct (N t (nth_error_In _ _ Hi)) as [_ [Hs [Hu _]]].
  destruct (snapshot_of_cells stamp (t0 :: l) quotes i t Hlen Hi) as [_ C].
  now rewrite C, Hu.
Qed.

End MainRun.

Lemma main_exits_on_blank_witness :
  main_collect Demo.World Demo.ticker_fundament Demo.utc_now_isoformat " , ," 0%nat
  = (Raise (SystemExit "No tickers provided"), 0%nat).
Proof.
  exact (proj1 (main_exits_on_blank Demo.World Demo.ticker_fundament
                  Demo.utc_now_isoformat " , ," 0%nat) eq_refl).
Defined.

Lemma main_collect_tickers_witness :
  exists df,
    main_collect Demo.World Demo.ticker_fundament Demo.utc_now_isoformat
      "aapl, ,msft" 0%nat = (Ok df, 1%nat)
    /\ Frame.len df = 2%nat
    /\ Frame.cell df 1 "ticker" = Some (VStr "MSFT").
Proof.
  eexists. split; [vm_compute; reflexivity|].
  destruct (main_collect_tickers Demo.World Demo.ticker_fundament Demo.utc_now_isoformat
              "aapl, ,msft" 0%nat _ 1%nat ltac:(vm_compute; reflexivity)) as [L C].
  split; [exact L|]. exact (C 1%nat "MSFT" eq_refl).
Defined.

(** * Properties of the dashboard *)

(** ** Dicts: assignment *)

Module DictSetFacts.
Import Dict DictFacts.

Lemma get_set_same {V : Type} k (v : V) d : get k (set k v d) = Some v.
Proof.
  induction d as [|[k' v'] d IH]; simpl; [now rewrite String.eqb_refl|].
  destruct (String.eqb k k') eqn:E; simpl; rewrite E; [reflexivity|exact IH].
Qed.

Lemma get_set_other {V : Type} k k' (v : V) d :
  k <> k' -> get k (set k' v d) = get k d.
Proof.
  intros N. induction d as [|[k0 v0] d IH]; simpl.
  - apply String.eqb_neq in N. now rewrite N.
  - destruct (String.eqb k' k0) eqn:E; simpl.
    + apply String.eqb_eq in E. subst k0.
      apply String.eqb_neq in N. now rewrite N.
    + now rewrite IH.
Qed.

Lemma keys_set {V : Type} k (v : V) d : keys (set k v d) = Frame.add_key (keys d) k.
Proof.
  unfold Frame.add_key. induction d as [|[k0 v0] d IH]; simpl; [reflexivity|].
  destruct (String.eqb k k0) eqn:E; simpl; [reflexivity|].
  rewrite IH. unfold Str.mem. now destruct (existsb (String.eqb k) (keys d)).
Qed.

Lemma get_None {V : Type} k (d : Dict.t V) : ~ In k (keys d) -> get k d = None.
Proof.
  induction d as [|[k0 v0] d IH]; simpl; [reflexivity|].
  intros H. destruct (String.eqb k k0) eqn:E.
  - apply String.eqb_eq in E. subst. tauto.
  - apply IH. tauto.
Qed.

Lemma add_key_NoDup l k : NoDup l -> NoDup (Frame.add_key l k).
Proof.
  intros N. unfold Frame.add_key. destruct (Str.mem k l) eqn:M; [exact N|].
  apply NoDup_app; [exact N|repeat constructor; simpl; tauto|].
  intros x Hx [<-|[]]. apply mem_In in Hx. congruence.
Qed.

Lemma add_keys_NoDup ks l : NoDup l -> NoDup (fold_left Frame.add_key ks l).
Proof.
  revert l. induction ks as [|k ks IH]; intros l N; simpl; [exact N|].
  apply IH. now apply add_key_NoDup.
Qed.

Lemma add_keys_prefix ks l : exists extra, fold_left Frame.add_key ks l = (l ++ extra)%list.
Proof.
  revert l. induction ks as [|k ks IH]; intros l; simpl.
  - exists []. now rewrite app_nil_r.
  - destruct (IH (Frame.add_key l k)) as [extra E]. rewrite E.
    unfold Frame.add_key. destruct (Str.mem k l).
    + now exists extra.
    + exists (k :: extra). now rewrite <- app_assoc.
Qed.

Lemma add_keys_In ks l k : In k ks \/ In k l -> In k (fold_left Frame.add_key ks l).
Proof.
  revert l. induction ks as [|k0 ks IH]; intros l; simpl; [tauto|].
  intros H. apply IH.
  destruct (String.eqb_spec k k0) as [->|N].
  - right. unfold Frame.add_key. destruct (Str.mem k0 l) eqn:M.
    + now apply mem_In.
    + apply in_or_app. right. now left.
  - destruct H as [[H|H]|H]; [congruence|now left|].
    right. unfold Frame.add_key. destruct (Str.mem k0 l); [exact H|].
    apply in_or_app. now left.
Qed.

Lemma add_keys_In_inv ks seen n :
  In n (fold_left Frame.add_key ks seen) -> In n ks \/ In n seen.
Proof.
  revert seen. induction ks as [|k ks IH]; intros s H; simpl in *; [tauto|].
  apply IH in H as [H|H]; [tauto|].
  unfold Frame.add_key in H. destruct (Str.mem k s); [tauto|].
  apply in_app_or in H as [H|[H|[]]]; tauto.
Qed.

Lemma get_in_keys {V : Type} k (d : Dict.t V) : In k (keys d) -> get k d <> None.
Proof.
  induction d as [|[k0 v0] d IH]; simpl; [tauto|].
  destruct (String.eqb_spec k k0) as [->|N]; [discriminate|].
  intros [H|H]; [congruence|auto].
Qed.

Lemma find_snoc {A : Type} (f : A -> bool) (l : list A) (x : A) :
  find f (l ++ [x])
  = match find f l with
    | Some y => Some y
    | None => if f x then Some x else None
    end.
Proof.
  induction l as [|y l IH]; simpl; [reflexivity|]. now destruct (f y).
Qed.

End DictSetFacts.

(** ** Importing qlib and loading a pickle *)

Section Loaders.
Import Dashboard.

Variable World : Type.
Variable Module : Type.
Variable Obj : Type.
Variable import_module : string -> World -> outcome Module * World.
Variable hasattr : Module -> string -> World -> bool.
Variable setattr : Module -> string -> string -> World -> World.
Variable path_exists : Path -> World -> bool.
Variable unpickle : Path -> World -> outcome (option Obj) * World.


(** X13. Once [ensure_qlib_ready] has returned [True], every later call
    returns [True] at once, whatever has become of the outside world: no
    import is tried, nothing is written to the page, no state changes. *)
Theorem ensure_qlib_ready_sticks (app : App) (w : World) (app1 : App) (w1 : World) :
  ensure_qlib_ready World Module import_module hasattr setattr app w
  = (Return true, app1, w1) ->
  QLIB_READY app1 = Some true
  /\ warnings app1 = warnings app
  /\ forall w', ensure_qlib_ready World Module import_module hasattr setattr app1 w'
                = (Return true, app1, w').
Proof.
  unfold ensure_qlib_ready. destruct (ready app) eqn:R.
  - intros [= <- <-]. split.
    + unfold ready in R. destruct (QLIB_READY app) as [[|]|]; congruence.
    + split; [reflexivity|]. intros w'. now rewrite R.
  - destruct (import_module "qlib" w) as [[m|[err|err]] w2]; try discriminate.
    intros [= <- <-]. split; [reflexivity|]. split; [reflexivity|]. reflexivity.
Qed.

(** X14. A failure is not remembered as final: after [ensure_qlib_ready]
    has returned [False], with one warning on the page, the next call tries
    the import again; it returns [True] if the import now works, and warns a
    second time if it fails again. *)
Theorem ensure_qlib_ready_retries (app : App) (w : World) (app1 : App) (w1 : World) :
  ensure_qlib_ready World Module import_module hasattr setattr app w
  = (Return false, app1, w1) ->
  QLIB_READY app1 = Some false
  /\ (exists err,
        import_module "qlib" w = (Throw (Exception err), w1)
        /\ warnings app1
           = (warnings app
              ++ [("Unable to import qlib for artifact deserialization: " ++ err)%string])%list)
  /\ (forall w' m w2, import_module "qlib" w' = (Return m, w2) ->
        fst (fst (ensure_qlib_ready World Module import_module hasattr setattr app1 w'))
        = Return true)
  /\ (forall w' err w2, import_module "qlib" w' = (Throw (Exception err), w2) ->
        exists app2,
          ensure_qlib_ready World Module import_module hasattr setattr app1 w'
          = (Return false, app2, w2)
          /\ List.length (warnings app2) = S (List.length (warnings app1))).
Proof.
  unfold ensure_qlib_ready. destruct (ready app) eqn:R; [discriminate|].
  destruct (import_module "qlib" w) as [[m|[err|err]] w2] eqn:I; try discriminate.
  intros [= <- <-]. split; [reflexivity|]. split; [exists err; now split|]. split.
  - intros w' m w3 I'. simpl. now rewrite I'.
  - intros w' err' w3 I'. simpl. rewrite I'. eexists. split; [reflexivity|].
    simpl. rewrite !length_app. simpl. lia.
Qed.

(** X15. When qlib is not ready yet and the import works,
    [ensure_qlib_ready] returns [True] and the module has a [__version__]
    afterwards: its own if it had one, which is left as it is, and ["0.0"]
    otherwise. *)
Theorem ensure_qlib_ready_version (app : App) (w : World) (m : Module) (w1 : World) :
  (forall a v w0, hasattr m a (setattr m a v w0) = true) ->
  ready app = false ->
  import_module "qlib" w = (Return m, w1) ->
  exists app' w2,
    ensure_qlib_ready World Module import_module hasattr setattr app w
    = (Return true, app', w2)
    /\ hasattr m "__version__" w2 = true
    /\ (hasattr m "__version__" w1 = true -> w2 = w1)
    /\ (hasattr m "__version__" w1 = false -> w2 = setattr m "__version__" "0.0" w1).
Proof.
  intros Law R I. unfold ensure_qlib_ready. rewrite R, I.
  eexists. eexists. split; [reflexivity|].
  destruct (hasattr m "__version__" w1) eqn:H; simpl.
  - rewrite H. repeat split; congruence.
  - rewrite Law. repeat split; congruence.
Qed.

(** X16. [ensure_qlib_ready] raises no [Exception]; what it returns is the
    truth value [_QLIB_READY] has afterwards; and an exception of the import
    that is no [Exception] goes through it with the state as it was. *)
Theorem ensure_qlib_ready_outcomes (app : App) (w : World) :
  match ensure_qlib_ready World Module import_module hasattr setattr app w with
  | (Return b, app1, _) => ready app1 = b
  | (Throw (Exception _), _, _) => False
  | (Throw (Exit err), app1, w1) =>
      app1 = app /\ import_module "qlib" w = (Throw (Exit err), w1)
  end.
Proof.
  unfold ensure_qlib_ready. destruct (ready app) eqn:R; [exact R|].
  destruct (import_module "qlib" w) as [[m|[err|err]] w2]; simpl; auto.
Qed.

Lemma ensure_no_exception app w :
  match ensure_qlib_ready World Module import_module hasattr setattr app w with
  | (Throw (Exception _), _, _) => False
  | (Return b, app1, _) => ready app1 = b
  | _ => True
  end.
Proof.
  unfold ensure_qlib_ready. destruct (ready app) eqn:R; [exact R|].
  destruct (import_module "qlib" w) as [[m|[err|err]] w2]; simpl; auto.
Qed.


(** X18. The order of the checks of [load_pickle]. For a file that does
    not exist nothing at all happens, qlib or not: no import, no warning.
    For a file that exists and needs qlib, a failed import gives [None] with
    the import's warning alone, and the file is not opened. With qlib ready,
    needing it changes nothing. *)
Theorem load_pickle_gates (path : Path) (app : App) (w : World) :
  (path_exists path w = false ->
     forall require_qlib,
       load_pickle World Module Obj import_module hasattr setattr path_exists unpickle
         path require_qlib app w = (Return None, app, w))
  /\ (path_exists path w = true -> ready app = false ->
        forall err w1, import_module "qlib" w = (Throw (Exception err), w1) ->
          load_pickle World Module Obj import_module hasattr setattr path_exists unpickle
            path true app w
          = (Return None,
             set_QLIB_READY false
               (st_warning ("Unable to import qlib for artifact deserialization: " ++ err)
                           app),
             w1))
  /\ (ready app = true ->
        load_pickle World Module Obj import_module hasattr setattr path_exists unpickle
          path true app w
        = load_pickle World Module Obj import_module hasattr setattr path_exists unpickle
            path false app w).
Proof.
  split; [|split].
  - intros E rq. unfold load_pickle. now rewrite E.
  - intros E R err w1 I. unfold load_pickle, ensure_qlib_ready. now rewrite E, R, I.
  - intros R. unfold load_pickle, ensure_qlib_ready. rewrite R.
    destruct (path_exists path w); reflexivity.
Qed.

End Loaders.

Section LoaderRuns.
Import Dashboard DashDemo.

Lemma ensure_qlib_ready_sticks_witness :
  QLIB_READY (set_QLIB_READY true fresh) = Some true
  /\ warnings (set_QLIB_READY true fresh) = warnings fresh
  /\ forall w',
       ensure_qlib_ready Host unit import_module hasattr setattr
         (set_QLIB_READY true fresh) w'
       = (Return true, set_QLIB_READY true fresh, w').
Proof.
  exact (ensure_qlib_ready_sticks Host unit import_module hasattr setattr
           fresh 1%nat (set_QLIB_READY true fresh) 2%nat eq_refl).
Defined.

Lemma ensure_qlib_ready_retries_witness :
  exists app1,
    ensure_qlib_ready Host unit import_module hasattr setattr fresh 0%nat
    = (Return false, app1, 1%nat)
    /\ QLIB_READY app1 = Some false
    /\ fst (fst (ensure_qlib_ready Host unit import_module hasattr setattr app1 1%nat))
       = Return true.
Proof.
  eexists. split; [reflexivity|].
  destruct (ensure_qlib_ready_retries Host unit import_module hasattr setattr
              fresh 0%nat _ 1%nat eq_refl) as [Q [_ [T _]]].
  split; [exact Q|]. exact (T 1%nat tt 1%nat eq_refl).
Defined.

Lemma ensure_qlib_ready_version_witness :
  exists app' w2,
    ensure_qlib_ready Host unit import_module hasattr setattr fresh 1%nat
    = (Return true, app', w2)
    /\ hasattr tt "__version__" w2 = true
    /\ (hasattr tt "__version__" 1%nat = true -> w2 = 1%nat)
    /\ (hasattr tt "__version__" 1%nat = false -> w2 = setattr tt "__version__" "0.0" 1%nat).
Proof.
  exact (ensure_qlib_ready_version Host unit import_module hasattr setattr
           fresh 1%nat tt 1%nat (fun _ _ _ => eq_refl) eq_refl eq_refl).
Defined.

Lemma load_pickle_gates_witness :
  load_pickle Host unit string import_module hasattr setattr path_exists unpickle
    (parse "/mlruns/1/abc/artifacts/nothing.pkl") true fresh 0%nat
  = (Return None, fresh, 0%nat).
Proof.
  exact (proj1 (load_pickle_gates Host unit string import_module hasattr setattr
                  path_exists unpickle (parse "/mlruns/1/abc/artifacts/nothing.pkl")
                  fresh 0%nat) eq_refl true).
Defined.

End LoaderRuns.

(** ** The path of an artifact *)

Module PathFacts.
Import Str Text TextFacts Dashboard.

Lemma parse_plain s : plain_name s = true -> parse s = mkPath "" [s].
Proof.
  unfold plain_name, parse. intros H. apply andb_prop in H as [C F].
  unfold split_on. rewrite (split_on_aux_run "/" [] s F). simpl. rewrite C.
  f_equal. destruct s as [|c s]; [reflexivity|].
  unfold sep_free in F. simpl in F. apply andb_prop in F as [F _].
  apply negb_true_iff in F. simpl. now rewrite F.
Qed.

Lemma joinpath_plain p s :
  plain_name s = true -> joinpath p s = mkPath (root p) (parts p ++ [s]).
Proof. intros H. unfold joinpath. now rewrite (parse_plain s H). Qed.

Lemma last_app_cons {A : Type} (l : list A) x m d : last (l ++ x :: m) d = last (x :: m) d.
Proof.
  induction l as [|y l IH]; [reflexivity|].
  change ((y :: l) ++ x :: m)%list with (y :: (l ++ x :: m))%list.
  cbn [last]. destruct (l ++ x :: m)%list eqn:E; [now destruct l|exact IH].
Qed.

Lemma name_joinpath p segment :
  root_of segment = "" -> parts (parse segment) <> [] ->
  name (joinpath p segment) = name (parse segment).
Proof.
  intros R N. unfold joinpath. cbn [root parse]. rewrite R. simpl nonempty. cbv iota.
  unfold name. cbn [parts].
  destruct (parts (parse segment)) as [|x m]; [congruence|apply last_app_cons].
Qed.

End PathFacts.

Section ArtifactPath.
Import Str Text TextFacts Dashboard PathFacts.

(** X19. The path of an artifact, for an experiment id and a run id
    that are one component each. A relative path is put, component by
    component, under [<tracking dir>/<experiment>/<run>/artifacts], with its
    empty and single-dot components dropped; a path that starts with a slash
    is taken as it is, and the tracking directory, the experiment and the
    run are ignored. In both cases the file name is the last component of
    the relative path. *)
Theorem artifact_path_layout (tracking_dir : Path) (experiment run relative_path : string) :
  plain_name experiment = true -> plain_name run = true ->
  get_run_artifact_path tracking_dir experiment run relative_path
  = (if nonempty (root_of relative_path) then parse relative_path
     else mkPath (root tracking_dir)
                 (parts tracking_dir ++ [experiment; run; "artifacts"]
                  ++ parts (parse relative_path)))
  /\ Forall (fun x => x <> "" /\ x <> "." /\ sep_free "/" x = true)
            (parts (parse relative_path))
  /\ (parts (parse relative_path) <> [] ->
        name (get_run_artifact_path tracking_dir experiment run relative_path)
        = name (parse relative_path)).
Proof.
  intros He Hr.
  assert (E : get_run_artifact_path tracking_dir experiment run relative_path
              = (if nonempty (root_of relative_path) then parse relative_path
                 else mkPath (root tracking_dir)
                             (parts tracking_dir ++ [experiment; run; "artifacts"]
                              ++ parts (parse relative_path)))).
  { unfold get_run_artifact_path.
    rewrite (joinpath_plain tracking_dir experiment He), (joinpath_plain _ run Hr),
      (joinpath_plain _ "artifacts" eq_refl).
    unfold joinpath. cbn [root parts parse].
    destruct (nonempty (root_of relative_path)); [reflexivity|].
    now rewrite <- !app_assoc. }
  split; [exact E|]. split.
  - unfold parse. cbn [parts]. apply Forall_forall. intros x Hx.
    apply filter_In in Hx as [Hin C]. unfold is_component in C.
    apply andb_prop in C as [C1 C2]. split; [now destruct x|].
    split; [intros ->; discriminate|].
    pose proof (split_on_aux_free "/" [] relative_path eq_refl) as F.
    rewrite Forall_forall in F. exact (F x Hin).
  - intros N. rewrite E. destruct (nonempty (root_of relative_path)); [reflexivity|].
    unfold name. cbn [parts].
    destruct (parts (parse relative_path)) as [|x m]; [congruence|].
    change (parts tracking_dir ++ [experiment; run; "artifacts"] ++ x :: m)%list
      with (parts tracking_dir ++ experiment :: ([run; "artifacts"] ++ x :: m))%list.
    rewrite last_app_cons.
    change (experiment :: [run; "artifacts"] ++ x :: m)%list
      with ([experiment; run; "artifacts"] ++ x :: m)%list.
    now rewrite last_app_cons.
Qed.

Lemma artifact_path_layout_witness :
  get_run_artifact_path (parse "/mlruns") "1" "abc"
    "portfolio_analysis/report_normal_1day.pkl"
  = mkPath "/" ["mlruns"; "1"; "abc"; "artifacts"; "portfolio_analysis";
                "report_normal_1day.pkl"]
  /\ get_run_artifact_path (parse "/mlruns") "1" "abc" "/etc/passwd"
     = mkPath "/" ["etc"; "passwd"].
Proof.
  split.
  - exact (proj1 (artifact_path_layout (parse "/mlruns") "1" "abc"
                    "portfolio_analysis/report_normal_1day.pkl" eq_refl eq_refl)).
  - exact (proj1 (artifact_path_layout (parse "/mlruns") "1" "abc" "/etc/passwd"
                    eq_refl eq_refl)).
Defined.

End ArtifactPath.

(** ** The artifacts of a run *)

Section RunDetails.
Import Dashboard Str Text TextFacts PathFacts.

Variable World : Type.
Variable Module : Type.
Variable Obj : Type.
Variable import_module : string -> World -> outcome Module * World.
Variable hasattr : Module -> string -> World -> bool.
Variable setattr : Module -> string -> string -> World -> World.
Variable path_exists : Path -> World -> bool.
Variable unpickle : Path -> World -> outcome (option Obj) * World.

Lemma ensure_appends app w :
  match ensure_qlib_ready World Module import_module hasattr setattr app w with
  | (_, app1, _) => exists later, warnings app1 = (warnings app ++ later)%list
  end.
Proof.
  unfold ensure_qlib_ready. destruct (ready app); [exists []; now rewrite app_nil_r|].
  destruct (import_module "qlib" w) as [[m|[err|err]] w2]; simpl.
  - exists []. now rewrite app_nil_r.
  - eexists. reflexivity.
  - exists []. now rewrite app_nil_r.
Qed.

Lemma load_pickle_appends path require_qlib app w :
  match load_pickle World Module Obj import_module hasattr setattr path_exists unpickle
          path require_qlib app w with
  | (Throw (Exception _), _, _) => False
  | (_, app1, _) => exists later, warnings app1 = (warnings app ++ later)%list
  end.
Proof.
  assert (Z : forall l : list string, exists later, l = (l ++ later)%list)
    by (intros l; exists []; now rewrite app_nil_r).
  unfold load_pickle. destruct (path_exists path w); simpl; [|apply Z].
  destruct require_qlib.
  - pose proof (ensure_no_exception World Module import_module hasattr setattr app w) as N.
    pose proof (ensure_appends app w) as A.
    destruct (ensure_qlib_ready World Module import_module hasattr setattr app w)
      as [[[b|[err|err]] app1] w1]; [|contradiction|exact A].
    destruct b; simpl; [|exact A]. destruct A as [l1 A].
    destruct (unpickle path w1) as [[obj|[err|err]] w2]; simpl.
    + destruct obj; now exists l1.
    + exists (l1 ++ [("Failed to load " ++ name path ++ ": " ++ err)%string])%list.
      now rewrite A, app_assoc.
    + now exists l1.
  - destruct (unpickle path w) as [[obj|[err|err]] w2]; simpl.
    + destruct obj; apply Z.
    + eexists. reflexivity.
    + apply Z.
Qed.

Lemma load_pickle_plain path app w :
  QLIB_READY (snd (fst (load_pickle World Module Obj import_module hasattr setattr
                          path_exists unpickle path false app w)))
  = QLIB_READY app.
Proof.
  unfold load_pickle. destruct (path_exists path w); simpl; [|reflexivity].
  destruct (unpickle path w) as [[obj|[err|err]] w2]; reflexivity.
Qed.

(** X20. A report that is there but cannot be read is reported as not
    found. When the file of the report exists and the unpickler fails on it,
    [render_run_details] draws nothing and leaves two warnings about it on
    the page: first that [report_normal_1day.pkl] failed to load, with the
    reason, and last, after the other two artifacts have been tried, that
    it was not found. *)
Theorem render_unreadable_report (tracking_dir : Path) (experiment_id run_id : string)
  (app : App) (w : World) (err : string) (w1 : World) :
  path_exists (get_run_artifact_path tracking_dir experiment_id run_id
                 "portfolio_analysis/report_normal_1day.pkl") w = true ->
  unpickle (get_run_artifact_path tracking_dir experiment_id run_id
              "portfolio_analysis/report_normal_1day.pkl") w
  = (Throw (Exception err), w1) ->
  match render_run_details_loads World Module Obj import_module hasattr setattr
          path_exists unpickle tracking_dir experiment_id run_id app w with
  | (Return loaded, app', _) =>
      loaded = None
      /\ exists later,
           warnings app'
           = (warnings app
              ++ [("Failed to load report_normal_1day.pkl: " ++ err)%string]
              ++ later
              ++ ["report_normal_1day.pkl not found for this run."])%list
  | (Throw (Exception _), _, _) => False
  | (Throw (Exit _), _, _) => True
  end.
Proof.
  intros E U. unfold render_run_details_loads.
  assert (L : load_pickle World Module Obj import_module hasattr setattr path_exists unpickle
                (get_run_artifact_path tracking_dir experiment_id run_id
                   "portfolio_analysis/report_normal_1day.pkl") false app w
              = (Return None,
                 st_warning ("Failed to load report_normal_1day.pkl: " ++ err) app, w1)).
  { unfold load_pickle. rewrite E, U. simpl. do 3 f_equal.
    unfold get_run_artifact_path.
    now rewrite name_joinpath by (vm_compute; congruence). }
  rewrite L.
  pose proof (load_pickle_appends
                (get_run_artifact_path tracking_dir experiment_id run_id
                   "portfolio_analysis/port_analysis_1day.pkl") false
                (st_warning ("Failed to load report_normal_1day.pkl: " ++ err) app) w1) as A2.
  destruct (load_pickle World Module Obj import_module hasattr setattr path_exists unpickle
              (get_run_artifact_path tracking_dir experiment_id run_id
                 "portfolio_analysis/port_analysis_1day.pkl") false _ w1)
    as [[[s|[e|e]] app2] w2]; [|contradiction|exact I].
  destruct A2 as [l2 A2].
  pose proof (load_pickle_appends
                (get_run_artifact_path tracking_dir experiment_id run_id
                   "portfolio_analysis/indicators_normal_1day_obj.pkl") true app2 w2) as A3.
  destruct (load_pickle World Module Obj import_module hasattr setattr path_exists unpickle
              (get_run_artifact_path tracking_dir experiment_id run_id
                 "portfolio_analysis/indicators_normal_1day_obj.pkl") true app2 w2)
    as [[[i|[e|e]] app3] w3]; [|contradiction|exact I].
  destruct A3 as [l3 A3]. split; [reflexivity|].
  exists (l2 ++ l3)%list. simpl. rewrite A3, A2. simpl.
  now rewrite <- !app_assoc.
Qed.

(** X21. Of the three artifacts only the indicators need qlib:
    [render_run_details] tries the import only once it has found their
    file. When that file does not exist, [_QLIB_READY] is left as it
    was, whatever becomes of the report and the summary. *)
Theorem render_imports_for_indicators (tracking_dir : Path) (experiment_id run_id : string)
  (app : App) (w : World) :
  (forall w', path_exists (get_run_artifact_path tracking_dir experiment_id run_id
                             "portfolio_analysis/indicators_normal_1day_obj.pkl") w'
              = false) ->
  QLIB_READY (snd (fst (render_run_details_loads World Module Obj import_module hasattr
                          setattr path_exists unpickle tracking_dir experiment_id run_id
                          app w)))
  = QLIB_READY app.
Proof.
  intros E. unfold render_run_details_loads.
  pose proof (load_pickle_plain
                (get_run_artifact_path tracking_dir experiment_id run_id
                   "portfolio_analysis/report_normal_1day.pkl") app w) as P1.
  destruct (load_pickle World Module Obj import_module hasattr setattr path_exists unpickle
              (get_run_artifact_path tracking_dir experiment_id run_id
                 "portfolio_analysis/report_normal_1day.pkl") false app w)
    as [[[r|e] app1] w1]; [|exact P1].
  pose proof (load_pickle_plain
                (get_run_artifact_path tracking_dir experiment_id run_id
                   "portfolio_analysis/port_analysis_1day.pkl") app1 w1) as P2.
  destruct (load_pickle World Module Obj import_module hasattr setattr path_exists unpickle
              (get_run_artifact_path tracking_dir experiment_id run_id
                 "portfolio_analysis/port_analysis_1day.pkl") false app1 w1)
    as [[[s|e] app2] w2]; simpl in *; [|congruence].
  unfold load_pickle at 1. rewrite E. simpl.
  destruct r; simpl; congruence.
Qed.

End RunDetails.

Section RunDetailsRuns.
Import Dashboard DashDemo.

Lemma render_unreadable_report_witness :
  match render_run_details_loads Host unit string import_module hasattr setattr
          path_exists unpickle_damaged (parse "/mlruns") "1" "abc" fresh 1%nat with
  | (Return loaded, app', _) =>
      loaded = None
      /\ exists later,
           warnings app'
           = (warnings fresh
              ++ ["Failed to load report_normal_1day.pkl: pickle data was truncated"]
              ++ later
              ++ ["report_normal_1day.pkl not found for this run."])%list
  | (Throw (Exception _), _, _) => False
  | (Throw (Exit _), _, _) => True
  end.
Proof.
  exact (render_unreadable_report Host unit string import_module hasattr setattr
           path_exists unpickle_damaged (parse "/mlruns") "1" "abc" fresh 1%nat
           "pickle data was truncated" 1%nat eq_refl eq_refl).
Defined.

Lemma render_imports_for_indicators_witness :
  QLIB_READY (snd (fst (render_run_details_loads Host unit string import_module hasattr
                          setattr path_exists unpickle (parse "/mlruns") "1" "abc"
                          fresh 0%nat)))
  = None.
Proof.
  exact (render_imports_for_indicators Host unit string import_module hasattr setattr
           path_exists unpickle (parse "/mlruns") "1" "abc" fresh 0%nat
           (fun _ => eq_refl)).
Defined.

End RunDetailsRuns.

(** ** Experiments and runs *)

Module TableFacts.
Import Dashboard Dict DictFacts DictSetFacts.

Lemma keys_update {A V : Type} (wrap : A -> V) other d :
  keys (update wrap other d) = fold_left Frame.add_key (keys other) (keys d).
Proof.
  unfold update. revert d. induction other as [|[k a] other IH]; intros d; simpl;
    [reflexivity|].
  now rewrite IH, keys_set.
Qed.

Lemma get_update {A V : Type} (wrap : A -> V) other d k :
  NoDup (keys other) ->
  get k (update wrap other d)
  = match get k other with
    | Some a => Some (wrap a)
    | None => get k d
    end.
Proof.
  unfold update. revert d. induction other as [|[k0 a0] other IH]; intros d N; simpl;
    [reflexivity|].
  inversion N as [|? ? Hk N']; subst. rewrite (IH _ N').
  destruct (String.eqb k k0) eqn:E.
  - apply String.eqb_eq in E. subst k0.
    now rewrite (get_None k other Hk), get_set_same.
  - apply String.eqb_neq in E. now rewrite get_set_other.
Qed.

Lemma table_columns_prefix records seen :
  exists extra,
    fold_left (fun seen (r : Dict.t datum) => fold_left Frame.add_key (keys r) seen)
              records seen
    = (seen ++ extra)%list.
Proof.
  revert seen. induction records as [|r records IH]; intros seen; simpl.
  - exists []. now rewrite app_nil_r.
  - destruct (add_keys_prefix (keys r) seen) as [e1 E1]. rewrite E1.
    destruct (IH (seen ++ e1)%list) as [e2 E2]. rewrite E2.
    exists (e1 ++ e2)%list. now rewrite <- app_assoc.
Qed.

Lemma table_columns_NoDup records seen :
  NoDup seen ->
  NoDup (fold_left (fun seen (r : Dict.t datum) => fold_left Frame.add_key (keys r) seen)
                   records seen).
Proof.
  revert seen. induction records as [|r records IH]; intros seen N; simpl; [exact N|].
  apply IH. now apply add_keys_NoDup.
Qed.

Lemma fold_set_get (l : list Experiment) d n :
  get n (fold_left (fun d e => set (exp_name e) (experiment_id e) d) l d)
  = match find (fun e => String.eqb (exp_name e) n) (rev l) with
    | Some e => Some (experiment_id e)
    | None => get n d
    end.
Proof.
  revert d. induction l as [|e l IH]; intros d; simpl; [reflexivity|].
  rewrite IH, find_snoc.
  destruct (find (fun e0 => String.eqb (exp_name e0) n) (rev l)); [reflexivity|].
  destruct (String.eqb_spec (exp_name e) n) as [<-|N].
  - apply get_set_same.
  - apply get_set_other. congruence.
Qed.

Lemma fold_set_keys (l : list Experiment) d :
  keys (fold_left (fun d e => set (exp_name e) (experiment_id e) d) l d)
  = fold_left Frame.add_key (map exp_name l) (keys d).
Proof.
  revert d. induction l as [|e l IH]; intros d; simpl; [reflexivity|].
  now rewrite IH, keys_set.
Qed.

End TableFacts.

Section Experiments.
Import Dashboard Dict DictFacts DictSetFacts TableFacts.

Variable World : Type.
Variable Client : Type.
Variable search_experiments : Client -> World -> outcome (list Experiment) * World.

(** X22. Of several experiments with one name the dict of
    [list_experiments] keeps the last: a name maps to the id of the last
    experiment so named, the keys are the names of the search, and no key
    comes twice. *)
Theorem experiments_dict_last_wins (experiments : list Experiment) (n : string) :
  get n (experiments_dict experiments)
  = option_map experiment_id
      (find (fun e => String.eqb (exp_name e) n) (rev experiments))
  /\ NoDup (keys (experiments_dict experiments))
  /\ (In n (keys (experiments_dict experiments)) <-> In n (map exp_name experiments)).
Proof.
  unfold experiments_dict. split; [|split].
  - rewrite fold_set_get. now destruct (find _ _).
  - rewrite fold_set_keys. apply add_keys_NoDup. constructor.
  - rewrite fold_set_keys. split.
    + intros H. apply add_keys_In_inv in H as [H|[]]. exact H.
    + intros H. apply add_keys_In. now left.
Qed.

(** X23. [list_experiments] asks the store once: after a call that
    returned, every later call returns the same dict without a search, for
    any client, so for any tracking directory, and whatever the store holds
    by then. A call that raised has stored nothing. *)
Theorem list_experiments_cached (client : Client) (app : App) (w : World)
  (result : outcome (Dict.t string)) (app1 : App) (w1 : World) :
  list_experiments World Client search_experiments client app w = (result, app1, w1) ->
  match result with
  | Return d =>
      forall client' w',
        list_experiments World Client search_experiments client' app1 w'
        = (Return d, app1, w')
  | Throw _ => app1 = app
  end.
Proof.
  unfold list_experiments. destruct (experiments_cache app) as [d|] eqn:C.
  - intros [= <- <- <-]. intros client' w'. now rewrite C.
  - destruct (search_experiments client w) as [[exps|e] w2].
    + intros [= <- <- <-]. reflexivity.
    + intros [= <- <- <-]. reflexivity.
Qed.

End Experiments.

Section RunsTable.
Import Dashboard Dict DictFacts DictSetFacts TableFacts.

Variable World : Type.
Variable Client : Type.
Variable search_runs : Client -> string -> World -> outcome (list Run) * World.
Variable to_datetime_ms : Z -> outcome datum.

(** X24. In the record of a run a metric hides a parameter of the same
    name, and both hide the four entries of the run itself: a parameter or a
    metric called [run_id], [start_time], [end_time] or [status] takes the
    place of the run's own. The start time is converted even when it is [0];
    the end time is converted only when it is neither [None] nor [0], and is
    [None] otherwise. *)
Theorem run_record_precedence (run : Run) (data : Dict.t datum) (k : string) :
  NoDup (keys (params run)) -> NoDup (keys (metrics run)) ->
  run_record to_datetime_ms run = Return data ->
  get k data
  = match get k (metrics run) with
    | Some v => Some (CFloat v)
    | None =>
        match get k (params run) with
        | Some s => Some (CStr s)
        | None =>
            if String.eqb k "run_id" then Some (CStr (run_id (info run)))
            else if String.eqb k "start_time" then
              match start_time (info run) with
              | Some ms => returned (to_datetime_ms ms)
              | None => Some CNone
              end
            else if String.eqb k "end_time" then
              match end_time (info run) with
              | Some 0 | None => Some CNone
              | Some ms => returned (to_datetime_ms ms)
              end
            else if String.eqb k "status" then Some (CStr (status (info run)))
            else None
        end
    end.
Proof.
  intros Np Nm. unfold run_record, and_then, to_datetime.
  destruct (match start_time (info run) with
            | Some ms => to_datetime_ms ms
            | None => Return CNone
            end) as [started|e] eqn:S; [|discriminate].
  destruct (if truthy (end_time (info run)) then _ else _) as [ended|e] eqn:E;
    [|discriminate].
  intros [= <-].
  rewrite (get_update CFloat _ _ k Nm), (get_update CStr _ _ k Np).
  destruct (get k (metrics run)); [reflexivity|].
  destruct (get k (params run)); [reflexivity|]. simpl.
  destruct (String.eqb k "run_id"); [reflexivity|].
  destruct (String.eqb k "start_time").
  { destruct (start_time (info run)); [now rewrite S|congruence]. }
  destruct (String.eqb k "end_time"); [|reflexivity].
  destruct (end_time (info run)) as [[|p|p]|]; simpl in E; try congruence;
    now rewrite E.
Qed.

Lemma keys_run_record run data :
  run_record to_datetime_ms run = Return data ->
  NoDup (keys data)
  /\ exists extra,
       keys data = ("run_id" :: "start_time" :: "end_time" :: "status" :: extra)%list.
Proof.
  unfold run_record, and_then.
  destruct (to_datetime _ _) as [started|e]; [|discriminate].
  destruct (if truthy _ then _ else _) as [ended|e]; [|discriminate].
  intros [= <-]. rewrite !keys_update. split.
  - apply add_keys_NoDup, add_keys_NoDup. simpl.
    apply nodupb_sound. reflexivity.
  - destruct (add_keys_prefix (keys (params run))
                ["run_id"; "start_time"; "end_time"; "status"]) as [e1 E1].
    simpl keys at 3. rewrite E1.
    destruct (add_keys_prefix (keys (metrics run))
                (["run_id"; "start_time"; "end_time"; "status"] ++ e1)) as [e2 E2].
    rewrite E2. exists (e1 ++ e2)%list. now rewrite <- app_assoc.
Qed.

Lemma run_records_nth runs records :
  run_records to_datetime_ms runs = Return records ->
  List.length records = List.length runs
  /\ forall i run, nth_error runs i = Some run ->
       exists data, nth_error records i = Some data
                    /\ run_record to_datetime_ms run = Return data.
Proof.
  revert records. induction runs as [|run0 runs IH]; intros records; simpl.
  - intros [= <-]. split; [reflexivity|]. intros [|i] run H; discriminate.
  - unfold and_then at 1.
    destruct (run_record to_datetime_ms run0) as [d0|e] eqn:R0; [|discriminate].
    unfold and_then.
    destruct (run_records to_datetime_ms runs) as [rs|e] eqn:Rs; [|discriminate].
    intros [= <-]. destruct (IH rs eq_refl) as [L N]. split; [simpl; now rewrite L|].
    intros [|i] run H; simpl in *.
    + injection H as <-. now exists d0.
    + now apply N.
Qed.

(** X25. The table of runs is empty exactly when the search found no run.
    Otherwise it has one row per run, in the order of the search; its first
    four columns are [run_id], [start_time], [end_time] and [status]; no
    label comes twice; every row has a datum under every label, whether the
    runs have the same parameters and metrics or not; and the first datum of
    a row is what the run's record has under [run_id]. *)
Theorem runs_table_shape (runs : list Run) (t : Table) :
  runs_table to_datetime_ms runs = Return t ->
  (table_empty t = true <-> runs = [])
  /\ List.length (rows t) = List.length runs
  /\ Forall (fun r => List.length r = List.length (columns t)) (rows t)
  /\ NoDup (columns t)
  /\ (runs <> [] -> firstn 4 (columns t) = ["run_id"; "start_time"; "end_time"; "status"])
  /\ (forall i run, nth_error runs i = Some run ->
        exists row data,
          nth_error (rows t) i = Some row
          /\ run_record to_datetime_ms run = Return data
          /\ hd_error row = get "run_id" data).
Proof.
  destruct runs as [|run0 runs].
  - simpl. intros [= <-]. simpl. repeat split; try constructor; try congruence.
    intros i run H. destruct i; discriminate.
  - unfold runs_table, and_then.
    destruct (run_records to_datetime_ms (run0 :: runs)) as [records|e] eqn:R;
      [|discriminate].
    intros [= <-]. destruct (run_records_nth _ _ R) as [L N].
    destruct records as [|d0 records]; [discriminate|].
    destruct (N 0%nat run0 eq_refl) as [d0' [E0 R0]]. injection E0 as <-.
    assert (C : exists extra,
               columns (table_of_records (d0 :: records))
               = ("run_id" :: "start_time" :: "end_time" :: "status" :: extra)%list).
    { cbn [table_of_records columns fold_left].
      destruct (keys_run_record _ _ R0) as [N0 [e0 E0]].
      rewrite (FrameFacts.add_keys_fresh (keys d0) [] N0). simpl app.
      destruct (table_columns_prefix records (keys d0)) as [e1 E1].
      rewrite E1, E0. now exists (e0 ++ e1)%list. }
    destruct C as [extra C].
    split; [|split; [|split; [|split; [|split]]]].
    + unfold table_empty. rewrite C. simpl. split; discriminate.
    + cbn [table_of_records rows]. now rewrite length_map.
    + cbn [table_of_records rows columns]. apply Forall_forall.
      intros r Hr. apply in_map_iff in Hr as [d [<- _]]. now rewrite length_map.
    + cbn [table_of_records columns]. apply table_columns_NoDup. constructor.
    + intros _. now rewrite C.
    + intros i run Hi. destruct (N i run Hi) as [data [Hd Rd]].
      unfold table_of_records at 1. cbn [rows].
      rewrite nth_error_map, Hd. simpl option_map.
      eexists. exists data. split; [reflexivity|]. split; [exact Rd|].
      cbn [table_of_records columns fold_left] in C. rewrite C. simpl.
      destruct (keys_run_record _ _ Rd) as [_ [e E]].
      assert (In "run_id" (keys data)) as Hin by (rewrite E; now left).
      apply get_in_keys in Hin. now destruct (get "run_id" data).
Qed.

Lemma run_records_app before rest records :
  run_records to_datetime_ms before = Return records ->
  run_records to_datetime_ms (before ++ rest)
  = and_then (run_records to_datetime_ms rest) (fun rs => Return (records ++ rs)%list).
Proof.
  revert records. induction before as [|run0 before IH]; intros records; simpl.
  - intros [= <-]. now destruct (run_records to_datetime_ms rest).
  - destruct (run_record to_datetime_ms run0) as [d0|e0]; [|discriminate]. simpl.
    destruct (run_records to_datetime_ms before) as [rb|e1]; [|discriminate]. simpl.
    intros [= <-]. rewrite (IH rb eq_refl).
    now destruct (run_records to_datetime_ms rest).
Qed.

Lemma run_records_raise runs e :
  run_records to_datetime_ms runs = Throw e ->
  exists before run after records,
    runs = (before ++ run :: after)%list
    /\ run_records to_datetime_ms before = Return records
    /\ run_record to_datetime_ms run = Throw e.
Proof.
  induction runs as [|run0 runs IH]; simpl; [discriminate|].
  destruct (run_record to_datetime_ms run0) as [d0|e0] eqn:R0; simpl.
  - destruct (run_records to_datetime_ms runs) as [rs|e1]; simpl; [discriminate|].
    intros [= ->]. destruct (IH eq_refl) as [before [run [after [records [-> [Hb Hr]]]]]].
    exists (run0 :: before), run, after, (d0 :: records). simpl.
    rewrite R0. simpl. rewrite Hb. now split.
  - intros [= ->]. exists [], run0, runs, []. now split.
Qed.

(** X26. The table of runs fails exactly when the conversion of a time
    fails, with the exception of the first run, in the order of the search,
    that has such a time: the runs before it are converted, the runs after
    it are not looked at. *)
Theorem runs_table_raises (runs : list Run) (e : error) :
  runs_table to_datetime_ms runs = Throw e
  <-> exists before run after records,
        runs = (before ++ run :: after)%list
        /\ run_records to_datetime_ms before = Return records
        /\ run_record to_datetime_ms run = Throw e.
Proof.
  assert (G : runs_table to_datetime_ms runs = Throw e
              <-> run_records to_datetime_ms runs = Throw e).
  { destruct runs as [|run0 runs]; [simpl; split; discriminate|].
    unfold runs_table, and_then.
    destruct (run_records to_datetime_ms (run0 :: runs)); split; congruence. }
  rewrite G. split; [apply run_records_raise|].
  intros [before [run [after [records [-> [Hb Hr]]]]]].
  rewrite (run_records_app _ _ _ Hb). simpl. now rewrite Hr.
Qed.

(** X27. [list_runs] asks the store once for each experiment id: after a
    call that returned, every later call with that id returns the same table
    without a search, for any client, and the tables stored for other ids
    are as they were. A call that raised has stored nothing. *)
Theorem list_runs_cached (client : Client) (experiment : string) (app : App) (w : World)
  (result : outcome Table) (app1 : App) (w1 : World) :
  list_runs World Client search_runs to_datetime_ms client experiment app w
  = (result, app1, w1) ->
  match result with
  | Return t =>
      (forall client' w',
         list_runs World Client search_runs to_datetime_ms client' experiment app1 w'
         = (Return t, app1, w'))
      /\ (forall other, other <> experiment ->
            get other (runs_cache app1) = get other (runs_cache app))
  | Throw _ => app1 = app
  end.
Proof.
  unfold list_runs. destruct (get experiment (runs_cache app)) as [t|] eqn:C.
  - intros [= <- <- <-]. split; [|reflexivity]. intros client' w'. now rewrite C.
  - destruct (search_runs client experiment w) as [[runs|e] w2].
    + destruct (runs_table to_datetime_ms runs) as [t|e].
      * intros [= <- <- <-]. split.
        -- intros client' w'. simpl. now rewrite get_set_same.
        -- intros other N. simpl. now apply get_set_other.
      * intros [= <- <- <-]. reflexivity.
    + intros [= <- <- <-]. reflexivity.
Qed.

End RunsTable.

Section DashboardRuns.
Import Dashboard DashDemo.

Lemma list_experiments_cached_witness :
  exists d app1,
    list_experiments Host unit search_experiments tt fresh 0%nat
    = (Return d, app1, 0%nat)
    /\ Dict.get "Default" d = Some "2"
    /\ forall client' w',
         list_experiments Host unit search_experiments client' app1 w'
         = (Return d, app1, w').
Proof.
  eexists. eexists. split; [reflexivity|]. split; [reflexivity|].
  exact (list_experiments_cached Host unit search_experiments tt fresh 0%nat
           (Return _) _ 0%nat eq_refl).
Defined.

Lemma run_record_precedence_witness :
  exists data,
    run_record to_datetime_ms run1 = Return data
    /\ Dict.get "status" data = Some (CStr "custom")
    /\ Dict.get "end_time" data = Some CNone
    /\ Dict.get "start_time" data = Some (CTime 1700000000000).
Proof.
  assert (Np : NoDup (Dict.keys (params run1)))
    by (apply DictFacts.nodupb_sound; reflexivity).
  assert (Nm : NoDup (Dict.keys (metrics run1)))
    by (apply DictFacts.nodupb_sound; reflexivity).
  eexists. split; [reflexivity|].
  split; [exact (run_record_precedence to_datetime_ms run1 _ "status" Np Nm eq_refl)|].
  split; [exact (run_record_precedence to_datetime_ms run1 _ "end_time" Np Nm eq_refl)|].
  exact (run_record_precedence to_datetime_ms run1 _ "start_time" Np Nm eq_refl).
Defined.

Lemma runs_table_shape_witness :
  exists t,
    runs_table to_datetime_ms [run1] = Return t
    /\ List.length (rows t) = 1%nat
    /\ firstn 4 (columns t) = ["run_id"; "start_time"; "end_time"; "status"]
    /\ columns t = ["run_id"; "start_time"; "end_time"; "status"; "lr"; "ic"].
Proof.
  eexists. split; [reflexivity|].
  destruct (runs_table_shape to_datetime_ms [run1] _ eq_refl) as [_ [L [_ [_ [F _]]]]].
  split; [exact L|]. split; [apply F; discriminate|reflexivity].
Defined.

Lemma runs_table_raises_witness :
  runs_table to_datetime_ms [run1; run2]
  = Throw (Exception "Out of bounds nanosecond timestamp").
Proof.
  apply (proj2 (runs_table_raises to_datetime_ms [run1; run2]
                  (Exception "Out of bounds nanosecond timestamp"))).
  exists [run1], run2, []. eexists. split; [reflexivity|]. split; reflexivity.
Defined.

Lemma list_runs_cached_witness :
  exists t app1,
    list_runs Host unit search_runs to_datetime_ms tt "1" fresh 0%nat
    = (Return t, app1, 0%nat)
    /\ forall client' w',
         list_runs Host unit search_runs to_datetime_ms client' "1" app1 w'
         = (Return t, app1, w').
Proof.
  eexists. eexists. split; [reflexivity|].
  exact (proj1 (list_runs_cached Host unit search_runs to_datetime_ms tt "1" fresh 0%nat
                  (Return _) _ 0%nat eq_refl)).
Defined.

End DashboardRuns.
